(** * The Notion <-> Markdown codec of [markdown.ts]

    A shallow embedding of the span codec ([richTextToMarkdown],
    [parseInlineMarkdown]), the decode engine ([markdownToBlocks],
    [mapLanguage]) and the encode engine ([blockToMarkdown],
    [blocksToMarkdown]), followed by the properties of the specification
    that are stated about them.

    The helpers of the tools that call the codec are embedded in [Tools]:
    [parseInlineToRichText], [getBlockPreview] and the batch loops of
    [tools/blocks.ts], the rows of [tools/databases.ts], [getPageTitle] and
    the pagination of [notion-client.ts].  Further properties of the codec
    and of these helpers close the file.

    Conventions of the embedding.
    - A JavaScript string is a [string]; one [ascii] stands for one UTF-16
      code unit in the range 0..255.  The character classes below are the
      ECMAScript ones restricted to that range.
    - A regular expression literal of the source is transcribed as a term of
      [Regex.re] and run by a backtracking matcher with the ECMAScript
      priorities (ordered alternation, greedy and lazy quantifiers,
      numbered capture groups).
    - [while] loops are run with fuel; running out of fuel, or a loop that
      would not advance, is the result [None]. *)

From Stdlib Require Import String Ascii List Bool Arith Lia Permutation.
Import ListNotations.
Open Scope string_scope.
Open Scope nat_scope.

(* ------------------------------------------------------------------ *)
(** ** Strings as JavaScript uses them *)

Module Js.

Definition nl : string := String "010"%char EmptyString.
Definition cr : string := String "013"%char EmptyString.

Definition code_unit (a : ascii) : nat := nat_of_ascii a.

(** White space of [\s] and of [String.prototype.trim]: TAB, LF, VT, FF, CR,
    SPACE and NBSP. *)
Definition is_space (a : ascii) : bool :=
  let n := code_unit a in
  ((9 <=? n) && (n <=? 13)) || (n =? 32) || (n =? 160).

(** [\d] and [\w]. *)
Definition is_digit (a : ascii) : bool :=
  let n := code_unit a in (48 <=? n) && (n <=? 57).

Definition is_word (a : ascii) : bool :=
  let n := code_unit a in
  ((97 <=? n) && (n <=? 122)) || ((65 <=? n) && (n <=? 90))
  || is_digit a || (n =? 95).

(** [.] without the [s] flag: anything but a line terminator. *)
Definition dot (a : ascii) : bool :=
  let n := code_unit a in negb ((n =? 10) || (n =? 13)).

Fixpoint one_of (set : string) (a : ascii) : bool :=
  match set with
  | EmptyString => false
  | String b set' => Ascii.eqb a b || one_of set' a
  end.

Definition none_of (set : string) (a : ascii) : bool := negb (one_of set a).

(** [String.prototype.toLowerCase] on one code unit. *)
Definition lower_char (a : ascii) : ascii :=
  let n := code_unit a in
  if ((65 <=? n) && (n <=? 90))
     || ((192 <=? n) && (n <=? 222) && negb (n =? 215))
  then ascii_of_nat (n + 32) else a.

Fixpoint toLowerCase (s : string) : string :=
  match s with
  | EmptyString => EmptyString
  | String a s' => String (lower_char a) (toLowerCase s')
  end.

Fixpoint trimStart (s : string) : string :=
  match s with
  | String a s' => if is_space a then trimStart s' else s
  | EmptyString => EmptyString
  end.

(** [trimEnd]: a character is kept when something that is kept follows it,
    or when it is not white space itself. *)
Fixpoint trimEnd (s : string) : string :=
  match s with
  | EmptyString => EmptyString
  | String a s' =>
      match trimEnd s' with
      | EmptyString => if is_space a then EmptyString else String a EmptyString
      | t => String a t
      end
  end.

Definition trim (s : string) : string := trimEnd (trimStart s).

(** [s.startsWith(p)]; [strip p s] is the rest of [s] behind [p]. *)
Fixpoint strip (p s : string) : option string :=
  match p with
  | EmptyString => Some s
  | String a p' =>
      match s with
      | String b s' => if Ascii.eqb a b then strip p' s' else None
      | EmptyString => None
      end
  end.

Definition startsWith (p s : string) : bool :=
  match strip p s with Some _ => true | None => false end.

(** [s.split] at line feeds: never the empty list. *)
Fixpoint split_nl (s : string) : list string :=
  match s with
  | EmptyString => [EmptyString]
  | String a s' =>
      if Ascii.eqb a "010"%char then EmptyString :: split_nl s'
      else match split_nl s' with
           | l :: ls => String a l :: ls
           | [] => [String a EmptyString]
           end
  end.

(** [arr.join(sep)]. *)
Fixpoint join (sep : string) (l : list string) : string :=
  match l with
  | [] => EmptyString
  | [x] => x
  | x :: rest => x ++ sep ++ join sep rest
  end.

(** [s.repeat(n)]. *)
Fixpoint repeat (s : string) (n : nat) : string :=
  match n with
  | 0 => EmptyString
  | S n' => s ++ repeat s n'
  end.

(** [f] holds of every character of [s]. *)
Fixpoint every (f : ascii -> bool) (s : string) : bool :=
  match s with
  | EmptyString => true
  | String a s' => f a && every f s'
  end.

(** Truthiness of a string. *)
Definition truthy (s : string) : bool :=
  match s with EmptyString => false | _ => true end.

End Js.

(* ------------------------------------------------------------------ *)
(** ** Regular expressions *)

Module Regex.

(** The constructs that occur in the literals of [markdown.ts].  Every
    quantifier of the source but one ranges over a single character class
    ([Quant]); the remaining one is the optional group [(?:...)?] ([Opt]). *)
Inductive re : Type :=
| Str (lit : string)
| Cls (f : ascii -> bool)
| Quant (greedy : bool) (lo : nat) (hi : option nat) (f : ascii -> bool)
| Opt (r : re)
| Seq (r1 r2 : re)
| Alt (r1 r2 : re)
| Grp (n : nat) (r : re)
| Bos
| Eos.

Definition plus (f : ascii -> bool) : re := Quant true 1 None f.
Definition star (f : ascii -> bool) : re := Quant true 0 None f.
Definition plus_lazy (f : ascii -> bool) : re := Quant false 1 None f.

Declare Scope re_scope.
Delimit Scope re_scope with re.
Bind Scope re_scope with re.
Infix "+>" := Seq (at level 61, right associativity) : re_scope.
Infix "</>" := Alt (at level 62, right associativity) : re_scope.

(** Captures: the most recent binding of a group is first. *)
Definition caps : Type := list (nat * string).

Fixpoint cap (n : nat) (c : caps) : option string :=
  match c with
  | [] => None
  | (m, s) :: c' => if Nat.eqb n m then Some s else cap n c'
  end.

Section Matcher.
Context {A : Type}.

(** [f{lo,hi}] at index [i] of the subject, whose rest is [s]. *)
Fixpoint quant (f : ascii -> bool) (greedy : bool) (lo : nat)
    (hi : option nat) (i : nat) (s : string)
    (k : nat -> string -> option A) {struct s} : option A :=
  match hi with
  | Some 0 => k i s
  | _ =>
    match lo with
    | S lo' =>
        match s with
        | String a s' =>
            if f a then quant f greedy lo' (option_map pred hi) (S i) s' k
            else None
        | EmptyString => None
        end
    | 0 =>
        if greedy then
          match s with
          | String a s' =>
              if f a then
                match quant f greedy 0 (option_map pred hi) (S i) s' k with
                | Some x => Some x
                | None => k i s
                end
              else k i s
          | EmptyString => k i s
          end
        else
          match k i s with
          | Some x => Some x
          | None =>
              match s with
              | String a s' =>
                  if f a
                  then quant f greedy 0 (option_map pred hi) (S i) s' k
                  else None
              | EmptyString => None
              end
          end
    end
  end.

(** The backtracking matcher, in continuation-passing style: [k] is what
    remains to be matched behind [r]. *)
Fixpoint rmatch (r : re) (i : nat) (s : string) (c : caps)
    (k : nat -> string -> caps -> option A) {struct r} : option A :=
  match r with
  | Str lit =>
      match Js.strip lit s with
      | Some s' => k (i + String.length lit) s' c
      | None => None
      end
  | Cls f =>
      match s with
      | String a s' => if f a then k (S i) s' c else None
      | EmptyString => None
      end
  | Quant greedy lo hi f =>
      quant f greedy lo hi i s (fun i' s' => k i' s' c)
  | Opt r1 =>
      match rmatch r1 i s c k with
      | Some x => Some x
      | None => k i s c
      end
  | Seq r1 r2 =>
      rmatch r1 i s c (fun i' s' c' => rmatch r2 i' s' c' k)
  | Alt r1 r2 =>
      match rmatch r1 i s c k with
      | Some x => Some x
      | None => rmatch r2 i s c k
      end
  | Grp n r1 =>
      rmatch r1 i s c
        (fun i' s' c' => k i' s' ((n, String.substring 0 (i' - i) s) :: c'))
  | Bos => if Nat.eqb i 0 then k i s c else None
  | Eos => match s with EmptyString => k i s c | _ => None end
  end.
End Matcher.

(** A successful match: where it starts and ends, the text behind it, and
    the captures. *)
Record result : Type := mkResult {
  m_start : nat;
  m_end : nat;
  m_rest : string;
  m_caps : caps
}.

Definition match_at (r : re) (i : nat) (s : string) : option result :=
  rmatch r i s [] (fun e rest c => Some (mkResult i e rest c)).

(** [RegExp.prototype.exec] from index [i] on: the first index at which the
    expression matches. *)
Fixpoint exec (r : re) (i : nat) (s : string) : option result :=
  match match_at r i s with
  | Some m => Some m
  | None =>
      match s with
      | String _ s' => exec r (S i) s'
      | EmptyString => None
      end
  end.

(** [s.match(r)] and [r.test(s)] for an expression without the [g] flag. *)
Definition match_ (r : re) (s : string) : option caps :=
  option_map m_caps (exec r 0 s).

Definition test (r : re) (s : string) : bool :=
  match exec r 0 s with Some _ => true | None => false end.

(** The least number of characters a match of [r] takes. *)
Definition quant_min (lo : nat) (hi : option nat) : nat :=
  match hi with Some h => Nat.min lo h | None => lo end.

Fixpoint min_len (r : re) : nat :=
  match r with
  | Str lit => String.length lit
  | Cls _ => 1
  | Quant _ lo hi _ => quant_min lo hi
  | Opt _ => 0
  | Seq r1 r2 => min_len r1 + min_len r2
  | Alt r1 r2 => Nat.min (min_len r1) (min_len r2)
  | Grp _ r1 => min_len r1
  | Bos | Eos => 0
  end.

(** The longest prefix of [s] in the class [f], and what is behind it. *)
Fixpoint span (f : ascii -> bool) (s : string) : string :=
  match s with
  | String a s' => if f a then String a (span f s') else EmptyString
  | EmptyString => EmptyString
  end.

Fixpoint behind (f : ascii -> bool) (s : string) : string :=
  match s with
  | String a s' => if f a then behind f s' else s
  | EmptyString => EmptyString
  end.

End Regex.

(* ------------------------------------------------------------------ *)
(** ** The span codec *)

Module Markdown.
Import Js Regex.
Open Scope re_scope.

(** The four annotations the codec reads and writes.  In a decoded run an
    annotation that the source leaves out is [false]. *)
Record Annotations : Type := mkAnnotations {
  bold : bool;
  italic : bool;
  strikethrough : bool;
  code : bool
}.

Definition no_annotations : Annotations := mkAnnotations false false false false.

(** What a mention refers to; [MentionOther] is a user, a date and the
    like. *)
Inductive Mention : Type :=
| MentionPage (id : string)
| MentionDatabase (id : string)
| MentionOther.

(** [RichTextItemResponse]: a run as the store returns it. *)
Inductive RichTextItemResponse : Type :=
| TextItem (plain_text : string) (annotations : Annotations)
    (link : option string)
| MentionItem (mention : Mention) (plain_text : string)
    (annotations : Annotations)
| EquationItem (plain_text : string) (annotations : Annotations).

Definition plain_text_of (item : RichTextItemResponse) : string :=
  match item with
  | TextItem t _ _ | MentionItem _ t _ | EquationItem t _ => t
  end.

Definition annotations_of (item : RichTextItemResponse) : Annotations :=
  match item with
  | TextItem _ a _ | MentionItem _ _ a | EquationItem _ a => a
  end.

(** The body of the [map] callback of [richTextToMarkdown]. *)
Definition itemToMarkdown (item : RichTextItemResponse) : string :=
  match item with
  | MentionItem (MentionPage id) _ _ => "{{page:" ++ id ++ "}}"
  | MentionItem (MentionDatabase id) _ _ => "{{database:" ++ id ++ "}}"
  | _ =>
      let text := plain_text_of item in
      if negb (truthy text) then ""
      else
        let ann := annotations_of item in
        let text := if code ann then "`" ++ text ++ "`" else text in
        let text := if bold ann then "**" ++ text ++ "**" else text in
        let text := if italic ann then "*" ++ text ++ "*" else text in
        let text := if strikethrough ann then "~~" ++ text ++ "~~" else text in
        match item with
        | TextItem _ _ (Some url) => "[" ++ text ++ "](" ++ url ++ ")"
        | _ => text
        end
  end.

Definition richTextToMarkdown (richText : list RichTextItemResponse) : string :=
  join "" (map itemToMarkdown richText).

(** [RichTextInput]: a run as the decoder builds it. *)
Inductive RichTextInput : Type :=
| TextInput (content : string) (link : option string)
    (annotations : Annotations)
| MentionInput (mention : Mention).

Definition text_input (content : string) : RichTextInput :=
  TextInput content None no_annotations.

(** The expression of [parseInlineMarkdown]:
    [{{(page|database):([^}]+)}}|\[([^\]]+)\]\(([^)]+)\)|\*\*(.+?)\*\*|\*(.+?)\*|`(.+?)`|~~(.+?)~~|([^[{*`~]+|[{*`~[]+)] *)
Definition inline_re : re :=
      (Str "{{" +> Grp 1 (Str "page" </> Str "database") +> Str ":"
         +> Grp 2 (plus (none_of "}")) +> Str "}}")
  </> (Str "[" +> Grp 3 (plus (none_of "]")) +> Str "]("
         +> Grp 4 (plus (none_of ")")) +> Str ")")
  </> (Str "**" +> Grp 5 (plus_lazy dot) +> Str "**")
  </> (Str "*" +> Grp 6 (plus_lazy dot) +> Str "*")
  </> (Str "`" +> Grp 7 (plus_lazy dot) +> Str "`")
  </> (Str "~~" +> Grp 8 (plus_lazy dot) +> Str "~~")
  </> Grp 9 (plus (none_of "[{*`~") </> plus (one_of "{*`~[")).

(** The [if] chain of the loop body: what one match pushes. *)
Definition item_of (c : caps) : list RichTextInput :=
  match cap 1 c, cap 2 c with
  | Some mentionType, Some g2 =>
      let id := trim g2 in
      if String.eqb mentionType "page"
      then [MentionInput (MentionPage id)]
      else [MentionInput (MentionDatabase id)]
  | _, _ =>
  match cap 3 c, cap 4 c with
  | Some g3, Some g4 => [TextInput g3 (Some g4) no_annotations]
  | _, _ =>
  match cap 5 c with
  | Some g5 => [TextInput g5 None (mkAnnotations true false false false)]
  | None =>
  match cap 6 c with
  | Some g6 => [TextInput g6 None (mkAnnotations false true false false)]
  | None =>
  match cap 7 c with
  | Some g7 => [TextInput g7 None (mkAnnotations false false false true)]
  | None =>
  match cap 8 c with
  | Some g8 => [TextInput g8 None (mkAnnotations false false true false)]
  | None =>
  match cap 9 c with
  | Some g9 => [text_input g9]
  | None => []
  end end end end end end end.

(** The [while ((match = regex.exec(text)) !== null)] loop; [i] is
    [regex.lastIndex] and [s] the text from there on.  A match that ends
    where the search started leaves [lastIndex] in place, and the loop of
    the source then never ends: [None]. *)
Fixpoint inline_loop (fuel : nat) (i : nat) (s : string)
    (items : list RichTextInput) : option (list RichTextInput) :=
  match fuel with
  | 0 => None
  | S fuel' =>
      match exec inline_re i s with
      | None => Some items
      | Some m =>
          if m_end m <=? i then None
          else inline_loop fuel' (m_end m) (m_rest m)
                 (items ++ item_of (m_caps m))%list
      end
  end.

Definition parseInlineMarkdown (text : string) : option (list RichTextInput) :=
  match inline_loop (S (String.length text)) 0 text [] with
  | Some [] => if 0 <? String.length text then Some [text_input text]
               else Some []
  | r => r
  end.

(* ------------------------------------------------------------------ *)
(** ** The decode engine *)

(** What a property read on the object literal of [mapLanguage] can give: a
    string of the table, or a member that every object inherits from
    [Object.prototype] (a function, or the prototype itself for
    [__proto__]). *)
Inductive PropertyValue : Type :=
| StringValue (s : string)
| InheritedMember (name : string).

(** The names [Object.prototype] defines. *)
Definition object_prototype_names : list string :=
  [ "constructor"; "__defineGetter__"; "__defineSetter__"; "hasOwnProperty";
    "__lookupGetter__"; "__lookupSetter__"; "isPrototypeOf";
    "propertyIsEnumerable"; "toString"; "valueOf"; "__proto__";
    "toLocaleString" ].

(** The own properties of [map] in [mapLanguage]. *)
Definition language_table : list (string * string) :=
  [ ("js", "javascript"); ("ts", "typescript"); ("py", "python");
    ("rb", "ruby"); ("sh", "bash"); ("yml", "yaml"); ("md", "markdown");
    ("", "plain text") ].

Fixpoint assoc (key : string) (table : list (string * string))
    : option string :=
  match table with
  | [] => None
  | (k, v) :: table' => if String.eqb key k then Some v else assoc key table'
  end.

(** [map[key]]: own properties first, then the prototype; [None] is
    [undefined]. *)
Definition map_get (key : string) : option PropertyValue :=
  match assoc key language_table with
  | Some v => Some (StringValue v)
  | None =>
      if existsb (String.eqb key) object_prototype_names
      then Some (InheritedMember key)
      else None
  end.

(** [map[lang.toLowerCase()] || lang.toLowerCase()]; the members of
    [Object.prototype] are all truthy. *)
Definition mapLanguage (lang : string) : PropertyValue :=
  match map_get (toLowerCase lang) with
  | Some (StringValue v) =>
      if truthy v then StringValue v else StringValue (toLowerCase lang)
  | Some (InheritedMember n) => InheritedMember n
  | None => StringValue (toLowerCase lang)
  end.

(** [BlockInput]: the descriptors [markdownToBlocks] builds.  [In_heading]
    carries the level of its key [heading_1], [heading_2] or
    [heading_3]. *)
Inductive BlockInput : Type :=
| In_code (rich_text : list RichTextInput) (language : PropertyValue)
| In_heading (level : nat) (rich_text : list RichTextInput)
| In_to_do (rich_text : list RichTextInput) (checked : bool)
| In_bulleted_list_item (rich_text : list RichTextInput)
| In_numbered_list_item (rich_text : list RichTextInput)
| In_quote (rich_text : list RichTextInput)
| In_divider
| In_bookmark (url : string) (caption : list RichTextInput)
| In_embed (url : string)
| In_image (url : string) (caption : list RichTextInput)
| In_paragraph (rich_text : list RichTextInput).

Definition fence : string := "```".

Definition is_fence (line : string) : bool := startsWith fence (trim line).

(** The expression of [langMatch]: start, three backquotes, group 1 = [\w]
    zero or more times. *)
Definition lang_re : re := Bos +> Str "```" +> Grp 1 (star is_word).
(** [/^(#{1,3})\s+(.+)/] of [headingMatch]. *)
Definition heading_re : re :=
  Bos +> Grp 1 (Quant true 1 (Some 3) (one_of "#")) +> plus is_space
      +> Grp 2 (plus dot).
(** The expression of [todoMatch]: start, [-] or [*], [\s+], an opening
    bracket, group 1 = space, [x] or [X], a closing bracket, [\s+],
    group 2 = [.] zero or more times. *)
Definition todo_re : re :=
  Bos +> Cls (one_of "-*") +> plus is_space +> Str "["
      +> Grp 1 (Cls (one_of " xX")) +> Str "]" +> plus is_space
      +> Grp 2 (star dot).
(** The expression of [bulletMatch]: start, [-] or [*], [\s+],
    group 1 = [.] zero or more times. *)
Definition bullet_re : re :=
  Bos +> Cls (one_of "-*") +> plus is_space +> Grp 1 (star dot).
(** The expression of [numberedMatch]: start, [\d+], a full stop, [\s+],
    group 1 = [.] zero or more times. *)
Definition numbered_re : re :=
  Bos +> plus is_digit +> Str "." +> plus is_space +> Grp 1 (star dot).
(** The expression of [quoteMatch]: start, [>], [\s] zero or more times,
    group 1 = [.] zero or more times. *)
Definition quote_re : re :=
  Bos +> Str ">" +> star is_space +> Grp 1 (star dot).
(** The divider test: start, three or more of [-], [*] and [_], [\s]
    zero or more times, end. *)
Definition divider_re : re :=
  Bos +> Quant true 3 None (one_of "-*_") +> star is_space +> Eos.
(** [/^\{\{bookmark:([^|}]+)(?:\|([^}]+))?\}\}$/] of [bookmarkMatch]. *)
Definition bookmark_re : re :=
  Bos +> Str "{{bookmark:" +> Grp 1 (plus (none_of "|}"))
      +> Opt (Str "|" +> Grp 2 (plus (none_of "}"))) +> Str "}}" +> Eos.
(** [/^\{\{embed:([^}]+)\}\}$/] of [embedMatch]. *)
Definition embed_re : re :=
  Bos +> Str "{{embed:" +> Grp 1 (plus (none_of "}")) +> Str "}}" +> Eos.
(** The expression of [imageMatch]: start, [!], an opening bracket,
    group 1 = anything but a closing bracket zero or more times, a closing
    bracket, an opening parenthesis, group 2 = anything but a closing
    parenthesis once or more, a closing parenthesis. *)
Definition image_re : re :=
  Bos +> Str "![" +> Grp 1 (star (none_of "]")) +> Str "]("
      +> Grp 2 (plus (none_of ")")) +> Str ")".

(** A capture group that took part in the match; [undefined] reads as the
    empty string where the source only tests or measures it. *)
Definition group (n : nat) (c : caps) : string :=
  match cap n c with Some s => s | None => "" end.

(** The inner [while] of the code branch, over the lines behind the opening
    fence: the lines it pushes to [codeLines]. *)
Fixpoint code_lines (rest : list string) : list string :=
  match rest with
  | [] => []
  | l :: rest' => if is_fence l then [] else l :: code_lines rest'
  end.

(** [langMatch?.[1]], or [plain text] when that is falsy. *)
Definition fence_language (line : string) : string :=
  match match_ lang_re (trim line) with
  | Some c => if truthy (group 1 c) then group 1 c else "plain text"
  | None => "plain text"
  end.

(** One line that is neither blank nor a fence: the block it becomes. *)
Definition classify (line : string) : option BlockInput :=
  match match_ heading_re line with
  | Some c =>
      option_map (In_heading (String.length (group 1 c)))
        (parseInlineMarkdown (group 2 c))
  | None =>
  match match_ todo_re line with
  | Some c =>
      option_map
        (fun rt => In_to_do rt (String.eqb (toLowerCase (group 1 c)) "x"))
        (parseInlineMarkdown (group 2 c))
  | None =>
  match match_ bullet_re line with
  | Some c =>
      option_map In_bulleted_list_item (parseInlineMarkdown (group 1 c))
  | None =>
  match match_ numbered_re line with
  | Some c =>
      option_map In_numbered_list_item (parseInlineMarkdown (group 1 c))
  | None =>
  match match_ quote_re line with
  | Some c => option_map In_quote (parseInlineMarkdown (group 1 c))
  | None =>
  if test divider_re (trim line) then Some In_divider
  else
  match match_ bookmark_re (trim line) with
  | Some c =>
      Some (In_bookmark (trim (group 1 c))
              (if truthy (group 2 c) then [text_input (trim (group 2 c))]
               else []))
  | None =>
  match match_ embed_re (trim line) with
  | Some c => Some (In_embed (trim (group 1 c)))
  | None =>
  match match_ image_re line with
  | Some c =>
      Some (In_image (group 2 c)
              (if truthy (group 1 c) then [text_input (group 1 c)] else []))
  | None => option_map In_paragraph (parseInlineMarkdown line)
  end end end end end end end end.

(** One turn of the outer [while] at cursor [i], where [lines[i]] is
    [line]: the next cursor and the blocks pushed. *)
Definition loop_body (lines : list string) (i : nat) (line : string)
    : option (nat * list BlockInput) :=
  if String.eqb (trim line) "" then Some (S i, [])
  else if is_fence line then
    let language := fence_language line in
    let codeLines := code_lines (skipn (S i) lines) in
    Some (S i + List.length codeLines + 1,
          [In_code [text_input (join nl codeLines)] (mapLanguage language)])
  else
    option_map (fun b => (S i, [b])) (classify line).

(** The outer [while (i < lines.length)]. *)
Fixpoint decode_loop (fuel : nat) (lines : list string) (i : nat)
    (blocks : list BlockInput) : option (list BlockInput) :=
  match fuel with
  | 0 => None
  | S fuel' =>
      match nth_error lines i with
      | None => Some blocks
      | Some line =>
          match loop_body lines i line with
          | Some (i', pushed) =>
              decode_loop fuel' lines i' (blocks ++ pushed)%list
          | None => None
          end
      end
  end.

Definition markdownToBlocks (markdown : string) : option (list BlockInput) :=
  let lines := split_nl markdown in
  decode_loop (S (List.length lines)) lines 0 [].

(** The states [(i, blocks)] in which the outer loop tests its condition
    when it runs on [lines]. *)
Inductive reaches (lines : list string) : nat -> list BlockInput -> Prop :=
| reaches_start : reaches lines 0 []
| reaches_turn (i : nat) (blocks : list BlockInput) (line : string)
    (i' : nat) (pushed : list BlockInput) :
    reaches lines i blocks ->
    nth_error lines i = Some line ->
    loop_body lines i line = Some (i', pushed) ->
    reaches lines i' (blocks ++ pushed)%list.

(* ------------------------------------------------------------------ *)
(** ** The encode engine *)

(** [external] or [file]: where the url of an image, video, file or pdf
    block is read. *)
Inductive FileSource : Type :=
| External (url : string)
| Hosted (url : string).

Definition source_url (src : FileSource) : string :=
  match src with External u | Hosted u => u end.

(** The discriminant of a [BlockObjectResponse] with the fields the encoder
    reads.  [Other type] is a block whose [type] is none of those that
    [blockToMarkdown] names. *)
Inductive BlockPayload : Type :=
| Paragraph (rich_text : list RichTextItemResponse)
| Heading_1 (rich_text : list RichTextItemResponse)
| Heading_2 (rich_text : list RichTextItemResponse)
| Heading_3 (rich_text : list RichTextItemResponse)
| Bulleted_list_item (rich_text : list RichTextItemResponse)
| Numbered_list_item (rich_text : list RichTextItemResponse)
| To_do (rich_text : list RichTextItemResponse) (checked : bool)
| Toggle (rich_text : list RichTextItemResponse)
| Code (rich_text : list RichTextItemResponse) (language : string)
| Quote (rich_text : list RichTextItemResponse)
| Callout (emoji : option string) (rich_text : list RichTextItemResponse)
| Divider
| Image (src : FileSource) (caption : option (list RichTextItemResponse))
| Bookmark (url : string) (caption : option (list RichTextItemResponse))
| Table
| Table_row (cells : list (list RichTextItemResponse))
| Child_page (title : string)
| Child_database (title : string)
| Embed (url : string)
| Video (src : FileSource)
| File (src : FileSource) (caption : option (list RichTextItemResponse))
| Pdf (src : FileSource)
| Equation (expression : string)
| Table_of_contents
| Breadcrumb
| Column_list
| Column
| Other (type : string).

Record BlockObjectResponse : Type := mkBlock {
  id : string;
  has_children : bool;
  payload : BlockPayload
}.

(** [block.type] *)
Definition type_of (p : BlockPayload) : string :=
  match p with
  | Paragraph _ => "paragraph"
  | Heading_1 _ => "heading_1"
  | Heading_2 _ => "heading_2"
  | Heading_3 _ => "heading_3"
  | Bulleted_list_item _ => "bulleted_list_item"
  | Numbered_list_item _ => "numbered_list_item"
  | To_do _ _ => "to_do"
  | Toggle _ => "toggle"
  | Code _ _ => "code"
  | Quote _ => "quote"
  | Callout _ _ => "callout"
  | Divider => "divider"
  | Image _ _ => "image"
  | Bookmark _ _ => "bookmark"
  | Table => "table"
  | Table_row _ => "table_row"
  | Child_page _ => "child_page"
  | Child_database _ => "child_database"
  | Embed _ => "embed"
  | Video _ => "video"
  | File _ _ => "file"
  | Pdf _ => "pdf"
  | Equation _ => "equation"
  | Table_of_contents => "table_of_contents"
  | Breadcrumb => "breadcrumb"
  | Column_list => "column_list"
  | Column => "column"
  | Other t => t
  end.

(** One line of a table: the cells between bars. *)
Definition table_line (cells : list string) : string :=
  "| " ++ join " | " cells ++ " |".

(** The [for] loop of the table case from index [i] on. *)
Fixpoint table_lines (i : nat) (rows : list BlockObjectResponse)
    : list string :=
  match rows with
  | [] => []
  | row :: rows' =>
      match payload row with
      | Table_row row_cells =>
          let cells := map richTextToMarkdown row_cells in
          (table_line cells
             :: (if i =? 0 then [table_line (map (fun _ => "---") cells)]
                 else []))
          ++ table_lines (S i) rows'
      | _ => table_lines (S i) rows'
      end
  end%list.

(** [prefixed]: every line of [line] behind the prefix. *)
Definition prefix_lines (prefix line : string) : string :=
  join nl (map (fun l => prefix ++ l) (split_nl line)).

Fixpoint mapM {X Y : Type} (f : X -> option Y) (l : list X)
    : option (list Y) :=
  match l with
  | [] => Some []
  | x :: l' =>
      match f x with
      | Some y => option_map (cons y) (mapM f l')
      | None => None
      end
  end.

Section Encode.

(** The provider of children; the engine awaits it and uses what it
    returns. *)
Variable collectAllBlocks : string -> list BlockObjectResponse.

(** The [line] of a block that is neither a table nor a column list. *)
Definition own_line (prefix : string) (block : BlockObjectResponse)
    : string :=
  match payload block with
  | Paragraph rt => richTextToMarkdown rt
  | Heading_1 rt => "# " ++ richTextToMarkdown rt
  | Heading_2 rt => "## " ++ richTextToMarkdown rt
  | Heading_3 rt => "### " ++ richTextToMarkdown rt
  | Bulleted_list_item rt => "- " ++ richTextToMarkdown rt
  | Numbered_list_item rt => "1. " ++ richTextToMarkdown rt
  | To_do rt checked =>
      "- [" ++ (if checked then "x" else " ") ++ "] "
        ++ richTextToMarkdown rt
  | Toggle rt =>
      "<details>" ++ nl ++ prefix ++ "<summary>" ++ richTextToMarkdown rt
        ++ "</summary>"
  | Code rt language =>
      let lang := if truthy language then language else "" in
      "```" ++ lang ++ nl ++ richTextToMarkdown rt ++ nl ++ "```"
  | Quote rt => "> " ++ richTextToMarkdown rt
  | Callout emoji rt =>
      let icon := match emoji with Some e => e ++ " " | None => "" end in
      "> " ++ icon ++ richTextToMarkdown rt
  | Divider => "---"
  | Image src caption =>
      let caption :=
        match caption with
        | Some c => richTextToMarkdown c
        | None => "image"
        end in
      "![" ++ caption ++ "](" ++ source_url src ++ ")"
  | Bookmark url caption =>
      let caption :=
        match caption with
        | Some (x :: c) => richTextToMarkdown (x :: c)
        | _ => ""
        end in
      if truthy caption
      then "{{bookmark:" ++ url ++ "|" ++ caption ++ "}}"
      else "{{bookmark:" ++ url ++ "}}"
  | Table => join nl (table_lines 0 (collectAllBlocks (id block)))
  | Child_page title =>
      "**[Child Page: " ++ title ++ "]** (id: " ++ id block ++ ")"
  | Child_database title =>
      "**[Child Database: " ++ title ++ "]** (id: " ++ id block ++ ")"
  | Embed url => "{{embed:" ++ url ++ "}}"
  | Video src => "[Video](" ++ source_url src ++ ")"
  | File src caption =>
      let caption :=
        match caption with
        | Some c => richTextToMarkdown c
        | None => "File"
        end in
      "[" ++ caption ++ "](" ++ source_url src ++ ")"
  | Pdf src => "[PDF](" ++ source_url src ++ ")"
  | Equation expression => "$$" ++ expression ++ "$$"
  | Table_of_contents => "<!-- table_of_contents -->"
  | Breadcrumb => "<!-- breadcrumb -->"
  | Column_list => ""
  | Column => "<!-- unsupported block type: column -->"
  | Table_row _ => "<!-- unsupported block type: table_row -->"
  | Other t => "<!-- unsupported block type: " ++ t ++ " -->"
  end.

(** The guard of the generic recursion into children. *)
Definition recurses (block : BlockObjectResponse) : bool :=
  has_children block
  && match payload block with
     | Table | Column_list | Column => false
     | _ => true
     end.

Definition is_toggle (block : BlockObjectResponse) : bool :=
  match payload block with Toggle _ => true | _ => false end.

Definition is_column (block : BlockObjectResponse) : bool :=
  match payload block with Column => true | _ => false end.

(** [blockToMarkdown]; the fuel bounds the depth of the tree the provider
    unfolds. *)
Fixpoint blockToMarkdown (fuel : nat) (block : BlockObjectResponse)
    (indent : nat) {struct fuel} : option string :=
  match fuel with
  | 0 => None
  | S fuel' =>
      let blocksToMarkdown' blocks ind :=
        option_map (join nl)
          (mapM (fun b => blockToMarkdown fuel' b ind) blocks) in
      let prefix := repeat "  " indent in
      match
        match payload block with
        | Column_list =>
            option_map (join (nl ++ nl))
              (mapM (fun col =>
                       blocksToMarkdown' (collectAllBlocks (id col)) indent)
                 (filter is_column (collectAllBlocks (id block))))
        | _ => Some (own_line prefix block)
        end
      with
      | None => None
      | Some line =>
          match
            if recurses block
            then blocksToMarkdown' (collectAllBlocks (id block)) (indent + 1)
            else Some ""
          with
          | None => None
          | Some children =>
              let prefixed := prefix_lines prefix line in
              if is_toggle block && truthy children
              then Some (prefixed ++ nl ++ children ++ nl ++ prefix
                           ++ "</details>")
              else if truthy children
              then Some (prefixed ++ nl ++ children)
              else Some prefixed
          end
      end
  end.

Definition blocksToMarkdown (fuel : nat) (blocks : list BlockObjectResponse)
    (indent : nat) : option string :=
  option_map (join nl) (mapM (fun b => blockToMarkdown fuel b indent) blocks).

End Encode.

End Markdown.

(* ------------------------------------------------------------------ *)
(** ** Decoded descriptors through the store and back *)

Module Store.
Import Js Regex Markdown.

(** Modelled from the spec: the submission surface and the provider are
    outside the repository.  The spec has them reliable and
    order-preserving, and one Content Block type on both sides of the
    codec: a run that was submitted is returned with the same content, link
    and annotations.  The text a mention is returned with is not read by
    the encoder for pages and databases. *)
Definition stored_run (r : RichTextInput) : RichTextItemResponse :=
  match r with
  | TextInput content link ann => TextItem content ann link
  | MentionInput m => MentionItem m "" no_annotations
  end.

(** Modelled from the spec: a decoded descriptor as the store returns it,
    without children.  A descriptor whose language is not a string, or
    whose heading level is none of 1, 2 and 3, is not a block of the
    store. *)
Definition stored (b : BlockInput) : option BlockObjectResponse :=
  let rt := map stored_run in
  option_map (mkBlock "" false)
    match b with
    | In_code r (StringValue l) => Some (Code (rt r) l)
    | In_code _ (InheritedMember _) => None
    | In_heading 1 r => Some (Heading_1 (rt r))
    | In_heading 2 r => Some (Heading_2 (rt r))
    | In_heading 3 r => Some (Heading_3 (rt r))
    | In_heading _ _ => None
    | In_to_do r checked => Some (To_do (rt r) checked)
    | In_bulleted_list_item r => Some (Bulleted_list_item (rt r))
    | In_numbered_list_item r => Some (Numbered_list_item (rt r))
    | In_quote r => Some (Quote (rt r))
    | In_divider => Some Divider
    | In_bookmark url caption => Some (Bookmark url (Some (rt caption)))
    | In_embed url => Some (Embed url)
    | In_image url caption => Some (Image (External url) (Some (rt caption)))
    | In_paragraph r => Some (Paragraph (rt r))
    end.

(** A flat list has no children to provide. *)
Definition no_children (_ : string) : list BlockObjectResponse := [].

Definition bind {X Y : Type} (o : option X) (f : X -> option Y) : option Y :=
  match o with Some x => f x | None => None end.

(** [encode] of a decoded list: one level of the tree. *)
Definition encode (t : list BlockInput) : option string :=
  bind (mapM stored t) (fun blocks => blocksToMarkdown no_children 1 blocks 0).

Definition decode : string -> option (list BlockInput) := markdownToBlocks.

(** A text without its white space: what is left when indentation and any
    other white space is taken to be insignificant. *)
Fixpoint without_space (s : string) : string :=
  match s with
  | EmptyString => EmptyString
  | String a s' =>
      if is_space a then without_space s' else String a (without_space s')
  end.

(** The nesting of the spec, in its words: a marker around a text when the
    annotation is present. *)
Definition wrapped (marker : string) (present : bool) (text : string)
    : string :=
  if present then marker ++ text ++ marker else text.

Definition nested (ann : Annotations) (content : string) : string :=
  wrapped "~~" (strikethrough ann)
    (wrapped "*" (italic ann)
       (wrapped "**" (bold ann)
          (wrapped "`" (code ann) content))).

Definition linked (link : option string) (text : string) : string :=
  match link with
  | Some url => "[" ++ text ++ "](" ++ url ++ ")"
  | None => text
  end.

Definition bold_only : Annotations := mkAnnotations true false false false.
Definition all_four : Annotations := mkAnnotations true true true true.

End Store.

(* ------------------------------------------------------------------ *)
(** ** Documents, trees and predicates the properties are stated with *)

Module Vocabulary.
Import Js Regex Markdown Store.

(** The scenario of the spec. *)
Definition scenario : string :=
  "# Title" ++ nl ++ nl ++ "- [ ] todo1" ++ nl ++ "- [x] todo2" ++ nl ++ nl
    ++ "```py" ++ nl ++ "print(1)" ++ nl ++ "```".

(** A fence without a language tag around one line. *)
Definition unlabelled_fence : string := "```" ++ nl ++ "x" ++ nl ++ "```".

Definition text (t : string) : list RichTextItemResponse :=
  [TextItem t no_annotations None].

Definition paragraph (t : string) : BlockObjectResponse :=
  mkBlock "" false (Paragraph (text t)).

(** A toggle [toggle-1] with two paragraphs below it, and a bulleted item
    [item-1] that has this toggle as its only child. *)
Definition toggle : BlockObjectResponse :=
  mkBlock "toggle-1" true (Toggle (text "S")).

Definition item : BlockObjectResponse :=
  mkBlock "item-1" true (Bulleted_list_item (text "B")).

Definition tree (block_id : string) : list BlockObjectResponse :=
  if String.eqb block_id "toggle-1" then [paragraph "p1"; paragraph "p2"]
  else if String.eqb block_id "item-1" then [toggle]
  else [].

(** The number of spaces a line starts with. *)
Fixpoint indentation (line : string) : nat :=
  match line with
  | String " " line' => S (indentation line')
  | _ => 0
  end.

(** The characters of the plain runs of [inline_re]: none of the marker
    characters. *)
Definition plain_chars : ascii -> bool := none_of "[{*`~".




(** [s] does not go on with a word character. *)
Definition no_word_first (s : string) : bool :=
  match s with
  | String a _ => negb (is_word a)
  | EmptyString => true
  end.

(** [name] is a name that every object inherits. *)
Definition inherited (name : string) : bool :=
  existsb (String.eqb name) object_prototype_names.

(** The alias table applied to a tag, in the words of the spec: the
    canonical name of an alias, and any other tag in lower case. *)
Definition normalized (tag : string) : string :=
  match assoc (toLowerCase tag) language_table with
  | Some canonical => canonical
  | None => toLowerCase tag
  end.

Definition no_line_feed (a : ascii) : bool := negb (Ascii.eqb a "010").

(** Whether the text decoded from [markdown] is encoded, decoded and
    encoded again to the same text, white space apart. *)
Definition reencodes_alike (markdown : string) : bool :=
  match bind (decode markdown) encode with
  | Some first =>
      match bind (decode first) encode with
      | Some second =>
          String.eqb (without_space first) (without_space second)
      | None => false
      end
  | None => false
  end.

(** Documents with every kind of line the decoder knows. *)
Definition samples : list string :=
  [ scenario;
    "* x"; "#   "; "> "; ">"; "- "; "-  [x] y"; "- [X]   z"; "12. a";
    "{{page: x }}"; "{{page: }}"; "{{bookmark: }}"; "{{bookmark: u | c }}";
    "{{embed: u }}"; "![](u)"; "![a](u) tail"; "***"; "___"; "* * *";
    "```js" ++ nl ++ "```"; "```c++" ++ nl ++ "x"; "```JS" ++ nl ++ "  ```";
    "[a](b)"; "[**a**](u) ~~x~~ `c`"; "  - x"; " # h"; "a" ++ cr;
    "# " ++ cr ++ "x"; "- [ ]"; ">>x"; "1. - x"; "- # x"; "> - [x] y";
    "- ```"; "- {{bookmark:u}}"; "1. ---"; "`{{page: x}}`";
    "# T" ++ nl ++ "text *i* **b**" ++ nl ++ "---" ++ nl ++ "> q" ++ nl
      ++ "```py" ++ nl ++ "  x = 1" ++ nl ++ "```" ++ nl ++ "1. one" ].

(** A row of a table, and the texts of its cells. *)
Definition is_table_row (row : BlockObjectResponse) : bool :=
  match payload row with Table_row _ => true | _ => false end.

Definition row_cells (row : BlockObjectResponse) : list string :=
  match payload row with
  | Table_row cells => map richTextToMarkdown cells
  | _ => []
  end.

(** The lines of a table with the rows [first :: rest]: the header, the
    separator with one cell for each cell of the header, and the other
    rows. *)
Definition table_text (first : BlockObjectResponse)
    (rest : list BlockObjectResponse) : list string :=
  table_line (row_cells first)
    :: table_line (List.repeat "---" (List.length (row_cells first)))
    :: map (fun row => table_line (row_cells row)) rest.

End Vocabulary.

(* ------------------------------------------------------------------ *)
(** ** The helpers of the tools, the page title and the pagination *)

Module Tools.
Import Js Regex Markdown Store Vocabulary.
Open Scope re_scope.

(** *** The block tools: [tools/blocks.ts] *)

(** The expression of [parseInlineToRichText]: the alternatives of
    [parseInlineMarkdown] without the mention, so that a brace is a plain
    character: a link (groups 1 and 2), bold (3), italic (4), code (5),
    strikethrough (6), and a run of plain or of marker characters (7). *)
Definition rich_re : re :=
      (Str "[" +> Grp 1 (plus (none_of "]")) +> Str "]("
         +> Grp 2 (plus (none_of ")")) +> Str ")")
  </> (Str "**" +> Grp 3 (plus_lazy dot) +> Str "**")
  </> (Str "*" +> Grp 4 (plus_lazy dot) +> Str "*")
  </> (Str "`" +> Grp 5 (plus_lazy dot) +> Str "`")
  </> (Str "~~" +> Grp 6 (plus_lazy dot) +> Str "~~")
  </> Grp 7 (plus (none_of "[*`~") </> plus (one_of "*`~[")).

(** The [if] chain of its loop body. *)
Definition rich_item_of (c : caps) : list RichTextInput :=
  match cap 1 c, cap 2 c with
  | Some g1, Some g2 => [TextInput g1 (Some g2) no_annotations]
  | _, _ =>
  match cap 3 c with
  | Some g3 => [TextInput g3 None (mkAnnotations true false false false)]
  | None =>
  match cap 4 c with
  | Some g4 => [TextInput g4 None (mkAnnotations false true false false)]
  | None =>
  match cap 5 c with
  | Some g5 => [TextInput g5 None (mkAnnotations false false false true)]
  | None =>
  match cap 6 c with
  | Some g6 => [TextInput g6 None (mkAnnotations false false true false)]
  | None =>
  match cap 7 c with
  | Some g7 => [text_input g7]
  | None => []
  end end end end end end.

(** Its [while] loop, as [inline_loop]. *)
Fixpoint rich_loop (fuel : nat) (i : nat) (s : string)
    (items : list RichTextInput) : option (list RichTextInput) :=
  match fuel with
  | 0 => None
  | S fuel' =>
      match exec rich_re i s with
      | None => Some items
      | Some m =>
          if m_end m <=? i then None
          else rich_loop fuel' (m_end m) (m_rest m)
                 (items ++ rich_item_of (m_caps m))%list
      end
  end.

(** [parseInlineToRichText] of [tools/blocks.ts]; the fallback run is pushed
    for the empty text too. *)
Definition parseInlineToRichText (text : string)
    : option (list RichTextInput) :=
  match rich_loop (S (String.length text)) 0 text [] with
  | Some [] => Some [text_input text]
  | r => r
  end.

(** [getBlockPreview] of [tools/blocks.ts]: a block with rich text by its
    encoded text, cut behind 77 characters when it has more than 80; a code
    block by its language and text, cut behind 57 when it has more than 60;
    the other blocks by a fixed text, their url, title or expression. *)
Definition getBlockPreview (block : BlockObjectResponse) : string :=
  let cut rt :=
    let text := richTextToMarkdown rt in
    if 80 <? String.length text
    then String.substring 0 77 text ++ "..." else text in
  match payload block with
  | Paragraph rt | Heading_1 rt | Heading_2 rt | Heading_3 rt
  | Bulleted_list_item rt | Numbered_list_item rt | To_do rt _
  | Toggle rt | Quote rt | Callout _ rt => cut rt
  | Code rt language =>
      let text := richTextToMarkdown rt in
      let lang := if truthy language then language else "" in
      let preview :=
        if 60 <? String.length text
        then String.substring 0 57 text ++ "..." else text in
      "```" ++ lang ++ ": " ++ preview
  | Image _ _ => "(image)"
  | Video _ => "(video)"
  | File _ _ => "(file)"
  | Pdf _ => "(pdf)"
  | Bookmark url _ => url
  | Embed url => url
  | Divider => "---"
  | Table => "(table)"
  | Child_page title => "Child page: " ++ title
  | Child_database title => "Child DB: " ++ title
  | Column_list => "(columns)"
  | Table_of_contents => "(table of contents)"
  | Equation expression => expression
  | p => "(" ++ type_of p ++ ")"
  end.

(** [arr.slice(from, to)] for [from <= to]. *)
Definition slice {X : Type} (from to : nat) (l : list X) : list X :=
  firstn (to - from) (skipn from l).

Section Insert.

(** What the awaited call that appends the batch taken at index [i] settles
    as: [Some n] is fulfilled with a response of [n] results, [None]
    rejected. *)
Variable append_settles : nat -> list BlockInput -> option nat.

(** The insert loop of [replace_page_content], in batches of
    [INSERT_BATCH_SIZE], which is 50.  [sent] are the batches the calls so
    far were made with.  A rejected call throws: the loop is left for the
    [catch] of the tool, with no count of created blocks, [None]. *)
Fixpoint insert_loop (fuel i : nat) (newBlocks : list BlockInput)
    (createdCount : nat) (sent : list (list BlockInput))
    : option (list (list BlockInput) * option nat) :=
  match fuel with
  | 0 => None
  | S fuel' =>
      if i <? List.length newBlocks
      then
        let batch := slice i (i + 50) newBlocks in
        match append_settles i batch with
        | Some results =>
            insert_loop fuel' (i + 50) newBlocks (createdCount + results)
              (sent ++ [batch])%list
        | None => Some ((sent ++ [batch])%list, None)
        end
      else Some (sent, Some createdCount)
  end.

(** The loop from the first block on, with nothing created and nothing
    sent yet. *)
Definition insert_batches (newBlocks : list BlockInput)
    : option (list (list BlockInput) * option nat) :=
  insert_loop (S (List.length newBlocks)) 0 newBlocks 0 [].

End Insert.

Section Delete.

(** What the call that deletes a block settles as: [true] is fulfilled,
    [false] rejected.  The calls are numbered in the order of the
    identifiers. *)
Variable delete_settles : nat -> string -> bool.

(** The inner loop over the results of one batch that starts at index [i]:
    the count of the fulfilled calls and the identifiers of the rejected
    ones. *)
Fixpoint tally (i : nat) (batch : list string) (deleted : nat)
    (failed : list string) : nat * list string :=
  match batch with
  | [] => (deleted, failed)
  | block_id :: batch' =>
      if delete_settles i block_id
      then tally (S i) batch' (S deleted) failed
      else tally (S i) batch' deleted (failed ++ [block_id])
  end.

(** The loop of [batch_delete_blocks], and of the second step of
    [replace_page_content], in batches of 10. *)
Fixpoint delete_loop (fuel i : nat) (block_ids : list string)
    (deleted : nat) (failed : list string) : option (nat * list string) :=
  match fuel with
  | 0 => None
  | S fuel' =>
      if i <? List.length block_ids
      then
        let batch := slice i (i + 10) block_ids in
        let '(deleted', failed') := tally i batch deleted failed in
        delete_loop fuel' (i + 10) block_ids deleted' failed'
      else Some (deleted, failed)
  end.

(** The loop from the first identifier on, with nothing deleted and
    nothing failed yet. *)
Definition batch_delete (block_ids : list string)
    : option (nat * list string) :=
  delete_loop (S (List.length block_ids)) 0 block_ids 0 [].

(** The identifiers from index [i] on whose call is rejected. *)
Fixpoint rejected (i : nat) (block_ids : list string) : list string :=
  match block_ids with
  | [] => []
  | block_id :: rest =>
      if delete_settles i block_id then rejected (S i) rest
      else block_id :: rejected (S i) rest
  end.

End Delete.

(** *** The title of a page: [getPageTitle] of [markdown.ts] *)

(** A property of a page as [getPageTitle] reads it: its [type], and its
    [title] array of plain texts when it has one. *)
Record PageProperty : Type := mkProperty {
  prop_type : string;
  title : option (list string)
}.

(** [getPageTitle] over the entries of [page.properties], in the order of
    [Object.entries]. *)
Fixpoint getPageTitle (properties : list (string * PageProperty)) : string :=
  match properties with
  | [] => "Untitled"
  | (_, prop) :: rest =>
      if String.eqb (prop_type prop) "title"
      then match title prop with
           | Some texts => join "" texts
           | None => getPageTitle rest
           end
      else getPageTitle rest
  end.

(** *** The pagination: [collectAllBlocks] of [notion-client.ts] *)

(** One page of the children of a block as the API lists them: the
    results, [None] for one that is not a full block, and the cursor of the
    next page. *)
Record ListResponse : Type := mkResponse {
  results : list (option BlockObjectResponse);
  next_cursor : option string
}.

(** The results that [isFullBlock] lets through. *)
Fixpoint full_blocks (l : list (option BlockObjectResponse))
    : list BlockObjectResponse :=
  match l with
  | [] => []
  | Some b :: l' => b :: full_blocks l'
  | None :: l' => full_blocks l'
  end.

Section Pagination.

(** [notion.blocks.children.list] for a block and a start cursor. *)
Variable list_children : string -> option string -> ListResponse.

(** The [do ... while (cursor)] loop of [collectAllBlocks]; the fuel bounds
    the number of pages.  A cursor that is the empty string ends the loop
    as a missing one does. *)
Fixpoint collect_loop (fuel : nat) (blockId : string)
    (cursor : option string) (blocks : list BlockObjectResponse)
    : option (list BlockObjectResponse) :=
  match fuel with
  | 0 => None
  | S fuel' =>
      let response := list_children blockId cursor in
      let blocks' := (blocks ++ full_blocks (results response))%list in
      match next_cursor response with
      | Some c =>
          if truthy c then collect_loop fuel' blockId (Some c) blocks'
          else Some blocks'
      | None => Some blocks'
      end
  end.

(** [collectAllBlocks] of [notion-client.ts]: from no cursor and no
    blocks on. *)
Definition collectAllBlocks (fuel : nat) (blockId : string)
    : option (list BlockObjectResponse) :=
  collect_loop fuel blockId None [].

(** The pages the API serves for a block from a cursor on: each but the
    last names the cursor of the next. *)
Inductive serves (blockId : string)
    : option string -> list ListResponse -> Prop :=
| serves_last (cursor : option string) :
    match next_cursor (list_children blockId cursor) with
    | Some c => truthy c = false
    | None => True
    end ->
    serves blockId cursor [list_children blockId cursor]
| serves_next (cursor : option string) (c : string)
    (pages : list ListResponse) :
    next_cursor (list_children blockId cursor) = Some c ->
    truthy c = true ->
    serves blockId (Some c) pages ->
    serves blockId cursor (list_children blockId cursor :: pages).

End Pagination.

(** *** The rows of [query_database]: [tools/databases.ts] *)

(** The backslash, code unit 92. *)
Definition backslash : ascii := "092"%char.

(** A cell of the table of [query_database]: the bars of the formatted
    value behind a backslash, and its line feeds replaced by spaces. *)
Fixpoint escape_bars (s : string) : string :=
  match s with
  | EmptyString => EmptyString
  | String a s' =>
      if Ascii.eqb a "|" then String backslash (String "|" (escape_bars s'))
      else String a (escape_bars s')
  end.

(** The replacement of every line feed by a space. *)
Fixpoint spaces_for_line_feeds (s : string) : string :=
  match s with
  | EmptyString => EmptyString
  | String a s' =>
      String (if Ascii.eqb a "010" then " "%char else a)
        (spaces_for_line_feeds s')
  end.

(** The cell of a property: [None] is a property the page does not have. *)
Definition cell (formatted : option string) : string :=
  match formatted with
  | Some s => spaces_for_line_feeds (escape_bars s)
  | None => ""
  end.

(** A row of the table. *)
Definition result_row (formatted : list (option string)) : string :=
  table_line (map cell formatted).

End Tools.

(* ------------------------------------------------------------------ *)
(** ** Predicates the further properties are stated with *)

Module Shapes.
Import Js Regex Markdown Store Vocabulary Tools.

(** Any character but the opening brace. *)
Definition no_brace (a : ascii) : bool := negb (Ascii.eqb a "{").

(** What the runs pushed for a match are encoded as. *)
Definition rendered (c : caps) : string :=
  richTextToMarkdown (map stored_run (item_of c)).

(** The text the runs of a decoded inline text are encoded to when the
    store returns them as they were submitted. *)
Definition reencoded (items : list RichTextInput) : string :=
  richTextToMarkdown (map stored_run items).

(** No line of [content] is a fence line. *)
Definition fence_free (content : string) : bool :=
  forallb (fun l => negb (is_fence l)) (split_nl content).

(** [s] does not go on with a character of the class [f]. *)
Definition stops (f : ascii -> bool) (s : string) : bool :=
  match s with
  | String a _ => negb (f a)
  | EmptyString => true
  end.

(** The markers of a bulleted item and of a to-do item. *)
Definition marker (m : string) : Prop := m = "-" \/ m = "*".

(** The characters of a divider line. *)
Definition rule_char : ascii -> bool := one_of "-*_".

(** [A] to [Z] and [a] to [z]. *)
Definition is_letter (a : ascii) : bool :=
  let n := code_unit a in
  ((97 <=? n) && (n <=? 122)) || ((65 <=? n) && (n <=? 90)).


(** What holds of every block the decoder builds: a heading has level 1,
    2 or 3, and a code block one run of text. *)
Definition well_formed (b : BlockInput) : Prop :=
  match b with
  | In_heading level _ => 1 <= level <= 3
  | In_code rich_text _ => List.length rich_text = 1
  | _ => True
  end.

(** The lines of a document that are not blank. *)
Definition content_lines (lines : list string) : list string :=
  filter (fun l => negb (String.eqb (trim l) "")) lines.

(** Every line of [s] starts with [prefix]. *)
Definition indented_by (prefix s : string) : bool :=
  forallb (startsWith prefix) (split_nl s).

(** A block for which the encoder asks the provider for nothing: it has no
    children to recurse into, and is neither a table nor a column list. *)
Definition leaf (block : BlockObjectResponse) : bool :=
  negb (has_children block)
  && match payload block with
     | Table | Column_list => false
     | _ => true
     end.

(** A run that is a text, not a mention. *)
Definition is_text_run (r : RichTextInput) : bool :=
  match r with TextInput _ _ _ => true | MentionInput _ => false end.

(** Two expressions of one shape: the same literals and quantifiers, classes
    that agree on the characters [ok] admits, and the groups of the second
    numbered [d] higher. *)
Inductive sim (d : nat) (ok : ascii -> bool) : re -> re -> Prop :=
| sim_str (lit : string) : sim d ok (Str lit) (Str lit)
| sim_cls (f f' : ascii -> bool) :
    (forall a, ok a = true -> f a = f' a) -> sim d ok (Cls f) (Cls f')
| sim_quant (g : bool) (lo : nat) (hi : option nat) (f f' : ascii -> bool) :
    (forall a, ok a = true -> f a = f' a) ->
    sim d ok (Quant g lo hi f) (Quant g lo hi f')
| sim_opt (r r' : re) : sim d ok r r' -> sim d ok (Opt r) (Opt r')
| sim_seq (r1 r1' r2 r2' : re) :
    sim d ok r1 r1' -> sim d ok r2 r2' -> sim d ok (Seq r1 r2) (Seq r1' r2')
| sim_alt (r1 r1' r2 r2' : re) :
    sim d ok r1 r1' -> sim d ok r2 r2' -> sim d ok (Alt r1 r2) (Alt r1' r2')
| sim_grp (n : nat) (r r' : re) :
    sim d ok r r' -> sim d ok (Grp n r) (Grp (n + d) r')
| sim_bos : sim d ok Bos Bos
| sim_eos : sim d ok Eos Eos.

(** The captures [c] with their group numbers raised by [d]. *)
Definition shift_caps (d : nat) (c : caps) : caps :=
  map (fun e => (fst e + d, snd e)) c.

(** A match with the group numbers of its captures raised by [d]. *)
Definition shift_result (d : nat) (m : result) : result :=
  mkResult (m_start m) (m_end m) (m_rest m) (shift_caps d (m_caps m)).

(** The rich text of a block that has one. *)
Definition rich_text_of (p : BlockPayload)
    : option (list RichTextItemResponse) :=
  match p with
  | Paragraph rt | Heading_1 rt | Heading_2 rt | Heading_3 rt
  | Bulleted_list_item rt | Numbered_list_item rt | To_do rt _
  | Toggle rt | Quote rt | Callout _ rt | Code rt _ => Some rt
  | _ => None
  end.

(** What a preview starts with in front of the text, and the length from
    which the text is cut. *)
Definition preview_head (p : BlockPayload) : string :=
  match p with
  | Code _ language => "```" ++ language ++ ": "
  | _ => ""
  end.

Definition preview_limit (p : BlockPayload) : nat :=
  match p with Code _ _ => 60 | _ => 80 end.

(** The results of the calls made with the batches [sent], the first of
    them taken at index [i]; [append_settles] is what a call settles as. *)
Fixpoint results_of (append_settles : nat -> list BlockInput -> option nat)
    (i : nat) (sent : list (list BlockInput)) : nat :=
  match sent with
  | [] => 0
  | batch :: rest =>
      match append_settles i batch with Some n => n | None => 0 end
      + results_of append_settles (i + 50) rest
  end.

(** The caption of a bookmark placeholder: a bar and the caption, or
    nothing. *)
Definition caption_part (caption : option string) : string :=
  match caption with Some c => "|" ++ c | None => "" end.


(** Whether the fences of [lines] are closed: [inside] tells whether a
    code block is open in front of them. *)
Fixpoint balanced (inside : bool) (lines : list string) : bool :=
  match lines with
  | [] => negb inside
  | l :: lines' =>
      if is_fence l then balanced (negb inside) lines'
      else balanced inside lines'
  end.

(** The fences of a text are closed: every fence line that opens a code
    block is followed by one that closes it. *)
Definition fences_closed (markdown : string) : bool :=
  balanced false (split_nl markdown).






(** The test of the loop of [getPageTitle]. *)
Definition is_title (entry : string * PageProperty) : bool :=
  String.eqb (prop_type (snd entry)) "title"
  && match title (snd entry) with Some _ => true | None => false end.

(** A listing in two pages: a full block and a partial one, and then one
    more full block. *)
Definition two_page_listing (_ : string) (cursor : option string)
    : ListResponse :=
  match cursor with
  | None => mkResponse [Some (mkBlock "b1" false Divider); None] (Some "c1")
  | Some _ => mkResponse [Some (mkBlock "b2" false Divider)] None
  end.

(** The bars of [s] that do not follow a backslash; [escaped] tells whether
    a backslash stands in front of [s]. *)
Fixpoint bare_bars (escaped : bool) (s : string) : nat :=
  match s with
  | EmptyString => 0
  | String a s' =>
      (if Ascii.eqb a "|" && negb escaped then 1 else 0)
      + bare_bars (Ascii.eqb a backslash) s'
  end.

End Shapes.

(* ------------------------------------------------------------------ *)
(** ** Facts about strings *)

Module StringFacts.
Import Js.

Lemma append_assoc (a b c : string) : ((a ++ b) ++ c = a ++ (b ++ c))%string.
Proof. induction a as [|x a IH]; simpl; [reflexivity | now rewrite IH]. Qed.

Lemma append_nil_r (a : string) : (a ++ "")%string = a.
Proof. induction a as [|x a IH]; simpl; [reflexivity | now rewrite IH]. Qed.

Lemma length_append (a b : string) :
  String.length (a ++ b) = String.length a + String.length b.
Proof. induction a as [|x a IH]; simpl; [reflexivity | now rewrite IH]. Qed.

Lemma substring_append (a b : string) :
  String.substring 0 (String.length a) (a ++ b) = a.
Proof.
  induction a as [|x a IH]; simpl.
  - destruct b; reflexivity.
  - now rewrite IH.
Qed.

Lemma split_nl_not_nil (s : string) : split_nl s <> [].
Proof.
  induction s as [|a s IH]; simpl; [discriminate|].
  destruct (Ascii.eqb a "010"); [discriminate|].
  destruct (split_nl s); discriminate.
Qed.

(** Joining the lines of a text gives the text back. *)
Lemma join_split_nl (s : string) : join nl (split_nl s) = s.
Proof.
  induction s as [|a s IH]; [reflexivity|].
  simpl. destruct (Ascii.eqb a "010") eqn:E.
  - apply Ascii.eqb_eq in E. subst a.
    pose proof (split_nl_not_nil s) as Hne.
    destruct (split_nl s) as [|l ls]; [congruence|].
    change (join nl (EmptyString :: l :: ls))
      with (String "010" (join nl (l :: ls))).
    now rewrite IH.
  - pose proof (split_nl_not_nil s) as Hne.
    destruct (split_nl s) as [|l ls]; [congruence|].
    destruct ls as [|l' ls]; simpl in *; now rewrite <- IH.
Qed.

End StringFacts.

(* ------------------------------------------------------------------ *)
(** ** Facts about the matcher *)

Module RegexFacts.
Import Js Regex StringFacts.

Lemma strip_inv (p s s' : string) :
  strip p s = Some s' -> s = (p ++ s')%string.
Proof.
  revert s. induction p as [|a p IH]; intros s H; simpl in *.
  - congruence.
  - destruct s as [|b s]; [discriminate|].
    destruct (Ascii.eqb a b) eqn:E; [|discriminate].
    apply Ascii.eqb_eq in E. subst b. now rewrite (IH s H).
Qed.

Lemma strip_append (p s : string) : strip p (p ++ s) = Some s.
Proof.
  induction p as [|a p IH]; simpl; [reflexivity|].
  now rewrite Ascii.eqb_refl.
Qed.

(** Whatever a quantifier hands to its continuation lies behind at least
    [quant_min lo hi] characters of the subject. *)
Lemma quant_inv {A : Type} (f : ascii -> bool) (g : bool) (s : string) :
  forall (lo : nat) (hi : option nat) (i : nat)
         (k : nat -> string -> option A) (x : A),
    quant f g lo hi i s k = Some x ->
    exists i' s', k i' s' = Some x
      /\ i' + String.length s' = i + String.length s
      /\ i + quant_min lo hi <= i'.
Proof.
  induction s as [|a s IH]; intros lo hi i k x H.
  - destruct hi as [[|h]|], lo as [|lo], g; simpl in H; try discriminate;
      try (destruct (k i "") eqn:E; try discriminate);
      try (exists i, ""; repeat split; simpl; (congruence || lia)).
  - assert (Hk : k i (String a s) = Some x ->
              exists i' s', k i' s' = Some x
                /\ i' + String.length s' = i + String.length (String a s)
                /\ i + 0 <= i').
    { intros E. exists i, (String a s). repeat split; [exact E | lia]. }
    assert (Hstep : forall lo' hi',
              quant f g lo' hi' (S i) s k = Some x ->
              exists i' s', k i' s' = Some x
                /\ i' + String.length s' = i + String.length (String a s)
                /\ S i + quant_min lo' hi' <= i').
    { intros lo' hi' E. destruct (IH _ _ _ _ _ E) as (i' & s' & E1 & E2 & E3).
      exists i', s'. repeat split; [exact E1 | simpl; lia | exact E3]. }
    destruct hi as [[|h]|].
    + simpl in H. destruct (Hk H) as (i' & s' & ? & ? & ?).
      exists i', s'. repeat split; try assumption.
      unfold quant_min. rewrite Nat.min_0_r. lia.
    + destruct lo as [|lo]; simpl in H.
      * unfold quant_min, Nat.min.
        destruct g.
        -- destruct (f a); [|now apply Hk].
           destruct (quant f true 0 (Some h) (S i) s k) eqn:E.
           ++ inversion H; subst.
              destruct (Hstep _ _ E) as (i' & s' & ? & ? & ?).
              exists i', s'. repeat split; try assumption. lia.
           ++ now apply Hk.
        -- destruct (k i (String a s)) eqn:E.
           ++ inversion H; subst. now apply Hk.
           ++ destruct (f a); [|discriminate].
              destruct (Hstep _ _ H) as (i' & s' & ? & ? & ?).
              exists i', s'. repeat split; try assumption. lia.
      * destruct (f a); [|discriminate].
        destruct (Hstep _ _ H) as (i' & s' & ? & ? & Hle).
        exists i', s'. repeat split; try assumption.
        unfold quant_min in *. lia.
    + destruct lo as [|lo]; simpl in H.
      * unfold quant_min.
        destruct g.
        -- destruct (f a); [|now apply Hk].
           destruct (quant f true 0 None (S i) s k) eqn:E.
           ++ inversion H; subst.
              destruct (Hstep _ _ E) as (i' & s' & ? & ? & ?).
              exists i', s'. repeat split; try assumption. lia.
           ++ now apply Hk.
        -- destruct (k i (String a s)) eqn:E.
           ++ inversion H; subst. now apply Hk.
           ++ destruct (f a); [|discriminate].
              destruct (Hstep _ _ H) as (i' & s' & ? & ? & ?).
              exists i', s'. repeat split; try assumption. lia.
      * destruct (f a); [|discriminate].
        destruct (Hstep _ _ H) as (i' & s' & ? & ? & Hle).
        exists i', s'. repeat split; try assumption.
        unfold quant_min in *. lia.
Qed.

(** The same for every expression, with [min_len]. *)
Lemma rmatch_inv {A : Type} (r : re) :
  forall (i : nat) (s : string) (c : caps)
         (k : nat -> string -> caps -> option A) (x : A),
    rmatch r i s c k = Some x ->
    exists i' s' c', k i' s' c' = Some x
      /\ i' + String.length s' = i + String.length s
      /\ i + min_len r <= i'.
Proof.
  induction r as [lit|f|g lo hi f|r IH|r1 IH1 r2 IH2|r1 IH1 r2 IH2|n r IH| |];
    intros i s c k x H; simpl in H.
  - destruct (strip lit s) as [s'|] eqn:E; [|discriminate].
    apply strip_inv in E. subst s.
    exists (i + String.length lit), s', c.
    rewrite length_append. repeat split; simpl; (assumption || lia).
  - destruct s as [|a s]; [discriminate|].
    destruct (f a); [|discriminate].
    exists (S i), s, c. repeat split; simpl; (assumption || lia).
  - apply quant_inv in H. destruct H as (i' & s' & H1 & H2 & H3).
    exists i', s', c. repeat split; assumption.
  - destruct (rmatch r i s c k) eqn:E.
    + inversion H; subst.
      destruct (IH _ _ _ _ _ E) as (i' & s' & c' & H1 & H2 & H3).
      exists i', s', c'. repeat split; simpl; (assumption || lia).
    + exists i, s, c. repeat split; simpl; (assumption || lia).
  - destruct (IH1 _ _ _ _ _ H) as (i1 & s1 & c1 & H1 & H2 & H3).
    destruct (IH2 _ _ _ _ _ H1) as (i2 & s2 & c2 & H4 & H5 & H6).
    exists i2, s2, c2. repeat split; simpl; (assumption || lia).
  - destruct (rmatch r1 i s c k) eqn:E.
    + inversion H; subst.
      destruct (IH1 _ _ _ _ _ E) as (i' & s' & c' & H1 & H2 & H3).
      exists i', s', c'. repeat split; simpl; (assumption || lia).
    + destruct (IH2 _ _ _ _ _ H) as (i' & s' & c' & H1 & H2 & H3).
      exists i', s', c'. repeat split; simpl; (assumption || lia).
  - destruct (IH _ _ _ _ _ H) as (i' & s' & c' & H1 & H2 & H3).
    eexists i', s', _. repeat split; simpl; (eassumption || lia).
  - destruct (Nat.eqb i 0); [|discriminate].
    exists i, s, c. repeat split; simpl; (assumption || lia).
  - destruct s; [|discriminate].
    exists i, "", c. repeat split; simpl; (assumption || lia).
Qed.

Lemma match_at_inv (r : re) (i : nat) (s : string) (m : result) :
  match_at r i s = Some m ->
  m_start m = i
  /\ m_end m + String.length (m_rest m) = i + String.length s
  /\ i + min_len r <= m_end m.
Proof.
  unfold match_at. intros H. apply rmatch_inv in H.
  destruct H as (i' & s' & c' & H1 & H2 & H3).
  inversion H1; subst. simpl. repeat split; assumption.
Qed.

Lemma exec_inv (r : re) (s : string) :
  forall (i : nat) (m : result),
    exec r i s = Some m ->
    i <= m_start m
    /\ m_end m + String.length (m_rest m) = i + String.length s
    /\ m_start m + min_len r <= m_end m.
Proof.
  induction s as [|a s IH]; intros i m H; simpl in H.
  - destruct (match_at r i "") eqn:E; [|discriminate].
    inversion H; subst. apply match_at_inv in E.
    destruct E as (E1 & E2 & E3). rewrite E1. repeat split; (assumption || lia).
  - destruct (match_at r i (String a s)) eqn:E.
    + inversion H; subst. apply match_at_inv in E.
      destruct E as (E1 & E2 & E3). rewrite E1.
      repeat split; (assumption || lia).
    + apply IH in H. destruct H as (H1 & H2 & H3).
      repeat split; simpl; (assumption || lia).
Qed.

(** An expression anchored at the start matches at index 0 or not at
    all. *)
Lemma exec_anchored_later (r : re) (s : string) :
  forall i, 0 < i -> exec (Bos +> r) i s = None.
Proof.
  induction s as [|a s IH]; intros i Hi.
  - simpl. unfold match_at. simpl.
    destruct i; [lia | reflexivity].
  - simpl. unfold match_at at 1. simpl.
    destruct i; [lia|]. simpl. apply IH. lia.
Qed.

Lemma exec_anchored (r : re) (s : string) :
  exec (Bos +> r) 0 s = match_at (Bos +> r) 0 s.
Proof.
  destruct s as [|a s]; simpl.
  - destruct (match_at (Bos +> r) 0 ""); reflexivity.
  - destruct (match_at (Bos +> r) 0 (String a s)); [reflexivity|].
    apply exec_anchored_later. lia.
Qed.

Lemma span_behind (f : ascii -> bool) (s : string) :
  (span f s ++ behind f s)%string = s.
Proof.
  induction s as [|a s IH]; simpl; [reflexivity|].
  destruct (f a); simpl; [now rewrite IH | reflexivity].
Qed.

(** A greedy quantifier before a continuation that never fails takes the
    whole run of the class. *)
Lemma quant_greedy_run {A : Type} (f : ascii -> bool) (s : string) :
  forall (i : nat) (k : nat -> string -> option A),
    (forall i' s', k i' s' <> None) ->
    quant f true 0 None i s k
    = k (i + String.length (span f s)) (behind f s).
Proof.
  induction s as [|a s IH]; intros i k Hk; simpl.
  - now rewrite Nat.add_0_r.
  - destruct (f a); simpl.
    + rewrite (IH (S i) k Hk).
      replace (S i + String.length (span f s))
        with (i + S (String.length (span f s))) by lia.
      destruct (k (i + S (String.length (span f s))) (behind f s)) eqn:E;
        [reflexivity|]. now apply Hk in E.
    + now rewrite Nat.add_0_r.
Qed.

End RegexFacts.

(* ------------------------------------------------------------------ *)
(** ** Facts about the decoder: it always returns *)

Module DecodeFacts.
Import Js Regex Markdown StringFacts RegexFacts.

Lemma inline_re_consumes : min_len inline_re = 1.
Proof. reflexivity. Qed.

Lemma inline_loop_total (fuel : nat) :
  forall (i : nat) (s : string) (items : list RichTextInput),
    String.length s < fuel ->
    exists r, inline_loop fuel i s items = Some r.
Proof.
  induction fuel as [|fuel IH]; intros i s items Hfuel; [lia|].
  simpl. destruct (exec inline_re i s) as [m|] eqn:E; [|eauto].
  apply exec_inv in E. rewrite inline_re_consumes in E.
  destruct E as (E1 & E2 & E3).
  destruct (m_end m <=? i) eqn:Hle; [apply Nat.leb_le in Hle; lia|].
  apply IH. lia.
Qed.

Lemma parseInlineMarkdown_total (text : string) :
  exists items, parseInlineMarkdown text = Some items.
Proof.
  unfold parseInlineMarkdown.
  destruct (inline_loop_total (S (String.length text)) 0 text [])
    as [r Hr]; [lia|].
  rewrite Hr. destruct r; [|eauto].
  destruct (0 <? String.length text); eauto.
Qed.

Lemma classify_total (line : string) : exists b, classify line = Some b.
Proof.
  unfold classify.
  repeat match goal with
  | |- exists b, option_map _ (parseInlineMarkdown ?t) = Some b =>
      let H := fresh "H" in
      destruct (parseInlineMarkdown_total t) as [? H]; rewrite H; simpl
  | |- exists b, Some _ = Some b => eexists; reflexivity
  | |- exists b, match ?o with _ => _ end = Some b => destruct o
  end.
Qed.

(** Every turn of the outer loop moves the cursor forward. *)
Lemma loop_body_advances (lines : list string) (i : nat) (line : string)
    (i' : nat) (pushed : list BlockInput) :
  loop_body lines i line = Some (i', pushed) -> i < i'.
Proof.
  unfold loop_body. intros H.
  destruct (String.eqb (trim line) ""); [inversion H; lia|].
  destruct (is_fence line); [inversion H; lia|].
  destruct (classify line); simpl in H; [inversion H; lia | discriminate].
Qed.

Lemma loop_body_total (lines : list string) (i : nat) (line : string) :
  exists i' pushed, loop_body lines i line = Some (i', pushed).
Proof.
  unfold loop_body.
  destruct (String.eqb (trim line) ""); [eauto|].
  destruct (is_fence line); [eauto|].
  destruct (classify_total line) as [b Hb]. rewrite Hb. simpl. eauto.
Qed.

Lemma decode_loop_total (fuel : nat) (lines : list string) :
  forall (i : nat) (blocks : list BlockInput),
    List.length lines - i < fuel ->
    exists r, decode_loop fuel lines i blocks = Some r.
Proof.
  induction fuel as [|fuel IH]; intros i blocks Hfuel; [lia|].
  simpl. destruct (nth_error lines i) as [line|] eqn:E; [|eauto].
  destruct (loop_body_total lines i line) as (i' & pushed & Hb).
  rewrite Hb. apply loop_body_advances in Hb.
  assert (i < List.length lines) by (apply nth_error_Some; congruence).
  apply IH. lia.
Qed.

(** [markdownToBlocks] returns on every input. *)
Lemma markdownToBlocks_total (markdown : string) :
  exists blocks, markdownToBlocks markdown = Some blocks.
Proof. unfold markdownToBlocks. apply decode_loop_total. lia. Qed.

(** A state the loop reaches after [n] turns; the cursor is then at [n] at
    least. *)
Lemma reaches_turns (lines : list string) (i : nat)
    (blocks : list BlockInput) :
  reaches lines i blocks ->
  exists n, n <= i /\
    forall fuel,
      decode_loop (n + fuel) lines 0 [] = decode_loop fuel lines i blocks.
Proof.
  induction 1 as [|i blocks line i' pushed _ IH Hline Hbody].
  - exists 0. split; [lia | reflexivity].
  - destruct IH as (n & Hn & IH). exists (S n). split.
    + apply loop_body_advances in Hbody. lia.
    + intros fuel. replace (S n + fuel) with (n + S fuel) by lia.
      rewrite IH. simpl. now rewrite Hline, Hbody.
Qed.

Lemma code_lines_all (rest : list string) :
  forallb (fun l => negb (is_fence l)) rest = true -> code_lines rest = rest.
Proof.
  induction rest as [|l rest IH]; intros H; [reflexivity|].
  simpl in *. apply andb_prop in H. destruct H as [Hl H].
  destruct (is_fence l); [discriminate|]. now rewrite IH.
Qed.

Lemma fence_not_blank (line : string) :
  is_fence line = true -> String.eqb (trim line) "" = false.
Proof.
  unfold is_fence, startsWith. destruct (trim line); [discriminate|reflexivity].
Qed.

End DecodeFacts.

(* ------------------------------------------------------------------ *)
(** ** Facts about the inline expression *)

Module InlineFacts.
Import Js Regex Markdown Store Vocabulary StringFacts RegexFacts DecodeFacts.

(** The seven white space characters, one goal for each. *)
Ltac space_cases a H :=
  destruct a as [[] [] [] [] [] [] [] []];
  try (vm_compute in H; discriminate H); clear H.

(** None of the patterns anchored at the first column matches a line that
    starts with white space. *)
Lemma indented_unanchored (a : ascii) (rest : string) :
  is_space a = true ->
  match_ heading_re (String a rest) = None
  /\ match_ todo_re (String a rest) = None
  /\ match_ bullet_re (String a rest) = None
  /\ match_ numbered_re (String a rest) = None
  /\ match_ quote_re (String a rest) = None
  /\ match_ image_re (String a rest) = None.
Proof.
  intros H. unfold match_, heading_re, todo_re, bullet_re, numbered_re,
    quote_re, image_re.
  rewrite !exec_anchored.
  space_cases a H; repeat split; reflexivity.
Qed.

Lemma quant_plus_cons {A : Type} (f : ascii -> bool) (g : bool) (a : ascii)
    (s : string) (i : nat) (k : nat -> string -> option A) :
  f a = true ->
  quant f g 1 None i (String a s) k = quant f g 0 None (S i) s k.
Proof. intros H. simpl. now rewrite H. Qed.

Lemma substring_span (f : ascii -> bool) (s : string) :
  String.substring 0 (String.length (span f s)) s = span f s.
Proof.
  rewrite <- (span_behind f s) at 2. apply substring_append.
Qed.



Lemma inline_loop_S (fuel i : nat) (s : string)
    (items : list RichTextInput) :
  inline_loop (S fuel) i s items
  = match exec inline_re i s with
    | None => Some items
    | Some m =>
        if m_end m <=? i then None
        else inline_loop fuel (m_end m) (m_rest m)
               (items ++ item_of (m_caps m))%list
    end.
Proof. reflexivity. Qed.










Lemma exec_inline_empty (i : nat) : exec inline_re i "" = None.
Proof. reflexivity. Qed.

End InlineFacts.

(* ------------------------------------------------------------------ *)
(** ** Facts about fences and prefixes *)

Module FenceFacts.
Import Js Regex Markdown Store Vocabulary StringFacts RegexFacts DecodeFacts
  InlineFacts.

Lemma word_not_space (a : ascii) : is_word a = true -> is_space a = false.
Proof.
  destruct a as [[] [] [] [] [] [] [] []]; intros H;
    try reflexivity; vm_compute in H; discriminate H.
Qed.

Lemma table_values_truthy (key v : string) :
  assoc key language_table = Some v -> truthy v = true.
Proof.
  unfold language_table. cbn [assoc].
  repeat match goal with
  | |- (if ?b then _ else _) = _ -> _ =>
      destruct b; [intros E; inversion E; reflexivity|]
  end.
  discriminate.
Qed.

Lemma trimEnd_cons (a : ascii) (s : string) :
  is_space a = false -> trimEnd (String a s) = String a (trimEnd s).
Proof. intros H. simpl. rewrite H. destruct (trimEnd s); reflexivity. Qed.

Lemma trimEnd_words_append (tag rest : string) :
  every is_word tag = true -> trimEnd (tag ++ rest) = tag ++ trimEnd rest.
Proof.
  induction tag as [|a tag IH]; intros H; [reflexivity|].
  simpl in H. apply andb_prop in H. destruct H as [Ha H].
  cbn [append]. rewrite (trimEnd_cons a _ (word_not_space a Ha)).
  now rewrite (IH H).
Qed.

Lemma no_word_first_trimEnd (s : string) :
  no_word_first s = true -> no_word_first (trimEnd s) = true.
Proof.
  destruct s as [|a s]; [reflexivity|]. simpl.
  intros H. destruct (trimEnd s); [destruct (is_space a)|]; simpl; auto.
Qed.

Lemma span_words_append (tag rest : string) :
  every is_word tag = true -> no_word_first rest = true ->
  span is_word (tag ++ rest) = tag /\ behind is_word (tag ++ rest) = rest.
Proof.
  induction tag as [|a tag IH]; intros H Hr.
  - destruct rest as [|b rest]; [split; reflexivity|].
    simpl in *. apply negb_true_iff in Hr. rewrite Hr. split; reflexivity.
  - simpl in *. apply andb_prop in H. destruct H as [Ha H].
    rewrite Ha. destruct (IH H Hr) as [-> ->]. split; reflexivity.
Qed.

Lemma trimStart_pad (pad s : string) :
  every is_space pad = true -> trimStart (pad ++ s) = trimStart s.
Proof.
  induction pad as [|a pad IH]; intros H; [reflexivity|].
  simpl in *. apply andb_prop in H. destruct H as [Ha H].
  now rewrite Ha, (IH H).
Qed.

(** The trimmed text of a line that opens a fence. *)
Lemma trim_fence (pad tag rest : string) :
  every is_space pad = true ->
  every is_word tag = true ->
  trim (pad ++ "```" ++ tag ++ rest) = "```" ++ tag ++ trimEnd rest.
Proof.
  intros Hp H. unfold trim. rewrite (trimStart_pad pad _ Hp).
  cbn [append trimStart].
  change (is_space "`") with false. cbv iota.
  rewrite !trimEnd_cons by reflexivity.
  now rewrite (trimEnd_words_append tag rest H).
Qed.

(** What [langMatch] captures, and what stands in for it when it is
    empty. *)
Lemma fence_language_tag (pad tag rest : string) :
  every is_space pad = true ->
  every is_word tag = true ->
  no_word_first rest = true ->
  fence_language (pad ++ "```" ++ tag ++ rest)
  = if truthy tag then tag else "plain text".
Proof.
  intros Hp H Hr. unfold fence_language. rewrite (trim_fence pad tag rest Hp H).
  unfold match_, lang_re. rewrite exec_anchored.
  unfold match_at. cbn -[quant is_word].
  unfold star. cbn -[quant is_word].
  rewrite quant_greedy_run by (intros; discriminate).
  destruct (span_words_append tag (trimEnd rest) H
              (no_word_first_trimEnd rest Hr)) as [-> ->].
  cbn -[String.substring Nat.sub]. unfold group.
  cbn -[String.substring Nat.sub].
  replace (S (S (S (String.length tag))) - 3) with (String.length tag) by lia.
  rewrite substring_append.
  reflexivity.
Qed.

Lemma mapLanguage_normalized (tag : string) :
  inherited (toLowerCase tag) = false ->
  mapLanguage (if truthy tag then tag else "plain text")
  = StringValue (normalized tag).
Proof.
  intros Hproto. destruct tag as [|a tag]; [reflexivity|].
  cbn [truthy]. unfold mapLanguage, map_get, normalized.
  unfold inherited in Hproto. rewrite Hproto.
  destruct (assoc (toLowerCase (String a tag)) language_table) as [v|] eqn:E;
    [|reflexivity].
  now rewrite (table_values_truthy _ _ E).
Qed.

Lemma prefix_lines_empty (line : string) : prefix_lines "" line = line.
Proof.
  unfold prefix_lines.
  replace (map (fun l => "" ++ l) (split_nl line)) with (split_nl line).
  - apply join_split_nl.
  - symmetry. apply map_id.
Qed.

Lemma split_nl_one_line (s : string) :
  every no_line_feed s = true -> split_nl s = [s].
Proof.
  induction s as [|a s IH]; intros H; [reflexivity|].
  simpl in *. apply andb_prop in H. destruct H as [Ha H].
  unfold no_line_feed in Ha. apply negb_true_iff in Ha.
  now rewrite Ha, (IH H).
Qed.

Lemma split_nl_append (a b : string) :
  every no_line_feed a = true ->
  split_nl (a ++ nl ++ b) = a :: split_nl b.
Proof.
  induction a as [|x a IH]; intros H; [reflexivity|].
  simpl in *. apply andb_prop in H. destruct H as [Hx H].
  unfold no_line_feed in Hx. apply negb_true_iff in Hx.
  rewrite Hx. unfold nl in IH. simpl in IH. now rewrite (IH H).
Qed.

Lemma every_append (f : ascii -> bool) (a b : string) :
  every f (a ++ b) = every f a && every f b.
Proof.
  induction a as [|x a IH]; simpl; [reflexivity|].
  now rewrite IH, andb_assoc.
Qed.

Lemma every_repeat (f : ascii -> bool) (s : string) (n : nat) :
  every f s = true -> every f (repeat s n) = true.
Proof.
  intros H. induction n as [|n IH]; simpl; [reflexivity|].
  now rewrite every_append, H, IH.
Qed.

(** Splitting what was joined gives the lines back when none of them has a
    line feed. *)
Lemma split_nl_join (l : string) (ls : list string) :
  forallb (every no_line_feed) (l :: ls) = true ->
  split_nl (join nl (l :: ls)) = l :: ls.
Proof.
  revert l. induction ls as [|l' ls IH]; intros l H.
  - simpl in H. rewrite andb_true_r in H. now apply split_nl_one_line.
  - cbn [forallb] in H. apply andb_prop in H. destruct H as [Hl H].
    change (join nl (l :: l' :: ls)) with (l ++ nl ++ join nl (l' :: ls)).
    rewrite (split_nl_append l _ Hl). now rewrite (IH l' H).
Qed.

Lemma prefix_lines_join (prefix l : string) (ls : list string) :
  forallb (every no_line_feed) (l :: ls) = true ->
  prefix_lines prefix (join nl (l :: ls))
  = join nl (map (fun x => prefix ++ x) (l :: ls)).
Proof. intros H. unfold prefix_lines. now rewrite (split_nl_join l ls H). Qed.

End FenceFacts.

(* ------------------------------------------------------------------ *)
(** ** Facts about matches: what a match tells about its subject *)

Module MatchFacts.
Import Js Regex Markdown Store Vocabulary StringFacts RegexFacts DecodeFacts
  InlineFacts FenceFacts.

(** What a quantifier takes is a run of its class. *)
Lemma quant_text {A : Type} (f : ascii -> bool) (g : bool) (s : string) :
  forall (lo : nat) (hi : option nat) (i : nat)
         (k : nat -> string -> option A) (x : A),
    quant f g lo hi i s k = Some x ->
    exists p s', s = p ++ s' /\ every f p = true
      /\ quant_min lo hi <= String.length p
      /\ k (i + String.length p) s' = Some x.
Proof.
  induction s as [|a s IH]; intros lo hi i k x H.
  - exists "", "".
    destruct hi as [[|h]|], lo as [|lo], g; simpl in H; try discriminate;
      try (destruct (k i "") eqn:E; try discriminate);
      repeat split; simpl; try lia; rewrite ?Nat.add_0_r; congruence.
  - assert (Hk : k i (String a s) = Some x ->
              exists p s', String a s = p ++ s' /\ every f p = true
                /\ 0 <= String.length p
                /\ k (i + String.length p) s' = Some x).
    { intros E. exists "", (String a s). simpl. rewrite Nat.add_0_r.
      repeat split; [lia | exact E]. }
    assert (Hstep : forall lo' hi',
              f a = true ->
              quant f g lo' hi' (S i) s k = Some x ->
              exists p s', String a s = p ++ s' /\ every f p = true
                /\ S (quant_min lo' hi') <= String.length p
                /\ k (i + String.length p) s' = Some x).
    { intros lo' hi' Hf E.
      destruct (IH _ _ _ _ _ E) as (p & s' & E1 & E2 & E3 & E4).
      exists (String a p), s'. simpl. rewrite Hf, E2, E1.
      repeat split; [lia|].
      now replace (i + S (String.length p)) with (S i + String.length p)
        by lia. }
    destruct hi as [[|h]|].
    + simpl in H. destruct (Hk H) as (p & s' & ? & ? & ? & ?).
      exists p, s'. repeat split; try assumption.
      unfold quant_min. rewrite Nat.min_0_r. lia.
    + destruct lo as [|lo]; simpl in H.
      * unfold quant_min, Nat.min.
        destruct g.
        -- destruct (f a) eqn:Hf; [|now apply Hk].
           destruct (quant f true 0 (Some h) (S i) s k) eqn:E.
           ++ inversion H; subst.
              destruct (Hstep _ _ eq_refl E) as (p & s' & ? & ? & ? & ?).
              exists p, s'. repeat split; try assumption. lia.
           ++ now apply Hk.
        -- destruct (k i (String a s)) eqn:E.
           ++ inversion H; subst. now apply Hk.
           ++ destruct (f a) eqn:Hf; [|discriminate].
              destruct (Hstep _ _ eq_refl H) as (p & s' & ? & ? & ? & ?).
              exists p, s'. repeat split; try assumption. lia.
      * destruct (f a) eqn:Hf; [|discriminate].
        destruct (Hstep _ _ eq_refl H) as (p & s' & ? & ? & Hle & ?).
        exists p, s'. repeat split; try assumption.
        all: try (unfold quant_min in *; simpl in Hle; lia).
    + destruct lo as [|lo]; simpl in H.
      * unfold quant_min.
        destruct g.
        -- destruct (f a) eqn:Hf; [|now apply Hk].
           destruct (quant f true 0 None (S i) s k) eqn:E.
           ++ inversion H; subst.
              destruct (Hstep _ _ eq_refl E) as (p & s' & ? & ? & ? & ?).
              exists p, s'. repeat split; try assumption. lia.
           ++ now apply Hk.
        -- destruct (k i (String a s)) eqn:E.
           ++ inversion H; subst. now apply Hk.
           ++ destruct (f a) eqn:Hf; [|discriminate].
              destruct (Hstep _ _ eq_refl H) as (p & s' & ? & ? & ? & ?).
              exists p, s'. repeat split; try assumption. lia.
      * destruct (f a) eqn:Hf; [|discriminate].
        destruct (Hstep _ _ eq_refl H) as (p & s' & ? & ? & Hle & ?).
        exists p, s'. repeat split; try assumption.
        all: try (unfold quant_min in *; simpl in Hle; lia).
Qed.

(** A literal in front of the rest of an expression. *)
Lemma str_inv {A : Type} (lit : string) (r : re) (i : nat) (s : string)
    (c : caps) (k : nat -> string -> caps -> option A) (x : A) :
  rmatch (Str lit +> r) i s c k = Some x ->
  exists s', s = lit ++ s'
    /\ rmatch r (i + String.length lit) s' c k = Some x.
Proof.
  simpl. destruct (strip lit s) as [s'|] eqn:E; [|discriminate].
  intros H. exists s'. split; [now apply strip_inv | exact H].
Qed.

(** A group around a quantifier, in front of the rest of an expression. *)
Lemma grp_quant_inv {A : Type} (n : nat) (g : bool) (lo : nat)
    (hi : option nat) (f : ascii -> bool) (r : re) (i : nat) (s : string)
    (c : caps) (k : nat -> string -> caps -> option A) (x : A) :
  rmatch (Grp n (Quant g lo hi f) +> r) i s c k = Some x ->
  exists p s', s = p ++ s' /\ every f p = true
    /\ quant_min lo hi <= String.length p
    /\ rmatch r (i + String.length p) s' ((n, p) :: c) k = Some x.
Proof.
  simpl. intros H. apply quant_text in H.
  destruct H as (p & s' & E1 & E2 & E3 & E4).
  exists p, s'. repeat split; try assumption.
  subst s. replace (i + String.length p - i) with (String.length p) in E4
    by lia.
  now rewrite substring_append in E4.
Qed.

Lemma alt_inv {A : Type} (r1 r2 : re) (i : nat) (s : string) (c : caps)
    (k : nat -> string -> caps -> option A) (x : A) :
  rmatch (r1 </> r2) i s c k = Some x ->
  rmatch r1 i s c k = Some x \/ rmatch r2 i s c k = Some x.
Proof.
  simpl. destruct (rmatch r1 i s c k); intros H; [left | right]; assumption.
Qed.

Lemma str_end_inv {A : Type} (lit : string) (i : nat) (s : string)
    (c : caps) (k : nat -> string -> caps -> option A) (x : A) :
  rmatch (Str lit) i s c k = Some x ->
  exists s', s = lit ++ s' /\ k (i + String.length lit) s' c = Some x.
Proof.
  simpl. destruct (strip lit s) as [s'|] eqn:E; [|discriminate].
  intros H. exists s'. split; [now apply strip_inv | exact H].
Qed.

Lemma grp_quant_end_inv {A : Type} (n : nat) (g : bool) (lo : nat)
    (hi : option nat) (f : ascii -> bool) (i : nat) (s : string)
    (c : caps) (k : nat -> string -> caps -> option A) (x : A) :
  rmatch (Grp n (Quant g lo hi f)) i s c k = Some x ->
  exists p s', s = p ++ s' /\ every f p = true
    /\ quant_min lo hi <= String.length p
    /\ k (i + String.length p) s' ((n, p) :: c) = Some x.
Proof.
  simpl. intros H. apply quant_text in H.
  destruct H as (p & s' & E1 & E2 & E3 & E4).
  exists p, s'. repeat split; try assumption.
  subst s. replace (i + String.length p - i) with (String.length p) in E4
    by lia.
  now rewrite substring_append in E4.
Qed.

Lemma alt_some {A : Type} (r1 r2 : re) (i : nat) (s : string) (c : caps)
    (k : nat -> string -> caps -> option A) :
  (exists x, rmatch r2 i s c k = Some x) ->
  exists x, rmatch (r1 </> r2) i s c k = Some x.
Proof.
  intros [x H]. simpl. destruct (rmatch r1 i s c k); eauto.
Qed.

Lemma plus_some {A : Type} (f : ascii -> bool) (i : nat) (a : ascii)
    (rest : string) (c : caps) (k : nat -> string -> caps -> option A) :
  f a = true ->
  (forall i' s' c', k i' s' c' <> None) ->
  exists x, rmatch (plus f) i (String a rest) c k = Some x.
Proof.
  intros Hf Hk. unfold plus. cbn [rmatch].
  rewrite quant_plus_cons by exact Hf.
  rewrite quant_greedy_run by (intros; apply Hk).
  destruct (k (S i + String.length (span f rest)) (behind f rest) c) eqn:E;
    [eauto | now apply Hk in E].
Qed.

Lemma marker_or_plain (a : ascii) :
  none_of "[{*`~" a = true \/ one_of "{*`~[" a = true.
Proof.
  destruct a as [[] [] [] [] [] [] [] []]; vm_compute; auto.
Qed.

(** Where there is a character, the inline expression matches. *)
Lemma inline_match_some (i : nat) (a : ascii) (rest : string) :
  exists m, match_at inline_re i (String a rest) = Some m.
Proof.
  unfold match_at, inline_re.
  do 6 apply alt_some.
  change (exists x,
            rmatch (plus (none_of "[{*`~") </> plus (one_of "{*`~[")) i
              (String a rest) []
              (fun e rest' c =>
                 Some (mkResult i e rest'
                         ((9, String.substring 0 (e - i) (String a rest))
                            :: c))) = Some x).
  destruct (marker_or_plain a) as [H|H].
  - destruct (plus_some (none_of "[{*`~") i a rest []
                (fun e rest' c =>
                   Some (mkResult i e rest'
                           ((9, String.substring 0 (e - i) (String a rest))
                              :: c))) H) as [x Hx]; [intros; discriminate|].
    exists x. simpl. simpl in Hx. now rewrite Hx.
  - apply alt_some. apply plus_some; [exact H | intros; discriminate].
Qed.


End MatchFacts.

(* ------------------------------------------------------------------ *)
(** ** Properties *)

Import Js Regex Markdown Store Vocabulary StringFacts RegexFacts DecodeFacts
  InlineFacts FenceFacts MatchFacts.

(** *** Priority of the line patterns *)

(** C3. The line [- [x] done] is decoded as a checked to-do item and the
    line [---] as a divider.  The bullet pattern matches the first line as
    well, so it is the order of the tests that decides; neither the bullet
    nor the numbered pattern matches the second. *)
Theorem priority_resolution :
  markdownToBlocks "- [x] done" = Some [In_to_do [text_input "done"] true]
  /\ match_ bullet_re "- [x] done" <> None
  /\ markdownToBlocks "---" = Some [In_divider]
  /\ match_ bullet_re "---" = None
  /\ match_ numbered_re "---" = None.
Proof.
  repeat split; try (vm_compute; reflexivity).
  vm_compute. discriminate.
Qed.

(** *** The scenario of the spec *)

(** C5. Decoding the scenario gives a heading of level 1, two to-do items,
    the second one checked, and a code block in python; the blank lines
    give nothing. *)
Theorem scenario_decoded :
  markdownToBlocks scenario
  = Some [ In_heading 1 [text_input "Title"];
           In_to_do [text_input "todo1"] false;
           In_to_do [text_input "todo2"] true;
           In_code [text_input "print(1)"] (StringValue "python") ].
Proof. vm_compute. reflexivity. Qed.

(** *** Nesting order of the annotation markers *)

(** C6, as stated, fails: the run with all four annotations and content [t]
    is not encoded as the text the claim gives, which closes with one
    asterisk less than it opens with; and a run without content is encoded
    as the empty text, without markers and without its link. *)
Lemma nesting_order_claimed_text :
  richTextToMarkdown [TextItem "t" all_four None] <> "~~***`t`**~~"
  /\ richTextToMarkdown [TextItem "" bold_only (Some "u")] = "".
Proof. split; [vm_compute; discriminate | reflexivity]. Qed.

(** C6, amended.  A literal run with content is encoded with the code
    marker innermost, then bold, then italic, then strikethrough, and the
    link marker around all of it; with all four annotations that is
    [~~***`t`***~~].  A run without content is encoded as the empty text,
    whatever its annotations and its link. *)
Theorem nesting_order (content : string) (ann : Annotations)
    (link : option string) :
  (content <> "" ->
   richTextToMarkdown [TextItem content ann link]
     = linked link (nested ann content)
   /\ richTextToMarkdown [TextItem content all_four None]
     = "~~***`" ++ content ++ "`***~~"
   /\ (forall url,
         richTextToMarkdown [TextItem content all_four (Some url)]
         = "[~~***`" ++ content ++ "`***~~](" ++ url ++ ")"))
  /\ richTextToMarkdown [TextItem "" ann link] = "".
Proof.
  split; [|reflexivity].
  intros Hne.
  destruct content as [|a content]; [congruence|].
  split; [|split].
  - destruct ann as [[] [] [] []], link; reflexivity.
  - cbn. now rewrite !append_assoc.
  - intros url. cbn. now rewrite !append_assoc.
Qed.

Lemma nesting_order_witness :
  "t" <> ""
  /\ richTextToMarkdown [TextItem "t" all_four (Some "u")]
     = "[~~***`t`***~~](u)"
  /\ richTextToMarkdown [TextItem "" all_four (Some "u")] = "".
Proof.
  split; [discriminate|]. split.
  - apply (proj1 (nesting_order "t" all_four (Some "u"))). discriminate.
  - exact (proj2 (nesting_order "t" all_four (Some "u"))).
Defined.

(** *** Toggles *)

(** A toggle at indent 0: the opening line, the summary, then what its
    children are encoded as at indent 1 and the closing marker when that is
    not empty, and nothing more when the toggle has no children. *)
Lemma toggle_at_root (provider : string -> list BlockObjectResponse)
    (fuel : nat) (block : BlockObjectResponse)
    (rt : list RichTextItemResponse) (children : string) :
  payload block = Toggle rt ->
  (if has_children block
   then blocksToMarkdown provider fuel (provider (id block)) 1
   else Some "") = Some children ->
  blockToMarkdown provider (S fuel) block 0
  = Some (if truthy children
          then "<details>" ++ nl ++ "<summary>" ++ richTextToMarkdown rt
                 ++ "</summary>" ++ nl ++ children ++ nl ++ "</details>"
          else "<details>" ++ nl ++ "<summary>" ++ richTextToMarkdown rt
                 ++ "</summary>").
Proof.
  intros Hp Hc. cbn [blockToMarkdown].
  unfold own_line, recurses, is_toggle. rewrite Hp.
  rewrite andb_true_r. cbn [Nat.add repeat].
  unfold blocksToMarkdown in Hc. rewrite Hc.
  rewrite prefix_lines_empty. cbn [andb append].
  destruct (truthy children); [|reflexivity].
  unfold nl. cbn [append]. rewrite !append_assoc. reflexivity.
Qed.

(** A toggle at any indent, with a summary of one line: the opening line
    behind the prefix, the summary behind the prefix twice, then what the
    children are encoded as one level down and the closing marker when that
    is not empty. *)
Lemma toggle_lines (provider : string -> list BlockObjectResponse)
    (fuel indent : nat) (block : BlockObjectResponse)
    (rt : list RichTextItemResponse) (children : string) :
  payload block = Toggle rt ->
  every no_line_feed (richTextToMarkdown rt) = true ->
  (if has_children block
   then blocksToMarkdown provider fuel (provider (id block)) (indent + 1)
   else Some "") = Some children ->
  blockToMarkdown provider (S fuel) block indent
  = Some ((repeat "  " indent ++ "<details>") ++ nl
          ++ (repeat "  " indent ++ repeat "  " indent ++ "<summary>"
                ++ richTextToMarkdown rt ++ "</summary>")
          ++ (if truthy children
              then nl ++ children ++ nl ++ repeat "  " indent ++ "</details>"
              else "")).
Proof.
  intros Hp Hone Hc. cbn [blockToMarkdown].
  unfold own_line, recurses, is_toggle. rewrite Hp.
  rewrite andb_true_r. unfold blocksToMarkdown in Hc. rewrite Hc.
  unfold prefix_lines.
  rewrite (split_nl_append "<details>") by reflexivity.
  rewrite split_nl_one_line.
  - cbn [map join andb].
    destruct (truthy children).
    + rewrite !append_assoc. reflexivity.
    + now rewrite append_nil_r, !append_assoc.
  - rewrite !every_append, Hone.
    rewrite (every_repeat no_line_feed "  " indent) by reflexivity.
    reflexivity.
Qed.

(** C7.  At indent 0 the toggle of the spec's scenario is encoded as the
    opening line, the summary, the two paragraphs two spaces in, and the
    closing marker.  One level down, below a bulleted item, the summary line
    gets the prefix twice: it starts with four spaces, as many as the
    paragraphs below it, which are therefore not indented more than it. *)
Theorem toggle_indentation :
  blockToMarkdown tree 2 toggle 0
  = Some (join nl [ "<details>"; "<summary>S</summary>"; "  p1"; "  p2";
                    "</details>" ])
  /\ blockToMarkdown tree 3 item 0
  = Some (join nl [ "- B"; "  <details>"; "    <summary>S</summary>";
                    "    p1"; "    p2"; "  </details>" ])
  /\ indentation "    <summary>S</summary>" = indentation "    p1".
Proof. repeat split. Qed.

(** *** Language of a fence *)

(** C8, as stated, fails for a tag with a character that is no word
    character, of which only the word characters in front are kept, and for
    a tag that names a member of [Object.prototype], for which that member
    is stored. *)
Lemma language_of_other_tags :
  markdownToBlocks "```c++" = Some [In_code [text_input ""] (StringValue "c")]
  /\ markdownToBlocks "```constructor"
     = Some [In_code [text_input ""] (InheritedMember "constructor")]
  /\ mapLanguage "__proto__" = InheritedMember "__proto__".
Proof. repeat split. Qed.

(** C8, amended.  A line that opens a fence, with any white space in front
    and anything that does not start with a word character behind the run
    [tag] of word characters, gives a code block with the language of the
    alias table for [tag] in lower case when there is one (so for the empty
    tag), and else [tag] in lower case, as long as that is not a name that
    objects inherit. *)
Theorem language_normalization (lines : list string) (i : nat)
    (pad tag rest : string) :
  every is_space pad = true ->
  every is_word tag = true ->
  no_word_first rest = true ->
  inherited (toLowerCase tag) = false ->
  loop_body lines i (pad ++ "```" ++ tag ++ rest)
  = Some (S i + List.length (code_lines (skipn (S i) lines)) + 1,
          [In_code [text_input (join nl (code_lines (skipn (S i) lines)))]
             (StringValue (normalized tag))])
  /\ normalized "" = "plain text"
  /\ map normalized ["js"; "ts"; "py"; "rb"; "sh"; "yml"; "md"]
     = ["javascript"; "typescript"; "python"; "ruby"; "bash"; "yaml";
        "markdown"]
  /\ (assoc (toLowerCase tag) language_table = None ->
      normalized tag = toLowerCase tag).
Proof.
  intros Hp Hw Hr Hproto. split; [|repeat split].
  - assert (Hfence : is_fence (pad ++ "```" ++ tag ++ rest) = true).
    { unfold is_fence. now rewrite (trim_fence pad tag rest Hp Hw). }
    unfold loop_body.
    rewrite (fence_not_blank _ Hfence), Hfence.
    rewrite (fence_language_tag pad tag rest Hp Hw Hr).
    now rewrite (mapLanguage_normalized tag Hproto).
  - intros E. unfold normalized. now rewrite E.
Qed.

Lemma language_normalization_witness :
  loop_body ["  ```PY title"; "x"] 0 "  ```PY title"
  = Some (3, [In_code [text_input "x"] (StringValue "python")]).
Proof.
  exact (proj1 (language_normalization ["  ```PY title"; "x"] 0
                  "  " "PY" " title" eq_refl eq_refl eq_refl eq_refl)).
Defined.

(** *** Encoding twice *)

(** On the sample documents the second encoding is the first one, white
    space apart; on the fence without a tag it is not. *)
Lemma reencode_samples :
  forallb reencodes_alike samples = true
  /\ reencodes_alike unlabelled_fence = false.
Proof. split; vm_compute; reflexivity. Qed.

(** C1.  The block decoded from a fence without a tag has the language
    [plain text]; it is encoded with that language behind the fence, of
    which the decoder reads the first word only, so that the second
    encoding differs from the first by more than white space. *)
Theorem reencode_unlabelled_fence :
  decode unlabelled_fence
    = Some [In_code [text_input "x"] (StringValue "plain text")]
  /\ bind (decode unlabelled_fence) encode
    = Some ("```plain text" ++ nl ++ "x" ++ nl ++ "```")
  /\ decode ("```plain text" ++ nl ++ "x" ++ nl ++ "```")
    = Some [In_code [text_input "x"] (StringValue "plain")]
  /\ bind (decode ("```plain text" ++ nl ++ "x" ++ nl ++ "```")) encode
    = Some ("```plain" ++ nl ++ "x" ++ nl ++ "```")
  /\ without_space ("```plain text" ++ nl ++ "x" ++ nl ++ "```")
     <> without_space ("```plain" ++ nl ++ "x" ++ nl ++ "```").
Proof. repeat split. vm_compute. discriminate. Qed.

(** *** Tables *)

Lemma table_lines_data (i : nat) (rows : list BlockObjectResponse) :
  forallb is_table_row rows = true ->
  table_lines (S i) rows = map (fun row => table_line (row_cells row)) rows.
Proof.
  revert i. induction rows as [|row rows IH]; intros i Hall; [reflexivity|].
  simpl in Hall. apply andb_prop in Hall. destruct Hall as [Hrow Hall].
  unfold is_table_row in Hrow. unfold row_cells at 1. simpl.
  destruct (payload row); try discriminate.
  simpl. now rewrite IH.
Qed.

Lemma separator_cells {X : Type} (cells : list X) :
  map (fun _ => "---") cells = List.repeat "---" (List.length cells).
Proof. induction cells as [|x cells IH]; simpl; [reflexivity | now rewrite IH]. Qed.

Lemma blockToMarkdown_table (provider : string -> list BlockObjectResponse)
    (fuel indent : nat) (table : BlockObjectResponse) :
  payload table = Table ->
  blockToMarkdown provider (S fuel) table indent
  = Some (prefix_lines (repeat "  " indent)
            (join nl (table_lines 0 (provider (id table))))).
Proof.
  intros Htable. cbn [blockToMarkdown].
  unfold own_line, recurses, is_toggle. rewrite Htable.
  now rewrite andb_false_r.
Qed.

(** C9, as stated, fails for a table with a line feed in a cell: the text
    of the row is written as it is, so the header row with the one cell [a],
    line feed, [b] takes two lines, the line behind the first is not the
    separator line, and the two rows and the separator take four lines. *)
Lemma table_cell_line_feed :
  option_map split_nl
    (blockToMarkdown
       (fun _ => [ mkBlock "r1" false (Table_row [text ("a" ++ nl ++ "b")]);
                   mkBlock "r2" false (Table_row [text "c"]) ])
       1 (mkBlock "t" true Table) 0)
  = Some ["| a"; "b |"; "| --- |"; "| c |"]
  /\ nth_error ["| a"; "b |"; "| --- |"; "| c |"] 1 <> Some "| --- |".
Proof. split; [reflexivity | discriminate]. Qed.

(** C9, amended.  A table whose fetched children are the rows
    [first :: rest] is encoded, at any indent and with fuel for one level
    only, as the text of the first row, one separator with as many [---]
    cells as the first row has cells, and the texts of the other rows in
    order, joined by line feeds; when no cell has a line feed these are the
    lines of the result, each behind the prefix.  The provider is asked for
    the children of the table alone: nothing of the result depends on the
    flags or the children of the rows. *)
Theorem table_encoding (provider : string -> list BlockObjectResponse)
    (fuel indent : nat) (table first : BlockObjectResponse)
    (rest : list BlockObjectResponse) :
  payload table = Table ->
  provider (id table) = first :: rest ->
  forallb is_table_row (first :: rest) = true ->
  blockToMarkdown provider (S fuel) table indent
  = Some (prefix_lines (repeat "  " indent) (join nl (table_text first rest)))
  /\ (forallb (every no_line_feed) (table_text first rest) = true ->
      blockToMarkdown provider (S fuel) table indent
      = Some (join nl (map (fun l => repeat "  " indent ++ l)
                         (table_text first rest)))).
Proof.
  intros Htable Hrows Hall.
  simpl in Hall. apply andb_prop in Hall. destruct Hall as [Hfirst Hrest].
  assert (Hlines : table_lines 0 (first :: rest) = table_text first rest).
  { unfold is_table_row in Hfirst. unfold table_text, row_cells at 1 2.
    cbn [table_lines].
    destruct (payload first); try discriminate.
    cbn [Nat.eqb app].
    now rewrite (table_lines_data 0 rest Hrest), separator_cells, length_map. }
  rewrite (blockToMarkdown_table provider fuel indent table Htable), Hrows.
  rewrite Hlines. split; [reflexivity|].
  intros Hone. unfold table_text in *. now rewrite prefix_lines_join.
Qed.

Lemma table_encoding_witness :
  blockToMarkdown
    (fun _ => [ mkBlock "r1" true (Table_row [text "a"; text "b"]);
                mkBlock "r2" true (Table_row [text "c"; text "d"]) ])
    1 (mkBlock "t" true Table) 1
  = Some (join nl ["  | a | b |"; "  | --- | --- |"; "  | c | d |"]).
Proof.
  exact (proj2
           (table_encoding
              (fun _ => [ mkBlock "r1" true (Table_row [text "a"; text "b"]);
                          mkBlock "r2" true (Table_row [text "c"; text "d"]) ])
              0 1 (mkBlock "t" true Table)
              (mkBlock "r1" true (Table_row [text "a"; text "b"]))
              [mkBlock "r2" true (Table_row [text "c"; text "d"])]
              eq_refl eq_refl eq_refl)
           eq_refl).
Defined.

(** *** Unclosed fences *)

(** C2.  When the loop comes to a line that opens a fence and no line behind
    it closes one, [markdownToBlocks] returns, and its last block is a code
    block whose content is all the lines behind the opening one, joined by
    line feeds. *)
Theorem fence_balance (markdown : string) (i : nat)
    (blocks : list BlockInput) (opening : string) :
  reaches (split_nl markdown) i blocks ->
  nth_error (split_nl markdown) i = Some opening ->
  is_fence opening = true ->
  forallb (fun l => negb (is_fence l)) (skipn (S i) (split_nl markdown))
    = true ->
  markdownToBlocks markdown
  = Some (blocks ++
            [In_code [text_input (join nl (skipn (S i) (split_nl markdown)))]
               (mapLanguage (fence_language opening))])%list.
Proof.
  intros Hreach Hopen Hfence Htail.
  unfold markdownToBlocks.
  set (lines := split_nl markdown) in *.
  assert (Hi : i < List.length lines) by (apply nth_error_Some; congruence).
  destruct (reaches_turns lines i blocks Hreach) as (n & Hn & Hrun).
  replace (S (List.length lines)) with (n + S (S (List.length lines - n - 1)))
    by lia.
  rewrite Hrun.
  cbn [decode_loop]. rewrite Hopen.
  unfold loop_body.
  rewrite (fence_not_blank opening Hfence), Hfence.
  rewrite (code_lines_all _ Htail).
  replace (nth_error lines (S i + List.length (skipn (S i) lines) + 1))
    with (@None string); [reflexivity|].
  symmetry. apply nth_error_None. rewrite length_skipn. lia.
Qed.

Lemma fence_balance_witness :
  markdownToBlocks ("# a" ++ nl ++ "  ```js" ++ nl ++ "x" ++ nl ++ nl ++ "- y")
  = Some [ In_heading 1 [text_input "a"];
           In_code [text_input ("x" ++ nl ++ nl ++ "- y")]
             (StringValue "javascript") ].
Proof.
  apply (fence_balance
           ("# a" ++ nl ++ "  ```js" ++ nl ++ "x" ++ nl ++ nl ++ "- y")
           1 ([] ++ [In_heading 1 [text_input "a"]]) "  ```js").
  - apply (reaches_turn _ 0 [] "# a" 1 [In_heading 1 [text_input "a"]]).
    + apply reaches_start.
    + reflexivity.
    + reflexivity.
  - reflexivity.
  - reflexivity.
  - reflexivity.
Defined.

(** *** Indented lines *)




(** *** Bold through the span codec *)




(* ------------------------------------------------------------------ *)
(** ** Further properties of the codec and of the tools *)

Import Tools Shapes.

(** *** Inversion of the matcher *)

Lemma without_space_append (a b : string) :
  without_space (a ++ b) = without_space a ++ without_space b.
Proof.
  induction a as [|x a IH]; simpl; [reflexivity|].
  destruct (is_space x); simpl; now rewrite IH.
Qed.

Lemma without_space_trimStart (s : string) :
  without_space (trimStart s) = without_space s.
Proof.
  induction s as [|a s IH]; simpl; [reflexivity|].
  destruct (is_space a) eqn:E; [exact IH|]. simpl. now rewrite E.
Qed.

Lemma without_space_trimEnd (s : string) :
  without_space (trimEnd s) = without_space s.
Proof.
  induction s as [|a s IH]; simpl; [reflexivity|].
  destruct (trimEnd s) as [|b t] eqn:E.
  - rewrite <- IH. destruct (is_space a) eqn:Ea; simpl; now rewrite ?Ea.
  - rewrite <- IH. cbn [without_space]. reflexivity.
Qed.

Lemma without_space_trim (s : string) :
  without_space (trim s) = without_space s.
Proof.
  unfold trim. now rewrite without_space_trimEnd, without_space_trimStart.
Qed.

Lemma every_append_inv (f : ascii -> bool) (a b : string) :
  every f (a ++ b) = true -> every f a = true /\ every f b = true.
Proof. rewrite every_append. apply andb_prop. Qed.

Lemma length_pos_truthy (p : string) : 1 <= String.length p -> truthy p = true.
Proof. destruct p; simpl; [lia | reflexivity]. Qed.

Lemma grp_str_inv {A : Type} (n : nat) (a b : string) (r : re) (i : nat)
    (s : string) (c : caps) (k : nat -> string -> caps -> option A) (x : A) :
  rmatch (Grp n (Str a </> Str b) +> r) i s c k = Some x ->
  exists w s', (w = a \/ w = b) /\ s = w ++ s'
    /\ rmatch r (i + String.length w) s' ((n, w) :: c) k = Some x.
Proof.
  simpl.
  destruct (strip a s) as [s1|] eqn:Ea.
  - apply strip_inv in Ea. subst s.
    replace (i + String.length a - i) with (String.length a) by lia.
    rewrite substring_append.
    destruct (rmatch r (i + String.length a) s1 ((n, a) :: c) k) eqn:E.
    + intros H. inversion H; subst. exists a, s1. auto.
    + destruct (strip b (a ++ s1)) as [s2|] eqn:Eb; [|discriminate].
      apply strip_inv in Eb. rewrite Eb.
      replace (i + String.length b - i) with (String.length b) by lia.
      rewrite substring_append. intros H. exists b, s2. auto.
  - destruct (strip b s) as [s2|] eqn:Eb; [|discriminate].
    apply strip_inv in Eb. subst s.
    replace (i + String.length b - i) with (String.length b) by lia.
    rewrite substring_append. intros H. exists b, s2. auto.
Qed.

Ltac finish_match H :=
  inversion H; subst; clear H; cbn [m_rest m_end m_caps].

(** The text a match of the inline expression takes, and what the runs
    pushed for it are encoded as: that text, with the white space around the
    identifier of a mention taken off. *)
Lemma inline_match_text (i : nat) (s : string) (m : result) :
  match_at inline_re i s = Some m ->
  exists matched,
    s = matched ++ m_rest m
    /\ m_end m = i + String.length matched
    /\ 1 <= String.length matched
    /\ without_space (rendered (m_caps m)) = without_space matched
    /\ (every no_brace matched = true -> rendered (m_caps m) = matched).
Proof.
  unfold match_at, inline_re. intros H.
  apply alt_inv in H. destruct H as [H|H].
  { (* mention *)
    apply str_inv in H. destruct H as (s1 & -> & H).
    apply grp_str_inv in H. destruct H as (w & s2 & Hw & -> & H).
    apply str_inv in H. destruct H as (s3 & -> & H).
    apply grp_quant_inv in H. destruct H as (p & s4 & -> & Hp & Hlen & H).
    apply str_end_inv in H. destruct H as (s5 & -> & H).
    finish_match H.
    exists ("{{" ++ w ++ ":" ++ p ++ "}}").
    repeat split.
    - now rewrite !append_assoc.
    - rewrite !length_append. simpl. lia.
    - simpl. lia.
    - unfold rendered. destruct Hw as [-> | ->]; cbn;
        rewrite !without_space_append, without_space_trim; reflexivity.
    - intros Hb. discriminate Hb. }
  apply alt_inv in H. destruct H as [H|H].
  { (* link *)
    apply str_inv in H. destruct H as (s1 & -> & H).
    apply grp_quant_inv in H. destruct H as (t & s2 & -> & Ht & Hlt & H).
    apply str_inv in H. destruct H as (s3 & -> & H).
    apply grp_quant_inv in H. destruct H as (u & s4 & -> & Hu & Hlu & H).
    apply str_end_inv in H. destruct H as (s5 & -> & H).
    finish_match H.
    exists ("[" ++ t ++ "](" ++ u ++ ")").
    assert (Hr : rendered [(4, u); (3, t)] = "[" ++ t ++ "](" ++ u ++ ")").
    { unfold rendered. cbn. destruct t; [simpl in Hlt; lia | reflexivity]. }
    repeat split.
    - now rewrite !append_assoc.
    - rewrite !length_append. simpl. lia.
    - simpl. lia.
    - now rewrite Hr.
    - intros _. exact Hr. }
  apply alt_inv in H. destruct H as [H|H].
  { (* bold *)
    apply str_inv in H. destruct H as (s1 & -> & H).
    apply grp_quant_inv in H. destruct H as (t & s2 & -> & Ht & Hlt & H).
    apply str_end_inv in H. destruct H as (s3 & -> & H).
    finish_match H.
    exists ("**" ++ t ++ "**").
    assert (Hr : rendered [(5, t)] = "**" ++ t ++ "**").
    { unfold rendered. cbn. destruct t; [simpl in Hlt; lia | reflexivity]. }
    repeat split.
    - now rewrite !append_assoc.
    - rewrite !length_append. simpl. lia.
    - simpl. lia.
    - now rewrite Hr.
    - intros _. exact Hr. }
  apply alt_inv in H. destruct H as [H|H].
  { (* italic *)
    apply str_inv in H. destruct H as (s1 & -> & H).
    apply grp_quant_inv in H. destruct H as (t & s2 & -> & Ht & Hlt & H).
    apply str_end_inv in H. destruct H as (s3 & -> & H).
    finish_match H.
    exists ("*" ++ t ++ "*").
    assert (Hr : rendered [(6, t)] = "*" ++ t ++ "*").
    { unfold rendered. cbn. destruct t; [simpl in Hlt; lia | reflexivity]. }
    repeat split.
    - now rewrite !append_assoc.
    - rewrite !length_append. simpl. lia.
    - simpl. lia.
    - now rewrite Hr.
    - intros _. exact Hr. }
  apply alt_inv in H. destruct H as [H|H].
  { (* code *)
    apply str_inv in H. destruct H as (s1 & -> & H).
    apply grp_quant_inv in H. destruct H as (t & s2 & -> & Ht & Hlt & H).
    apply str_end_inv in H. destruct H as (s3 & -> & H).
    finish_match H.
    exists ("`" ++ t ++ "`").
    assert (Hr : rendered [(7, t)] = "`" ++ t ++ "`").
    { unfold rendered. cbn. destruct t; [simpl in Hlt; lia | reflexivity]. }
    repeat split.
    - now rewrite !append_assoc.
    - rewrite !length_append. simpl. lia.
    - simpl. lia.
    - now rewrite Hr.
    - intros _. exact Hr. }
  apply alt_inv in H. destruct H as [H|H].
  { (* strikethrough *)
    apply str_inv in H. destruct H as (s1 & -> & H).
    apply grp_quant_inv in H. destruct H as (t & s2 & -> & Ht & Hlt & H).
    apply str_end_inv in H. destruct H as (s3 & -> & H).
    finish_match H.
    exists ("~~" ++ t ++ "~~").
    assert (Hr : rendered [(8, t)] = "~~" ++ t ++ "~~").
    { unfold rendered. cbn. destruct t; [simpl in Hlt; lia | reflexivity]. }
    repeat split.
    - now rewrite !append_assoc.
    - rewrite !length_append. simpl. lia.
    - simpl. lia.
    - now rewrite Hr.
    - intros _. exact Hr. }
  (* a plain run, or a run of marker characters *)
  change (rmatch (Grp 9 (plus (none_of "[{*`~") </> plus (one_of "{*`~[")))
            i s [] (fun e rest c => Some (mkResult i e rest c)) = Some m)
    with (rmatch (plus (none_of "[{*`~") </> plus (one_of "{*`~[")) i s []
            (fun e rest c =>
               Some (mkResult i e rest
                       ((9, String.substring 0 (e - i) s) :: c))) = Some m)
    in H.
  assert (Hrun : exists t s', s = t ++ s' /\ 1 <= String.length t
                   /\ m = mkResult i (i + String.length t) s' [(9, t)]).
  { apply alt_inv in H. destruct H as [H|H]; simpl in H;
      apply quant_text in H;
      destruct H as (t & s' & -> & Ht & Hlt & H);
      exists t, s'; (split; [reflexivity|]); (split; [exact Hlt|]);
      replace (i + String.length t - i) with (String.length t) in H by lia;
      rewrite substring_append in H; now inversion H. }
  destruct Hrun as (t & s' & -> & Hlt & ->). cbn [m_rest m_end m_caps].
  exists t.
  assert (Hr : rendered [(9, t)] = t).
  { unfold rendered. cbn. destruct t; [simpl in Hlt; lia | reflexivity]. }
  repeat split; try assumption; now rewrite ?Hr.
Qed.

(** *** The inline parser and the rich text encoder *)

Lemma join_empty_app (l1 l2 : list string) :
  join "" (l1 ++ l2) = join "" l1 ++ join "" l2.
Proof.
  induction l1 as [|x l1 IH]; [reflexivity|].
  destruct l1 as [|y l1].
  - simpl. destruct l2; simpl; [now rewrite append_nil_r | reflexivity].
  - change (join "" ((x :: y :: l1) ++ l2))
      with (x ++ "" ++ join "" ((y :: l1) ++ l2)).
    rewrite IH. simpl. now rewrite append_assoc.
Qed.

Lemma richTextToMarkdown_app (a b : list RichTextItemResponse) :
  richTextToMarkdown (a ++ b) = richTextToMarkdown a ++ richTextToMarkdown b.
Proof. unfold richTextToMarkdown. now rewrite map_app, join_empty_app. Qed.

Lemma reencoded_app (a b : list RichTextInput) :
  reencoded (a ++ b) = reencoded a ++ reencoded b.
Proof. unfold reencoded. now rewrite map_app, richTextToMarkdown_app. Qed.

Lemma inline_loop_text (fuel : nat) :
  forall (i : nat) (s : string) (items r : list RichTextInput),
    inline_loop fuel i s items = Some r ->
    without_space (reencoded r)
    = without_space (reencoded items) ++ without_space s
    /\ (every no_brace s = true -> reencoded r = reencoded items ++ s).
Proof.
  induction fuel as [|fuel IH]; intros i s items r H; [discriminate|].
  rewrite inline_loop_S in H.
  destruct s as [|a rest].
  - rewrite exec_inline_empty in H. inversion H; subst.
    simpl. rewrite !append_nil_r. auto.
  - destruct (inline_match_some i a rest) as [m Hm].
    cbn [exec] in H. rewrite Hm in H.
    destruct (inline_match_text _ _ _ Hm)
      as (matched & Hs & He & Hlen & Hws & Hex).
    destruct (m_end m <=? i) eqn:Hle; [discriminate|].
    apply IH in H. destruct H as [H1 H2].
    rewrite reencoded_app in H1, H2.
    fold (rendered (m_caps m)) in H1, H2.
    change (reencoded (item_of (m_caps m))) with (rendered (m_caps m))
      in H1, H2.
    rewrite Hs. split.
    + rewrite H1, !without_space_append, Hws. now rewrite append_assoc.
    + intros Hb. apply every_append_inv in Hb. destruct Hb as [Hb1 Hb2].
      rewrite (H2 Hb2), (Hex Hb1). now rewrite append_assoc.
Qed.

(** X1. Decoding an inline text and encoding the runs gives the text back:
    up to white space in every case, and exactly when the text has no
    opening brace. *)
Theorem inline_round_trip (text : string) :
  exists items,
    parseInlineMarkdown text = Some items
    /\ without_space (richTextToMarkdown (map stored_run items))
       = without_space text
    /\ (every no_brace text = true ->
        richTextToMarkdown (map stored_run items) = text).
Proof.
  unfold parseInlineMarkdown.
  destruct (inline_loop_total (S (String.length text)) 0 text [])
    as [r Hr]; [lia|].
  rewrite Hr. apply inline_loop_text in Hr. destruct Hr as [H1 H2].
  destruct r as [|x r].
  - destruct (0 <? String.length text) eqn:E.
    + exists [text_input text]. split; [reflexivity|].
      assert (Ht : richTextToMarkdown (map stored_run [text_input text])
                   = text).
      { destruct text; [discriminate | reflexivity]. }
      rewrite Ht. auto.
    + exists []. split; [reflexivity|]. exact (conj H1 H2).
  - exists (x :: r). split; [reflexivity|]. exact (conj H1 H2).
Qed.

Lemma inline_round_trip_witness :
  every no_brace "a **b**" = true
  /\ exists items,
       parseInlineMarkdown "a **b**" = Some items
       /\ richTextToMarkdown (map stored_run items) = "a **b**".
Proof.
  split; [reflexivity|].
  destruct (inline_round_trip "a **b**") as (items & H1 & _ & H3).
  exists items. split; [exact H1 | apply H3; reflexivity].
Defined.

Lemma alt_skip {A : Type} (r1 r2 : re) (i : nat) (s : string) (c : caps)
    (k : nat -> string -> caps -> option A) :
  rmatch r1 i s c k = None ->
  rmatch (r1 </> r2) i s c k = rmatch r2 i s c k.
Proof. intros H. simpl. now rewrite H. Qed.

(** A literal does not match where the subject starts with a character
    that is none of the set its first character is in. *)
Lemma str_first_fail {A : Type} (set : string) (x : ascii) (lit : string)
    (r : re) (i : nat) (a : ascii) (rest : string) (c : caps)
    (k : nat -> string -> caps -> option A) :
  one_of set x = true ->
  none_of set a = true ->
  rmatch (Str (String x lit) +> r) i (String a rest) c k = None.
Proof.
  intros Hx Ha. cbn [rmatch strip].
  destruct (Ascii.eqb x a) eqn:E; [|reflexivity].
  apply Ascii.eqb_eq in E. subst a.
  unfold none_of in Ha. rewrite Hx in Ha. discriminate.
Qed.

Lemma every_span (f : ascii -> bool) (s : string) :
  every f s = true -> span f s = s /\ behind f s = "".
Proof.
  induction s as [|a s IH]; intros H; [split; reflexivity|].
  simpl in *. apply andb_prop in H. destruct H as [Ha H].
  rewrite Ha. destruct (IH H) as [-> ->]. split; reflexivity.
Qed.

(** At a plain character the inline expression matches by its last
    alternative, and takes the whole run of plain characters. *)
Lemma plain_first_match (a : ascii) (rest : string) (i : nat) :
  plain_chars a = true ->
  match_at inline_re i (String a rest)
  = Some (mkResult i (S i + String.length (span plain_chars rest))
            (behind plain_chars rest)
            [(9, String a (span plain_chars rest))]).
Proof.
  intros H. unfold match_at, inline_re, plain_chars in *.
  do 6 (rewrite alt_skip
          by (apply (str_first_fail "[{*`~"); [reflexivity | exact H])).
  cbn [rmatch plus].
  rewrite quant_plus_cons by exact H.
  rewrite quant_greedy_run by (intros; discriminate).
  replace (S i + String.length (span (none_of "[{*`~") rest) - i)
    with (S (String.length (span (none_of "[{*`~") rest))) by lia.
  cbn [String.substring]. now rewrite substring_span.
Qed.

(** What [plain_text_one_run] below states, as the later proofs use it. *)
Lemma plain_text_one_run_fact (text : string) :
  text <> "" ->
  every plain_chars text = true ->
  parseInlineMarkdown text = Some [text_input text].
Proof.
  intros Hne Hall. destruct text as [|a rest]; [congruence|].
  simpl in Hall. apply andb_prop in Hall. destruct Hall as [Ha Hrest].
  unfold parseInlineMarkdown. cbn [String.length].
  rewrite inline_loop_S. cbn [exec].
  rewrite (plain_first_match a rest 0 Ha).
  destruct (every_span plain_chars rest Hrest) as [-> ->].
  cbn [m_end m_rest m_caps Nat.leb Nat.add app].
  destruct (String.length rest); reflexivity.
Qed.

(** X2. A text without marker characters is one plain run. *)
Theorem plain_text_one_run (text : string) :
  text <> "" ->
  every plain_chars text = true ->
  parseInlineMarkdown text = Some [text_input text].
Proof. exact (plain_text_one_run_fact text). Qed.

Lemma plain_text_one_run_witness :
  "a b" <> "" /\ every plain_chars "a b" = true
  /\ parseInlineMarkdown "a b" = Some [text_input "a b"].
Proof.
  split; [discriminate|]. split; [reflexivity|].
  apply (plain_text_one_run "a b"); [discriminate | reflexivity].
Defined.

(** *** Code blocks *)

Lemma split_nl_app (a b : string) :
  split_nl (a ++ nl ++ b) = (split_nl a ++ split_nl b)%list.
Proof.
  induction a as [|x a IH]; [reflexivity|].
  change (String x a ++ nl ++ b) with (String x (a ++ nl ++ b)).
  cbn [split_nl]. rewrite IH. destruct (Ascii.eqb x "010"); [reflexivity|].
  pose proof (split_nl_not_nil a) as Hne.
  destruct (split_nl a); [congruence | reflexivity].
Qed.

Lemma code_lines_until (ls : list string) (closing : string)
    (rest : list string) :
  forallb (fun l => negb (is_fence l)) ls = true ->
  is_fence closing = true ->
  code_lines (ls ++ closing :: rest) = ls.
Proof.
  intros Hls Hc. induction ls as [|l ls IH]; simpl.
  - now rewrite Hc.
  - simpl in Hls. apply andb_prop in Hls. destruct Hls as [Hl Hls].
    destruct (is_fence l); [discriminate|]. now rewrite (IH Hls).
Qed.


(** What [code_round_trip] below states, as the later proofs use it. *)
Lemma code_round_trip_fact (provider : string -> list BlockObjectResponse)
    (block_id : string) (rt : list RichTextItemResponse) (lang : string) :
  every is_word lang = true ->
  normalized lang = lang ->
  inherited (toLowerCase lang) = false ->
  fence_free (richTextToMarkdown rt) = true ->
  blocksToMarkdown provider 1 [mkBlock block_id false (Code rt lang)] 0
  = Some ("```" ++ lang ++ nl ++ richTextToMarkdown rt ++ nl ++ "```")
  /\ markdownToBlocks
       ("```" ++ lang ++ nl ++ richTextToMarkdown rt ++ nl ++ "```")
     = Some [In_code [text_input (richTextToMarkdown rt)] (StringValue lang)].
Proof.
  intros Hw Hnorm Hproto Hfree. split.
  - unfold blocksToMarkdown. cbn [mapM blockToMarkdown payload own_line].
    unfold recurses. cbn [has_children andb repeat option_map].
    rewrite prefix_lines_empty.
    cbn [is_toggle payload andb truthy join option_map].
    destruct lang as [|a lang]; [discriminate Hnorm|]. reflexivity.
  - set (content := richTextToMarkdown rt) in *.
    unfold markdownToBlocks.
    assert (Hsplit : split_nl ("```" ++ lang ++ nl ++ content ++ nl ++ "```")
                     = ("```" ++ lang) :: split_nl content ++ ["```"]).
    { replace ("```" ++ lang ++ nl ++ content ++ nl ++ "```")
        with (("```" ++ lang) ++ nl ++ (content ++ nl ++ "```"))
        by now rewrite !append_assoc.
      rewrite split_nl_append.
      - now rewrite split_nl_app.
      - cbn [append every]. change (no_line_feed "`") with true.
        cbn [andb]. clear -Hw. induction lang as [|a lang IH];
          [reflexivity|]. simpl in *. apply andb_prop in Hw.
        destruct Hw as [Ha Hw]. rewrite (IH Hw), andb_true_r.
        unfold no_line_feed.
        destruct a as [[] [] [] [] [] [] [] []]; try reflexivity;
          vm_compute in Ha; discriminate Ha. }
    rewrite Hsplit. cbn [List.length decode_loop nth_error].
    pose proof (trim_fence "" lang "" eq_refl Hw) as Htrim.
    pose proof (fence_language_tag "" lang "" eq_refl Hw eq_refl) as Hlang.
    cbn [append] in Htrim, Hlang. rewrite append_nil_r in Htrim, Hlang.
    cbn [trimEnd] in Htrim. rewrite append_nil_r in Htrim.
    assert (Hfence : is_fence ("```" ++ lang) = true).
    { unfold is_fence. cbn [append]. now rewrite Htrim. }
    unfold loop_body at 1. cbn [append] in *.
    rewrite (fence_not_blank _ Hfence), Hfence, Hlang.
    rewrite (mapLanguage_normalized lang Hproto), Hnorm.
    cbn [skipn].
    rewrite (code_lines_until (split_nl content) "```" [] Hfree eq_refl).
    rewrite join_split_nl.
    replace (nth_error _ _) with (@None string).
    + reflexivity.
    + symmetry. apply nth_error_None. cbn [List.length].
      rewrite length_app. simpl. lia.
Qed.


(** X3. A code block without children, at indent 0, whose language is a run
    of word characters that the alias table leaves as it is and that is no
    name of an inherited member, and whose rich text is encoded to a text
    without a fence line, is encoded as the opening fence with the language,
    that text and the closing fence; and this is decoded to one code block
    in the same language whose content is one plain run with that text,
    line for line: the markers of an annotated run are then part of the
    content. *)
Theorem code_round_trip (provider : string -> list BlockObjectResponse)
    (block_id : string) (rt : list RichTextItemResponse) (lang : string) :
  every is_word lang = true ->
  normalized lang = lang ->
  inherited (toLowerCase lang) = false ->
  fence_free (richTextToMarkdown rt) = true ->
  blocksToMarkdown provider 1 [mkBlock block_id false (Code rt lang)] 0
  = Some ("```" ++ lang ++ nl ++ richTextToMarkdown rt ++ nl ++ "```")
  /\ markdownToBlocks
       ("```" ++ lang ++ nl ++ richTextToMarkdown rt ++ nl ++ "```")
     = Some [In_code [text_input (richTextToMarkdown rt)] (StringValue lang)].
Proof. exact (code_round_trip_fact provider block_id rt lang). Qed.

Lemma code_round_trip_witness :
  every is_word "python" = true
  /\ normalized "python" = "python"
  /\ inherited (toLowerCase "python") = false
  /\ fence_free
       (richTextToMarkdown
          [ TextItem ("x = 1" ++ nl) no_annotations None;
            TextItem "y" bold_only None ]) = true
  /\ blocksToMarkdown (fun _ => []) 1
       [mkBlock "b1" false
          (Code [ TextItem ("x = 1" ++ nl) no_annotations None;
                  TextItem "y" bold_only None ]
             "python")] 0
     = Some ("```python" ++ nl ++ "x = 1" ++ nl ++ "**y**" ++ nl ++ "```")
  /\ markdownToBlocks
       ("```python" ++ nl ++ "x = 1" ++ nl ++ "**y**" ++ nl ++ "```")
     = Some [In_code [text_input ("x = 1" ++ nl ++ "**y**")]
               (StringValue "python")].
Proof.
  split; [reflexivity|]. split; [reflexivity|]. split; [reflexivity|].
  split; [reflexivity|].
  apply (code_round_trip (fun _ => []) "b1"
           [ TextItem ("x = 1" ++ nl) no_annotations None;
             TextItem "y" bold_only None ] "python");
    reflexivity.
Defined.

(** *** The line patterns *)

(** Inside [lo] and [hi], a greedy quantifier takes the whole run of its
    class when what follows matches behind it. *)
Lemma quant_greedy_max {A : Type} (f : ascii -> bool) (s : string)
    (k : nat -> string -> option A) (x : A) :
  stops f s = true ->
  forall (p : string) (lo : nat) (hi : option nat) (i : nat),
    every f p = true ->
    lo <= String.length p ->
    match hi with Some h => String.length p <= h | None => True end ->
    k (i + String.length p) s = Some x ->
    quant f true lo hi i (p ++ s) k = Some x.
Proof.
  intros Hs. induction p as [|a p IH]; intros lo hi i Hp Hlo Hhi Hk.
  - simpl in *. rewrite Nat.add_0_r in Hk.
    assert (lo = 0) by lia. subst lo.
    destruct s as [|b s]; destruct hi as [[|h]|]; simpl; rewrite ?Hk;
      try reflexivity.
    + simpl in Hs. apply negb_true_iff in Hs. now rewrite Hs.
    + simpl in Hs. apply negb_true_iff in Hs. now rewrite Hs.
  - simpl in Hp. apply andb_prop in Hp. destruct Hp as [Ha Hp].
    assert (Hrec : forall lo',
              lo' <= String.length p ->
              quant f true lo' (option_map pred hi) (S i) (p ++ s) k
              = Some x).
    { intros lo' Hlo'. apply IH; try assumption.
      - destruct hi as [h|]; simpl in *; [lia | exact I].
      - now replace (S i + String.length p)
          with (i + String.length (String a p)) by (simpl; lia). }
    destruct hi as [[|h]|]; [simpl in Hhi; lia | |].
    + destruct lo as [|lo]; cbn [append quant]; rewrite Ha.
      * now rewrite (Hrec 0) by lia.
      * apply Hrec. simpl in Hlo. lia.
    + destruct lo as [|lo]; cbn [append quant]; rewrite Ha.
      * now rewrite (Hrec 0) by lia.
      * apply Hrec. simpl in Hlo. lia.
Qed.

(** A quantifier fails when what follows fails behind every run of its
    class. *)
Lemma quant_none {A : Type} (f : ascii -> bool) (g : bool) (lo : nat)
    (hi : option nat) (i : nat) (s : string)
    (k : nat -> string -> option A) :
  (forall p s', s = p ++ s' -> every f p = true ->
                k (i + String.length p) s' = None) ->
  quant f g lo hi i s k = None.
Proof.
  intros Hk. destruct (quant f g lo hi i s k) eqn:E; [|reflexivity].
  apply quant_text in E. destruct E as (p & s' & E1 & E2 & _ & E4).
  rewrite (Hk p s' E1 E2) in E4. discriminate.
Qed.

Lemma every_repeat_char (f : ascii -> bool) (a : ascii) (n : nat) :
  f a = true -> every f (repeat (String a "") n) = true.
Proof. intros H. apply every_repeat. simpl. now rewrite H. Qed.

Lemma length_repeat_char (a : ascii) (n : nat) :
  String.length (repeat (String a "") n) = n.
Proof. induction n as [|n IH]; simpl; [reflexivity | now rewrite IH]. Qed.

Lemma substring_all (s : string) :
  String.substring 0 (String.length s) s = s.
Proof.
  rewrite <- (append_nil_r s) at 2. rewrite substring_append. reflexivity.
Qed.

Lemma stops_text (f : ascii -> bool) (text tail : string) :
  text <> "" -> stops f text = true -> stops f (text ++ tail) = true.
Proof. destruct text; [congruence | trivial]. Qed.

(** The heading expression on one to three hashes, white space, a text that
    starts with no white space and has no line terminator, and behind it
    nothing or what starts with a line terminator. *)
Lemma heading_match (level : nat) (pad text tail : string) :
  1 <= level <= 3 ->
  pad <> "" -> every is_space pad = true ->
  text <> "" -> every dot text = true -> stops is_space text = true ->
  stops dot tail = true ->
  match_ heading_re (repeat "#" level ++ pad ++ text ++ tail)
  = Some [(2, text); (1, repeat "#" level)].
Proof.
  intros Hlevel Hpad Hsp Htext Hdot Hstop Htail.
  unfold match_, heading_re. rewrite exec_anchored.
  enough (H : match_at
                (Bos +> Grp 1 (Quant true 1 (Some 3) (one_of "#"))
                     +> plus is_space +> Grp 2 (plus dot))
                0 (repeat "#" level ++ pad ++ text ++ tail)
              = Some (mkResult 0
                        (level + String.length pad + String.length text) tail
                        [(2, text); (1, repeat "#" level)]))
    by now rewrite H.
  unfold match_at. cbn [rmatch Nat.eqb plus].
  apply quant_greedy_max.
  - destruct pad as [|a pad]; [congruence|]. simpl in *.
    apply andb_prop in Hsp. destruct Hsp as [Ha _].
    destruct a as [[] [] [] [] [] [] [] []]; try reflexivity;
      vm_compute in Ha; discriminate Ha.
  - now apply every_repeat_char.
  - rewrite length_repeat_char. lia.
  - rewrite length_repeat_char. lia.
  - apply quant_greedy_max; try assumption.
    + now apply stops_text.
    + destruct pad; [congruence | simpl; lia].
    + exact I.
    + apply quant_greedy_max; try assumption; try reflexivity.
      * destruct text; [congruence | simpl; lia].
      * rewrite length_repeat_char. cbn [Nat.add].
        replace (level + String.length pad + String.length text
                 - (level + String.length pad))
          with (String.length text) by lia.
        rewrite substring_append.
        replace (level - 0) with (String.length (repeat "#" level))
          by (rewrite length_repeat_char; lia).
        rewrite substring_append. reflexivity.
Qed.

(** A quantifier takes no more than its upper bound. *)
Lemma quant_text_hi {A : Type} (f : ascii -> bool) (g : bool) (s : string) :
  forall (lo h : nat) (i : nat) (k : nat -> string -> option A) (x : A),
    quant f g lo (Some h) i s k = Some x ->
    exists p s', s = p ++ s' /\ every f p = true
      /\ String.length p <= h /\ k (i + String.length p) s' = Some x.
Proof.
  induction s as [|a s IH]; intros lo h i k x H.
  - exists "", "".
    destruct h as [|h], lo as [|lo], g; simpl in H; try discriminate;
      try (destruct (k i "") eqn:E; try discriminate);
      repeat split; simpl; try lia; rewrite ?Nat.add_0_r; congruence.
  - assert (Hk : k i (String a s) = Some x ->
              exists p s', String a s = p ++ s' /\ every f p = true
                /\ String.length p <= h
                /\ k (i + String.length p) s' = Some x).
    { intros E. exists "", (String a s). simpl. rewrite Nat.add_0_r.
      repeat split; [lia | exact E]. }
    destruct h as [|h]; [simpl in H; now apply Hk|].
    assert (Hstep : forall lo',
              f a = true ->
              quant f g lo' (Some h) (S i) s k = Some x ->
              exists p s', String a s = p ++ s' /\ every f p = true
                /\ String.length p <= S h
                /\ k (i + String.length p) s' = Some x).
    { intros lo' Hf E.
      destruct (IH _ _ _ _ _ E) as (p & s' & E1 & E2 & E3 & E4).
      exists (String a p), s'. simpl. rewrite Hf, E2, E1.
      repeat split; [lia|].
      now replace (i + S (String.length p)) with (S i + String.length p)
        by lia. }
    destruct lo as [|lo]; simpl in H.
    + destruct g.
      * destruct (f a) eqn:Hf; [|now apply Hk].
        destruct (quant f true 0 (Some h) (S i) s k) eqn:E.
        -- inversion H; subst. now apply (Hstep 0).
        -- now apply Hk.
      * destruct (k i (String a s)) eqn:E.
        -- inversion H; subst. now apply Hk.
        -- destruct (f a) eqn:Hf; [|discriminate]. now apply (Hstep 0).
    + destruct (f a) eqn:Hf; [|discriminate]. now apply (Hstep lo).
Qed.

Lemma trim_cons (a : ascii) (s : string) :
  is_space a = false -> trim (String a s) = String a (trimEnd s).
Proof.
  intros H. unfold trim. cbn [trimStart]. rewrite H.
  now apply trimEnd_cons.
Qed.

(** Splitting a run of one character and a rest that goes on with another
    character: a prefix in the class of that character lies in the run. *)
Lemma run_prefix (f : ascii -> bool) (c : ascii) (n : nat)
    (rest p s' : string) :
  (forall a, f a = true -> a = c) ->
  stops f rest = true ->
  repeat (String c "") n ++ rest = p ++ s' ->
  every f p = true ->
  exists m, m <= n /\ p = repeat (String c "") m
            /\ s' = repeat (String c "") (n - m) ++ rest.
Proof.
  intros Hf Hrest. revert p. induction n as [|n IH]; intros p E Hp.
  - simpl in E. destruct p as [|a p].
    + exists 0. simpl in *. auto.
    + simpl in Hp. apply andb_prop in Hp. destruct Hp as [Ha _].
      simpl in E. subst rest. simpl in Hrest. rewrite Ha in Hrest.
      discriminate.
  - destruct p as [|a p].
    + exists 0. simpl in *. rewrite <- E. auto with arith.
    + cbn [repeat append] in E. injection E as Ea E'. subst a.
      simpl in Hp. apply andb_prop in Hp. destruct Hp as [_ Hp].
      destruct (IH p E' Hp) as (m & Hm & -> & ->).
      exists (S m). repeat split; try reflexivity. lia.
Qed.

Lemma one_of_hash (a : ascii) : one_of "#" a = true -> a = "#"%char.
Proof.
  simpl. rewrite orb_false_r. apply Ascii.eqb_eq.
Qed.

(** The heading expression does not match four hashes or more, nor hashes
    with no white space behind them. *)
Lemma heading_none (level : nat) (rest : string) :
  stops (one_of "#") rest = true ->
  4 <= level \/ stops is_space rest = true ->
  match_ heading_re (repeat "#" level ++ rest) = None.
Proof.
  intros Hrest Hcase. unfold match_, heading_re. rewrite exec_anchored.
  unfold match_at. cbn [rmatch Nat.eqb plus].
  match goal with
  | |- option_map _ ?q = None => destruct q eqn:E; [|reflexivity]
  end.
  exfalso. apply quant_text_hi in E.
  destruct E as (p & s' & E1 & E2 & E3 & E4).
  destruct (run_prefix _ _ _ _ _ _ one_of_hash Hrest E1 E2)
    as (m & Hm & -> & ->).
  rewrite length_repeat_char in E3, E4.
  destruct (level - m) as [|d] eqn:Hd.
  - assert (Hs : stops is_space rest = true) by (destruct Hcase; [lia | auto]).
    cbn [repeat append] in E4.
    destruct rest as [|b rest]; [discriminate E4|].
    simpl in Hs. apply negb_true_iff in Hs. simpl in E4. rewrite Hs in E4.
    discriminate.
  - cbn [repeat append] in E4. simpl in E4. discriminate.
Qed.

(** A line that starts with a hash is matched by none of the patterns
    behind the heading pattern. *)
Lemma hash_line_others (s : string) :
  String.eqb (trim (String "#" s)) "" = false
  /\ is_fence (String "#" s) = false
  /\ match_ todo_re (String "#" s) = None
  /\ match_ bullet_re (String "#" s) = None
  /\ match_ numbered_re (String "#" s) = None
  /\ match_ quote_re (String "#" s) = None
  /\ test divider_re (trim (String "#" s)) = false
  /\ match_ bookmark_re (trim (String "#" s)) = None
  /\ match_ embed_re (trim (String "#" s)) = None
  /\ match_ image_re (String "#" s) = None.
Proof.
  unfold is_fence, test, match_, todo_re, bullet_re, numbered_re, quote_re,
    divider_re, bookmark_re, embed_re, image_re.
  rewrite (trim_cons "#" s eq_refl), !exec_anchored.
  repeat split.
Qed.

(** What [heading_levels] below states, as the later proofs use it. *)
Lemma heading_levels_fact (lines : list string) (i level : nat)
    (pad text tail rest : string) :
  1 <= level ->
  (level <= 3 ->
   pad <> "" -> every is_space pad = true ->
   text <> "" -> every dot text = true -> stops is_space text = true ->
   stops dot tail = true ->
   loop_body lines i (repeat "#" level ++ pad ++ text ++ tail)
   = option_map (fun rt => (S i, [In_heading level rt]))
       (parseInlineMarkdown text))
  /\ (stops (one_of "#") rest = true ->
      4 <= level \/ stops is_space rest = true ->
      loop_body lines i (repeat "#" level ++ rest)
      = option_map (fun rt => (S i, [In_paragraph rt]))
          (parseInlineMarkdown (repeat "#" level ++ rest))).
Proof.
  intros Hlevel.
  destruct level as [|level]; [lia|]. cbn [repeat append].
  split.
  - intros H3 Hpad Hsp Htext Hdot Hstop Htail.
    destruct (hash_line_others (repeat "#" level ++ pad ++ text ++ tail))
      as (Hb & Hf & _).
    unfold loop_body, classify. rewrite Hb, Hf.
    change (String "#" (repeat "#" level ++ pad ++ text ++ tail))
      with (repeat "#" (S level) ++ pad ++ text ++ tail).
    rewrite (heading_match (S level) pad text tail) by (assumption || lia).
    unfold group. cbn [cap Nat.eqb].
    rewrite length_repeat_char.
    destruct (parseInlineMarkdown text); reflexivity.
  - intros Hrest Hcase.
    destruct (hash_line_others (repeat "#" level ++ rest))
      as (Hb & Hf & H1 & H2 & H3 & H4 & H5 & H6 & H7 & H8).
    unfold loop_body, classify. rewrite Hb, Hf, H1, H2, H3, H4, H5, H6, H7, H8.
    change (String "#" (repeat "#" level ++ rest))
      with (repeat "#" (S level) ++ rest).
    rewrite (heading_none (S level) rest Hrest Hcase).
    destruct (parseInlineMarkdown (repeat "#" (S level) ++ rest));
      reflexivity.
Qed.


(** X4. Heading levels. One to three hashes, white space, a text that is
    not empty, starts with no white space and has no line terminator, and
    behind it nothing or what starts with a line terminator, make a heading
    of the level that is the number of hashes, with the text parsed inline;
    what stands from the line terminator on is dropped.  Four hashes or
    more, or hashes with no white space behind them, make a paragraph with
    the whole line, hashes included, parsed inline. *)
Theorem heading_levels (lines : list string) (i level : nat)
    (pad text tail rest : string) :
  1 <= level ->
  (level <= 3 ->
   pad <> "" -> every is_space pad = true ->
   text <> "" -> every dot text = true -> stops is_space text = true ->
   stops dot tail = true ->
   loop_body lines i (repeat "#" level ++ pad ++ text ++ tail)
   = option_map (fun rt => (S i, [In_heading level rt]))
       (parseInlineMarkdown text))
  /\ (stops (one_of "#") rest = true ->
      4 <= level \/ stops is_space rest = true ->
      loop_body lines i (repeat "#" level ++ rest)
      = option_map (fun rt => (S i, [In_paragraph rt]))
          (parseInlineMarkdown (repeat "#" level ++ rest))).
Proof. exact (heading_levels_fact lines i level pad text tail rest). Qed.

Lemma heading_levels_witness :
  (1 <= 2 /\ 2 <= 3 /\ " " <> "" /\ every is_space " " = true /\ "a" <> ""
   /\ every dot "a" = true /\ stops is_space "a" = true
   /\ stops dot (cr ++ "b") = true
   /\ loop_body [] 0 (repeat "#" 2 ++ " " ++ "a" ++ cr ++ "b")
      = option_map (fun rt => (1, [In_heading 2 rt]))
          (parseInlineMarkdown "a"))
  /\ (1 <= 4 /\ stops (one_of "#") " a" = true
      /\ (4 <= 4 \/ stops is_space " a" = true)
      /\ loop_body [] 0 (repeat "#" 4 ++ " a")
         = option_map (fun rt => (1, [In_paragraph rt]))
             (parseInlineMarkdown (repeat "#" 4 ++ " a"))).
Proof.
  split.
  - split; [lia|]. split; [lia|]. split; [discriminate|].
    split; [reflexivity|]. split; [discriminate|]. split; [reflexivity|].
    split; [reflexivity|]. split; [reflexivity|].
    apply (proj1 (heading_levels [] 0 2 " " "a" (cr ++ "b") "" ltac:(lia)));
      try reflexivity; try discriminate; lia.
  - split; [lia|]. split; [reflexivity|]. split; [left; lia|].
    apply (proj2 (heading_levels [] 0 4 "" "" "" " a" ltac:(lia)));
      [reflexivity | left; lia].
Defined.

(** Where a run of a class ends and the text behind it goes on with
    another character, what is behind a shorter run of the class is the end
    of the run and that text. *)
Lemma split_run (f : ascii -> bool) (pad text p s' : string) :
  every f pad = true ->
  stops f text = true ->
  every f p = true ->
  pad ++ text = p ++ s' ->
  exists q, s' = q ++ text /\ every f q = true.
Proof.
  intros Hpad Htext. revert p. induction pad as [|a pad IH]; intros p Hp E.
  - simpl in E. destruct p as [|b p].
    + exists "". simpl in *. auto.
    + simpl in Hp. apply andb_prop in Hp. destruct Hp as [Hb _].
      simpl in E. subst text. simpl in Htext. rewrite Hb in Htext.
      discriminate.
  - simpl in Hpad. apply andb_prop in Hpad. destruct Hpad as [Ha Hpad].
    destruct p as [|b p].
    + exists (String a pad). simpl in *. rewrite Ha, Hpad. auto.
    + simpl in E. injection E as _ E. simpl in Hp.
      apply andb_prop in Hp. destruct Hp as [_ Hp].
      exact (IH Hpad p Hp E).
Qed.

(** A run and a text behind it start with a character of the run, or as
    the text does. *)
Lemma stops_run (g f : ascii -> bool) (q text : string) :
  every f q = true ->
  (forall a, f a = true -> g a = false) ->
  stops g text = true ->
  stops g (q ++ text) = true.
Proof.
  intros Hq Hfg Ht. destruct q as [|a q]; [exact Ht|].
  simpl in *. apply andb_prop in Hq. destruct Hq as [Ha _].
  now rewrite (Hfg a Ha).
Qed.

Lemma strip_stops (c : ascii) (lit s : string) :
  stops (Ascii.eqb c) s = true -> strip (String c lit) s = None.
Proof.
  destruct s as [|a s]; [reflexivity|]. simpl.
  intros H. apply negb_true_iff in H. now rewrite H.
Qed.

Lemma space_not_bracket (a : ascii) :
  is_space a = true -> Ascii.eqb "[" a = false.
Proof.
  destruct a as [[] [] [] [] [] [] [] []]; intros H; try reflexivity;
    vm_compute in H; discriminate H.
Qed.

(** The to-do expression does not match a marker, white space and a text
    that starts with no opening bracket. *)
Lemma todo_none (m pad text : string) :
  marker m ->
  every is_space pad = true ->
  stops is_space text = true ->
  stops (Ascii.eqb "[") text = true ->
  match_ todo_re (m ++ pad ++ text) = None.
Proof.
  intros Hm Hpad Hs Hb. unfold match_, todo_re. rewrite exec_anchored.
  unfold match_at.
  destruct Hm as [-> | ->];
    cbn [append rmatch Nat.eqb plus one_of orb Ascii.eqb Bool.eqb].
  all: match goal with
       | |- option_map _ ?q = None => destruct q eqn:E; [|reflexivity]
       end.
  all: exfalso; apply quant_text in E;
    destruct E as (p & s' & E1 & E2 & _ & E4);
    destruct (split_run _ _ _ _ _ Hpad Hs E2 E1) as (q & -> & Hq);
    rewrite (strip_stops "[" "" (q ++ text)) in E4;
    [discriminate | apply (stops_run _ is_space); auto using space_not_bracket].
Qed.

(** The bullet expression on a marker, white space, a text and what is
    behind the text. *)
Lemma bullet_match (m pad text tail : string) :
  marker m ->
  pad <> "" -> every is_space pad = true ->
  every dot text = true -> stops is_space (text ++ tail) = true ->
  stops dot tail = true ->
  match_ bullet_re (m ++ pad ++ text ++ tail) = Some [(1, text)].
Proof.
  intros Hm Hne Hpad Hdot Hs Htail. unfold match_, bullet_re.
  rewrite exec_anchored.
  enough (H : match_at
                (Bos +> Cls (one_of "-*") +> plus is_space
                     +> Grp 1 (star dot))
                0 (m ++ pad ++ text ++ tail)
              = Some (mkResult 0
                        (1 + String.length pad + String.length text) tail
                        [(1, text)]))
    by now rewrite H.
  unfold match_at.
  destruct Hm as [-> | ->];
    cbn [append rmatch Nat.eqb plus star one_of orb Ascii.eqb Bool.eqb].
  all: apply quant_greedy_max; try assumption;
    [destruct pad; [congruence | simpl; lia] | exact I |].
  all: apply quant_greedy_max; try assumption; try reflexivity; try lia.
  all: replace (1 + String.length pad + String.length text
                - (1 + String.length pad))
         with (String.length text) by lia;
    now rewrite substring_append.
Qed.

(** A line that starts with a list marker is not blank, opens no fence and
    is no heading. *)
Lemma marker_line_head (m s : string) :
  marker m ->
  String.eqb (trim (m ++ s)) "" = false
  /\ is_fence (m ++ s) = false
  /\ match_ heading_re (m ++ s) = None.
Proof.
  intros [-> | ->]; cbn [append]; unfold is_fence, match_, heading_re;
    rewrite trim_cons by reflexivity; rewrite exec_anchored; repeat split.
Qed.

Lemma substring_len (n : nat) (s : string) :
  n = String.length s -> String.substring 0 n s = s.
Proof. intros ->. apply substring_all. Qed.

(** The to-do expression on a marker, white space, a box, white space, a
    text and what is behind the text. *)
Lemma todo_match (m pad1 box pad2 text tail : string) :
  marker m ->
  pad1 <> "" -> every is_space pad1 = true ->
  box = " " \/ box = "x" \/ box = "X" ->
  pad2 <> "" -> every is_space pad2 = true ->
  every dot text = true -> stops is_space (text ++ tail) = true ->
  stops dot tail = true ->
  match_ todo_re (m ++ pad1 ++ "[" ++ box ++ "]" ++ pad2 ++ text ++ tail)
  = Some [(2, text); (1, box)].
Proof.
  intros Hm Hne1 Hpad1 Hbox Hne2 Hpad2 Hdot Hs Htail. unfold match_, todo_re.
  rewrite exec_anchored.
  enough (H : match_at
                (Bos +> Cls (one_of "-*") +> plus is_space +> Str "["
                     +> Grp 1 (Cls (one_of " xX")) +> Str "]"
                     +> plus is_space +> Grp 2 (star dot))
                0 (m ++ pad1 ++ "[" ++ box ++ "]" ++ pad2 ++ text ++ tail)
              = Some (mkResult 0
                        (1 + String.length pad1 + 1 + 1 + 1
                         + String.length pad2 + String.length text) tail
                        [(2, text); (1, box)]))
    by now rewrite H.
  unfold match_at.
  destruct Hm as [-> | ->];
    cbn [append rmatch Nat.eqb plus star one_of orb Ascii.eqb Bool.eqb].
  all: apply quant_greedy_max; try assumption;
    [reflexivity | destruct pad1; [congruence | simpl; lia] | exact I |].
  all: destruct Hbox as [-> | [-> | ->]];
    cbn [append strip rmatch one_of orb Ascii.eqb Bool.eqb].
  all: apply quant_greedy_max; try assumption;
    [destruct pad2; [congruence | simpl; lia] | exact I |].
  all: apply quant_greedy_max; try assumption; try reflexivity; try lia.
  all: replace (S (1 + String.length pad1 + String.length "[")
                - (1 + String.length pad1 + String.length "["))
         with 1 by lia;
    cbn [String.substring String.length].
  all: match goal with
       | |- context [String.substring 0 ?n (?t ++ _)] =>
           replace n with (String.length t) by lia
       end; rewrite substring_append.
  all: repeat first [lia | progress f_equal].
Qed.

(** What [bullet_line] below states, as the later proofs use it. *)
Lemma bullet_line_fact (lines : list string) (i : nat)
    (m pad text tail : string) :
  marker m ->
  pad <> "" -> every is_space pad = true ->
  every dot text = true -> stops dot tail = true ->
  stops is_space (text ++ tail) = true ->
  stops (Ascii.eqb "[") (text ++ tail) = true ->
  loop_body lines i (m ++ pad ++ text ++ tail)
  = option_map (fun rt => (S i, [In_bulleted_list_item rt]))
      (parseInlineMarkdown text).
Proof.
  intros Hm Hne Hpad Hdot Htail Hs Hb.
  destruct (marker_line_head m (pad ++ text ++ tail) Hm) as (H1 & H2 & H3).
  unfold loop_body, classify.
  rewrite H1, H2, H3, (todo_none m pad (text ++ tail) Hm Hpad Hs Hb).
  rewrite (bullet_match m pad text tail Hm Hne Hpad Hdot Hs Htail).
  unfold group. cbn [cap Nat.eqb].
  destruct (parseInlineMarkdown text); reflexivity.
Qed.


(** X5. A marker [-] or [*], white space, a text without line terminator,
    and behind it nothing or what starts with a line terminator, where what
    follows the white space starts with no white space and no opening
    bracket, make a bulleted item with the text parsed inline; what stands
    from the line terminator on is dropped, and the loop goes on with the
    next line. *)
Theorem bullet_line (lines : list string) (i : nat)
    (m pad text tail : string) :
  marker m ->
  pad <> "" -> every is_space pad = true ->
  every dot text = true -> stops dot tail = true ->
  stops is_space (text ++ tail) = true ->
  stops (Ascii.eqb "[") (text ++ tail) = true ->
  loop_body lines i (m ++ pad ++ text ++ tail)
  = option_map (fun rt => (S i, [In_bulleted_list_item rt]))
      (parseInlineMarkdown text).
Proof. exact (bullet_line_fact lines i m pad text tail). Qed.

Lemma bullet_line_witness :
  marker "*" /\ "  " <> "" /\ every is_space "  " = true
  /\ every dot "item" = true /\ stops dot cr = true
  /\ stops is_space ("item" ++ cr) = true
  /\ stops (Ascii.eqb "[") ("item" ++ cr) = true
  /\ loop_body [] 0 ("*" ++ "  " ++ "item" ++ cr)
     = option_map (fun rt => (1, [In_bulleted_list_item rt]))
         (parseInlineMarkdown "item").
Proof.
  split; [right; reflexivity|]. split; [discriminate|].
  split; [reflexivity|]. split; [reflexivity|]. split; [reflexivity|].
  split; [reflexivity|]. split; [reflexivity|].
  apply (bullet_line [] 0 "*" "  " "item" cr);
    try reflexivity; try discriminate. right; reflexivity.
Defined.

(** What [todo_line] below states, as the later proofs use it. *)
Lemma todo_line_fact (lines : list string) (i : nat)
    (m pad1 box pad2 text tail : string) :
  marker m ->
  pad1 <> "" -> every is_space pad1 = true ->
  box = " " \/ box = "x" \/ box = "X" ->
  pad2 <> "" -> every is_space pad2 = true ->
  every dot text = true -> stops dot tail = true ->
  stops is_space (text ++ tail) = true ->
  loop_body lines i (m ++ pad1 ++ "[" ++ box ++ "]" ++ pad2 ++ text ++ tail)
  = option_map
      (fun rt => (S i, [In_to_do rt (negb (String.eqb box " "))]))
      (parseInlineMarkdown text).
Proof.
  intros Hm Hne1 Hpad1 Hbox Hne2 Hpad2 Hdot Htail Hs.
  destruct (marker_line_head m
              (pad1 ++ "[" ++ box ++ "]" ++ pad2 ++ text ++ tail) Hm)
    as (H1 & H2 & H3).
  unfold loop_body, classify. rewrite H1, H2, H3.
  rewrite (todo_match m pad1 box pad2 text tail) by assumption.
  unfold group. cbn [cap Nat.eqb].
  destruct Hbox as [-> | [-> | ->]];
    destruct (parseInlineMarkdown text); reflexivity.
Qed.


(** X6. A marker [-] or [*], white space, a box that holds a space, [x] or
    [X], white space, a text without line terminator, and behind it nothing
    or what starts with a line terminator, where what follows the white
    space behind the box starts with no white space, make a to-do item with
    the text parsed inline, checked unless the box holds a space; what
    stands from the line terminator on is dropped. *)
Theorem todo_line (lines : list string) (i : nat)
    (m pad1 box pad2 text tail : string) :
  marker m ->
  pad1 <> "" -> every is_space pad1 = true ->
  box = " " \/ box = "x" \/ box = "X" ->
  pad2 <> "" -> every is_space pad2 = true ->
  every dot text = true -> stops dot tail = true ->
  stops is_space (text ++ tail) = true ->
  loop_body lines i (m ++ pad1 ++ "[" ++ box ++ "]" ++ pad2 ++ text ++ tail)
  = option_map
      (fun rt => (S i, [In_to_do rt (negb (String.eqb box " "))]))
      (parseInlineMarkdown text).
Proof. exact (todo_line_fact lines i m pad1 box pad2 text tail). Qed.

Lemma todo_line_witness :
  marker "-" /\ " " <> "" /\ every is_space " " = true
  /\ ("X" = " " \/ "X" = "x" \/ "X" = "X")
  /\ " " <> "" /\ every is_space " " = true
  /\ every dot "item" = true /\ stops dot cr = true
  /\ stops is_space ("item" ++ cr) = true
  /\ loop_body [] 0 ("-" ++ " " ++ "[" ++ "X" ++ "]" ++ " " ++ "item" ++ cr)
     = option_map
         (fun rt => (1, [In_to_do rt (negb (String.eqb "X" " "))]))
         (parseInlineMarkdown "item").
Proof.
  split; [left; reflexivity|]. split; [discriminate|].
  split; [reflexivity|]. split; [right; right; reflexivity|].
  split; [discriminate|]. split; [reflexivity|]. split; [reflexivity|].
  split; [reflexivity|]. split; [reflexivity|].
  apply (todo_line [] 0 "-" " " "X" " " "item" cr);
    try reflexivity; try discriminate;
    [left; reflexivity | right; right; reflexivity].
Defined.

Ltac digit_cases d H :=
  destruct d as [[] [] [] [] [] [] [] []];
  try (vm_compute in H; discriminate H); clear H.

(** A line that starts with a digit is not blank, opens no fence and is no
    heading, to-do item or bulleted item. *)
Lemma digit_line_head (d : ascii) (s : string) :
  is_digit d = true ->
  String.eqb (trim (String d s)) "" = false
  /\ is_fence (String d s) = false
  /\ match_ heading_re (String d s) = None
  /\ match_ todo_re (String d s) = None
  /\ match_ bullet_re (String d s) = None.
Proof.
  intros H. unfold is_fence, match_, heading_re, todo_re, bullet_re.
  rewrite !exec_anchored.
  digit_cases d H; rewrite trim_cons by reflexivity; repeat split.
Qed.

(** The numbered expression on digits, a full stop, white space, a text
    and what is behind the text. *)
Lemma numbered_match (digits pad text tail : string) :
  digits <> "" -> every is_digit digits = true ->
  pad <> "" -> every is_space pad = true ->
  every dot text = true -> stops is_space (text ++ tail) = true ->
  stops dot tail = true ->
  match_ numbered_re (digits ++ "." ++ pad ++ text ++ tail) = Some [(1, text)].
Proof.
  intros Hd Hdig Hne Hpad Hdot Hs Htail. unfold match_, numbered_re.
  rewrite exec_anchored.
  enough (H : match_at
                (Bos +> plus is_digit +> Str "." +> plus is_space
                     +> Grp 1 (star dot))
                0 (digits ++ "." ++ pad ++ text ++ tail)
              = Some (mkResult 0
                        (String.length digits + 1 + String.length pad
                         + String.length text) tail
                        [(1, text)]))
    by now rewrite H.
  unfold match_at. cbn [rmatch Nat.eqb plus star].
  apply quant_greedy_max; try assumption;
    [reflexivity | destruct digits; [congruence | simpl; lia] | exact I |].
  cbn [append strip Ascii.eqb Bool.eqb String.length].
  apply quant_greedy_max; try assumption;
    [destruct pad; [congruence | simpl; lia] | exact I |].
  apply quant_greedy_max; try assumption; try reflexivity; try lia.
  match goal with
  | |- context [String.substring 0 ?n (?t ++ _)] =>
      replace n with (String.length t) by lia
  end. rewrite substring_append.
  repeat first [lia | progress f_equal].
Qed.

(** What [numbered_line] below states, as the later proofs use it. *)
Lemma numbered_line_fact (lines : list string) (i : nat)
    (digits pad text tail : string) :
  digits <> "" -> every is_digit digits = true ->
  pad <> "" -> every is_space pad = true ->
  every dot text = true -> stops dot tail = true ->
  stops is_space (text ++ tail) = true ->
  loop_body lines i (digits ++ "." ++ pad ++ text ++ tail)
  = option_map (fun rt => (S i, [In_numbered_list_item rt]))
      (parseInlineMarkdown text).
Proof.
  intros Hd Hdig Hne Hpad Hdot Htail Hs.
  pose proof (numbered_match digits pad text tail Hd Hdig Hne Hpad Hdot Hs
                Htail) as Hm.
  destruct digits as [|d digits]; [congruence|].
  simpl in Hdig. apply andb_prop in Hdig. destruct Hdig as [Hd1 _].
  destruct (digit_line_head d (digits ++ "." ++ pad ++ text ++ tail) Hd1)
    as (H1 & H2 & H3 & H4 & H5).
  cbn [append] in *.
  unfold loop_body, classify. rewrite H1, H2, H3, H4, H5, Hm.
  unfold group. cbn [cap Nat.eqb].
  destruct (parseInlineMarkdown text); reflexivity.
Qed.


(** X7. Digits, a full stop, white space, a text without line terminator,
    and behind it nothing or what starts with a line terminator, where what
    follows the white space starts with no white space, make a numbered
    item with the text parsed inline; the number is not kept, and what
    stands from the line terminator on is dropped. *)
Theorem numbered_line (lines : list string) (i : nat)
    (digits pad text tail : string) :
  digits <> "" -> every is_digit digits = true ->
  pad <> "" -> every is_space pad = true ->
  every dot text = true -> stops dot tail = true ->
  stops is_space (text ++ tail) = true ->
  loop_body lines i (digits ++ "." ++ pad ++ text ++ tail)
  = option_map (fun rt => (S i, [In_numbered_list_item rt]))
      (parseInlineMarkdown text).
Proof. exact (numbered_line_fact lines i digits pad text tail). Qed.

Lemma numbered_line_witness :
  "12" <> "" /\ every is_digit "12" = true
  /\ " " <> "" /\ every is_space " " = true
  /\ every dot "item" = true /\ stops dot cr = true
  /\ stops is_space ("item" ++ cr) = true
  /\ loop_body [] 0 ("12" ++ "." ++ " " ++ "item" ++ cr)
     = option_map (fun rt => (1, [In_numbered_list_item rt]))
         (parseInlineMarkdown "item").
Proof.
  split; [discriminate|]. split; [reflexivity|]. split; [discriminate|].
  split; [reflexivity|]. split; [reflexivity|]. split; [reflexivity|].
  split; [reflexivity|].
  apply (numbered_line [] 0 "12" " " "item" cr);
    try reflexivity; discriminate.
Defined.

(** The quote expression on a closing angle bracket, white space or none,
    a text and what is behind the text. *)
Lemma quote_match (pad text tail : string) :
  every is_space pad = true ->
  every dot text = true -> stops is_space (text ++ tail) = true ->
  stops dot tail = true ->
  match_ quote_re (">" ++ pad ++ text ++ tail) = Some [(1, text)].
Proof.
  intros Hpad Hdot Hs Htail. unfold match_, quote_re.
  rewrite exec_anchored.
  enough (H : match_at
                (Bos +> Str ">" +> star is_space +> Grp 1 (star dot))
                0 (">" ++ pad ++ text ++ tail)
              = Some (mkResult 0
                        (1 + String.length pad + String.length text) tail
                        [(1, text)]))
    by now rewrite H.
  unfold match_at.
  cbn [rmatch Nat.eqb plus star append strip Ascii.eqb Bool.eqb String.length].
  apply quant_greedy_max; try assumption; [lia | exact I |].
  apply quant_greedy_max; try assumption; try reflexivity; try lia.
  match goal with
  | |- context [String.substring 0 ?n (?t ++ _)] =>
      replace n with (String.length t) by lia
  end. rewrite substring_append.
  repeat first [lia | progress f_equal].
Qed.

(** What [quote_line] below states, as the later proofs use it. *)
Lemma quote_line_fact (lines : list string) (i : nat)
    (pad text tail : string) :
  every is_space pad = true ->
  every dot text = true -> stops dot tail = true ->
  stops is_space (text ++ tail) = true ->
  loop_body lines i (">" ++ pad ++ text ++ tail)
  = option_map (fun rt => (S i, [In_quote rt])) (parseInlineMarkdown text).
Proof.
  intros Hpad Hdot Htail Hs.
  pose proof (quote_match pad text tail Hpad Hdot Hs Htail) as Hm.
  cbn [append] in *.
  unfold loop_body, classify.
  rewrite trim_cons by reflexivity.
  unfold is_fence. rewrite trim_cons by reflexivity.
  cbn [String.eqb Ascii.eqb Bool.eqb startsWith strip].
  replace (match_ heading_re (String ">" (pad ++ text ++ tail)))
    with (@None caps)
    by (unfold match_, heading_re; now rewrite exec_anchored).
  replace (match_ todo_re (String ">" (pad ++ text ++ tail)))
    with (@None caps)
    by (unfold match_, todo_re; now rewrite exec_anchored).
  replace (match_ bullet_re (String ">" (pad ++ text ++ tail)))
    with (@None caps)
    by (unfold match_, bullet_re; now rewrite exec_anchored).
  replace (match_ numbered_re (String ">" (pad ++ text ++ tail)))
    with (@None caps)
    by (unfold match_, numbered_re; now rewrite exec_anchored).
  rewrite Hm. unfold group. cbn [cap Nat.eqb].
  destruct (parseInlineMarkdown text); reflexivity.
Qed.


(** X8. A closing angle bracket, white space or none, a text without line
    terminator, and behind it nothing or what starts with a line
    terminator, where what follows the white space starts with no white
    space, make a quote with the text parsed inline; what stands from the
    line terminator on is dropped. *)
Theorem quote_line (lines : list string) (i : nat)
    (pad text tail : string) :
  every is_space pad = true ->
  every dot text = true -> stops dot tail = true ->
  stops is_space (text ++ tail) = true ->
  loop_body lines i (">" ++ pad ++ text ++ tail)
  = option_map (fun rt => (S i, [In_quote rt])) (parseInlineMarkdown text).
Proof. exact (quote_line_fact lines i pad text tail). Qed.

Lemma quote_line_witness :
  every is_space " " = true /\ every dot "q" = true
  /\ stops dot (cr ++ "tail") = true
  /\ stops is_space ("q" ++ cr ++ "tail") = true
  /\ loop_body [] 0 (">" ++ " " ++ "q" ++ cr ++ "tail")
     = option_map (fun rt => (1, [In_quote rt])) (parseInlineMarkdown "q").
Proof.
  split; [reflexivity|]. split; [reflexivity|]. split; [reflexivity|].
  split; [reflexivity|].
  apply (quote_line [] 0 " " "q" (cr ++ "tail")); reflexivity.
Defined.

Lemma trimEnd_spaces (ws : string) :
  every is_space ws = true -> trimEnd ws = "".
Proof.
  induction ws as [|a ws IH]; intros H; [reflexivity|].
  simpl in *. apply andb_prop in H. destruct H as [Ha H].
  now rewrite (IH H), Ha.
Qed.

Lemma rule_not_space (a : ascii) : rule_char a = true -> is_space a = false.
Proof.
  destruct a as [[] [] [] [] [] [] [] []]; intros H; try reflexivity;
    vm_compute in H; discriminate H.
Qed.

Lemma trimEnd_rule (run ws : string) :
  every rule_char run = true -> every is_space ws = true ->
  trimEnd (run ++ ws) = run.
Proof.
  intros Hrun Hws. induction run as [|a run IH].
  - now apply trimEnd_spaces.
  - simpl in Hrun. apply andb_prop in Hrun. destruct Hrun as [Ha Hrun].
    cbn [append]. rewrite trimEnd_cons by now apply rule_not_space.
    now rewrite (IH Hrun).
Qed.

Ltac rule_cases a H :=
  destruct a as [[] [] [] [] [] [] [] []];
  try (vm_compute in H; discriminate H); clear H.

(** The divider test on three or more of the rule characters. *)
Lemma divider_test (run : string) :
  3 <= String.length run -> every rule_char run = true ->
  test divider_re run = true.
Proof.
  intros Hlen Hrun. unfold test, divider_re. rewrite exec_anchored.
  enough (H : match_at
                (Bos +> Quant true 3 None (one_of "-*_") +> star is_space
                     +> Eos)
                0 run
              = Some (mkResult 0 (String.length run) "" []))
    by now rewrite H.
  unfold match_at. cbn [rmatch Nat.eqb star].
  rewrite <- (append_nil_r run) at 1.
  apply quant_greedy_max; try assumption; try reflexivity.
Qed.

Lemma trim_rule (run ws : string) :
  every rule_char run = true -> every is_space ws = true ->
  trim (run ++ ws) = run.
Proof.
  intros Hrun Hws. unfold trim. destruct run as [|a run].
  - cbn [append]. clear Hrun. induction ws as [|b ws IH]; [reflexivity|].
    simpl in Hws. apply andb_prop in Hws. destruct Hws as [Hb Hws].
    cbn [trimStart]. rewrite Hb. now apply IH.
  - pose proof Hrun as Hrun'. simpl in Hrun'. apply andb_prop in Hrun'.
    destruct Hrun' as [Ha _].
    cbn [append trimStart]. rewrite (rule_not_space a Ha).
    now apply (trimEnd_rule (String a run) ws).
Qed.

(** X9. Three or more of the characters [-], [*] and [_], in any mix, with
    white space or nothing behind them, make a divider. *)
Theorem divider_line (lines : list string) (i : nat) (run ws : string) :
  3 <= String.length run ->
  every rule_char run = true ->
  every is_space ws = true ->
  loop_body lines i (run ++ ws) = Some (S i, [In_divider]).
Proof.
  intros Hlen Hrun Hws.
  pose proof (divider_test run Hlen Hrun) as Htest.
  pose proof (trim_rule run ws Hrun Hws) as Htrim.
  unfold loop_body, classify, is_fence. rewrite Htrim, Htest.
  destruct run as [|a [|b run]]; try (simpl in Hlen; lia).
  cbn [every] in Hrun.
  apply andb_prop in Hrun. destruct Hrun as [Ha Hrun].
  apply andb_prop in Hrun. destruct Hrun as [Hb _].
  cbn [append] in *.
  unfold match_, heading_re, todo_re, bullet_re, numbered_re, quote_re.
  rewrite !exec_anchored.
  rule_cases a Ha; rule_cases b Hb; reflexivity.
Qed.

Lemma divider_line_witness :
  3 <= String.length "-*_-" /\ every rule_char "-*_-" = true
  /\ every is_space "  " = true
  /\ loop_body [] 0 ("-*_-" ++ "  ") = Some (1, [In_divider]).
Proof.
  split; [simpl; lia|]. split; [reflexivity|]. split; [reflexivity|].
  apply (divider_line [] 0 "-*_-" "  "); [simpl; lia | reflexivity..].
Defined.

Ltac letter_cases a H :=
  destruct a as [[] [] [] [] [] [] [] []];
  try (vm_compute in H; discriminate H); clear H.

(** What [letter_line] below states, as the later proofs use it. *)
Lemma letter_line_fact (lines : list string) (i : nat) (a : ascii)
    (rest : string) :
  is_letter a = true ->
  loop_body lines i (String a rest)
  = option_map (fun rt => (S i, [In_paragraph rt]))
      (parseInlineMarkdown (String a rest)).
Proof.
  intros H.
  assert (Hsp : is_space a = false).
  { letter_cases a H; reflexivity. }
  unfold loop_body, classify, is_fence, test.
  rewrite (trim_cons a rest Hsp).
  unfold match_, heading_re, todo_re, bullet_re, numbered_re, quote_re,
    divider_re, bookmark_re, embed_re, image_re.
  rewrite !exec_anchored.
  letter_cases a H;
    destruct (parseInlineMarkdown _); reflexivity.
Qed.

(** X10. A line that starts with a letter is a paragraph, whatever follows. *)
Theorem letter_line (lines : list string) (i : nat) (a : ascii)
    (rest : string) :
  is_letter a = true ->
  loop_body lines i (String a rest)
  = option_map (fun rt => (S i, [In_paragraph rt]))
      (parseInlineMarkdown (String a rest)).
Proof. exact (letter_line_fact lines i a rest). Qed.

Lemma letter_line_witness :
  is_letter "T" = true
  /\ loop_body [] 0 (String "T" "o do: 1. x")
     = option_map (fun rt => (1, [In_paragraph rt]))
         (parseInlineMarkdown (String "T" "o do: 1. x")).
Proof.
  split; [reflexivity|].
  apply (letter_line [] 0 "T" "o do: 1. x"). reflexivity.
Defined.


(** *** Simple texts *)





(** *** What the decoder builds *)

(** A bounded quantifier takes a run of the class within its bounds. *)
Lemma quant_text_bounds {A : Type} (f : ascii -> bool) (g : bool)
    (s : string) :
  forall (lo h : nat) (i : nat) (k : nat -> string -> option A) (x : A),
    quant f g lo (Some h) i s k = Some x ->
    exists p s', s = p ++ s' /\ every f p = true
      /\ Nat.min lo h <= String.length p /\ String.length p <= h
      /\ k (i + String.length p) s' = Some x.
Proof.
  induction s as [|a s IH]; intros lo h i k x H.
  - exists "", "".
    destruct h as [|h], lo as [|lo], g; simpl in H; try discriminate;
      try (destruct (k i "") eqn:E; try discriminate);
      repeat split; simpl; try lia; rewrite ?Nat.add_0_r; congruence.
  - assert (Hk : k i (String a s) = Some x ->
              exists p s', String a s = p ++ s' /\ every f p = true
                /\ 0 <= String.length p /\ String.length p <= h
                /\ k (i + String.length p) s' = Some x).
    { intros E. exists "", (String a s). simpl. rewrite Nat.add_0_r.
      repeat split; [lia | lia | exact E]. }
    destruct h as [|h].
    { simpl in H. destruct (Hk H) as (p & s' & ? & ? & ? & ? & ?).
      exists p, s'. repeat split; try assumption; try lia. }
    assert (Hstep : forall lo',
              f a = true ->
              quant f g lo' (Some h) (S i) s k = Some x ->
              exists p s', String a s = p ++ s' /\ every f p = true
                /\ S (Nat.min lo' h) <= String.length p
                /\ String.length p <= S h
                /\ k (i + String.length p) s' = Some x).
    { intros lo' Hf E.
      destruct (IH _ _ _ _ _ E) as (p & s' & E1 & E2 & E3 & E4 & E5).
      exists (String a p), s'. simpl. rewrite Hf, E2, E1.
      repeat split; [lia | lia |].
      now replace (i + S (String.length p)) with (S i + String.length p)
        by lia. }
    destruct lo as [|lo]; simpl in H.
    + destruct g.
      * destruct (f a) eqn:Hf; [|now apply Hk].
        destruct (quant f true 0 (Some h) (S i) s k) eqn:E.
        -- inversion H; subst.
           destruct (Hstep 0 eq_refl E) as (p & s' & ? & ? & ? & ? & ?).
           exists p, s'. repeat split; try assumption; try lia.
        -- now apply Hk.
      * destruct (k i (String a s)) eqn:E.
        -- inversion H; subst. now apply Hk.
        -- destruct (f a) eqn:Hf; [|discriminate].
           destruct (Hstep 0 eq_refl H) as (p & s' & ? & ? & ? & ? & ?).
           exists p, s'. repeat split; try assumption; try lia.
    + destruct (f a) eqn:Hf; [|discriminate].
      destruct (Hstep lo eq_refl H) as (p & s' & ? & ? & ? & ? & ?).
      exists p, s'. repeat split; try assumption; try lia.
Qed.

(** The first group of the heading expression holds one to three
    characters. *)
Lemma heading_group (line : string) (c : caps) :
  match_ heading_re line = Some c ->
  1 <= String.length (group 1 c) <= 3.
Proof.
  unfold match_, heading_re. rewrite exec_anchored.
  unfold match_at.
  destruct (rmatch _ 0 line [] _) as [m|] eqn:E; [|discriminate].
  intros H. inversion H; subst c. clear H.
  cbn [rmatch] in E.
  apply quant_text_bounds in E.
  destruct E as (p & s1 & -> & Hp & Hlo & Hhi & E).
  apply quant_text in E. destruct E as (p2 & s2 & -> & _ & _ & E).
  apply quant_text in E. destruct E as (p3 & s3 & -> & _ & _ & E).
  inversion E; subst m. cbn [m_caps].
  unfold group. cbn [cap Nat.eqb].
  rewrite Nat.sub_0_r, substring_append.
  cbn in Hlo. lia.
Qed.

Lemma classify_well_formed (line : string) (b : BlockInput) :
  classify line = Some b -> well_formed b.
Proof.
  unfold classify.
  destruct (match_ heading_re line) as [c|] eqn:Eh.
  { destruct (parseInlineMarkdown _); [|discriminate].
    intros H. inversion H; subst b. exact (heading_group line c Eh). }
  repeat match goal with
  | |- option_map _ ?o = Some _ -> _ =>
      destruct o; [|discriminate]; intros H; inversion H; exact I
  | |- Some _ = Some _ -> _ => intros H; inversion H; exact I
  | |- match ?o with _ => _ end = Some _ -> _ => destruct o
  | |- (if ?o then _ else _) = Some _ -> _ => destruct o
  end.
Qed.

Lemma loop_body_pushes (lines : list string) (i : nat) (line : string)
    (i' : nat) (pushed : list BlockInput) :
  loop_body lines i line = Some (i', pushed) ->
  Forall well_formed pushed
  /\ List.length pushed
     <= (if String.eqb (trim line) "" then 0 else 1).
Proof.
  unfold loop_body.
  destruct (String.eqb (trim line) "").
  { intros H. inversion H. split; [constructor | simpl; lia]. }
  destruct (is_fence line).
  { intros H. inversion H. split; [|simpl; lia].
    repeat constructor. }
  destruct (classify line) as [b|] eqn:E; [|discriminate].
  intros H. inversion H. split; [|simpl; lia].
  repeat constructor. now apply classify_well_formed in E.
Qed.

Lemma skipn_nth (l : list string) :
  forall (i : nat) (x : string),
    nth_error l i = Some x -> skipn i l = x :: skipn (S i) l.
Proof.
  induction l as [|y l IH]; intros [|i] x H; try discriminate.
  - inversion H. reflexivity.
  - simpl in H. now apply IH.
Qed.

Lemma content_lines_skipn (l : list string) :
  forall i j, i <= j ->
    List.length (content_lines (skipn j l))
    <= List.length (content_lines (skipn i l)).
Proof.
  induction l as [|x l IH]; intros i j Hij.
  - now rewrite !skipn_nil.
  - destruct i as [|i], j as [|j]; try lia.
    + specialize (IH 0 j ltac:(lia)). simpl in *.
      destruct (negb _); simpl; lia.
    + simpl. apply IH. lia.
Qed.

Lemma decode_loop_blocks (fuel : nat) (lines : list string) :
  forall (i : nat) (blocks r : list BlockInput),
    decode_loop fuel lines i blocks = Some r ->
    Forall well_formed blocks ->
    Forall well_formed r
    /\ List.length r
       <= List.length blocks + List.length (content_lines (skipn i lines)).
Proof.
  induction fuel as [|fuel IH]; intros i blocks r H Hwf; [discriminate|].
  simpl in H. destruct (nth_error lines i) as [line|] eqn:E.
  - destruct (loop_body lines i line) as [[i' pushed]|] eqn:Hb;
      [|discriminate].
    pose proof (loop_body_advances _ _ _ _ _ Hb) as Hadv.
    destruct (loop_body_pushes _ _ _ _ _ Hb) as [Hp Hlen].
    apply IH in H; [|apply Forall_app; now split].
    destruct H as [H1 H2]. split; [exact H1|].
    rewrite length_app in H2.
    rewrite (skipn_nth _ _ _ E).
    pose proof (content_lines_skipn lines (S i) i' ltac:(lia)) as Hs.
    change (content_lines (line :: skipn (S i) lines))
      with (if negb (String.eqb (trim line) "")
            then line :: content_lines (skipn (S i) lines)
            else content_lines (skipn (S i) lines)).
    destruct (String.eqb (trim line) ""); cbn [negb List.length] in *; lia.
  - inversion H; subst r. split; [exact Hwf | lia].
Qed.

(** X11. The decoder returns on every document. It builds at most one block
    for each line that is not blank, a heading only of level 1, 2 or 3, and
    a code block with one run of text. *)
Theorem decoded_blocks (markdown : string) :
  exists blocks,
    markdownToBlocks markdown = Some blocks
    /\ List.length blocks
       <= List.length (content_lines (split_nl markdown))
    /\ Forall well_formed blocks.
Proof.
  destruct (markdownToBlocks_total markdown) as [blocks H].
  exists blocks. split; [exact H|].
  unfold markdownToBlocks in H.
  apply decode_loop_blocks in H; [|constructor].
  destruct H as [H1 H2]. split; [exact H2 | exact H1].
Qed.

(** *** The language mapping *)

Lemma lower_char_idem (a : ascii) : lower_char (lower_char a) = lower_char a.
Proof. destruct a as [[] [] [] [] [] [] [] []]; reflexivity. Qed.

Lemma toLowerCase_idem (s : string) :
  toLowerCase (toLowerCase s) = toLowerCase s.
Proof.
  induction s as [|a s IH]; [reflexivity|].
  simpl. now rewrite lower_char_idem, IH.
Qed.

Lemma assoc_In (key : string) (table : list (string * string)) (v : string) :
  assoc key table = Some v -> In v (map snd table).
Proof.
  induction table as [|[k w] table IH]; [discriminate|].
  simpl. destruct (String.eqb key k).
  - intros H. inversion H. now left.
  - intros H. right. now apply IH.
Qed.

(** X12. The language a code block is given is a fixed point of the mapping,
    and the mapping does not tell the case of its argument. *)
Theorem mapLanguage_idempotent (lang v : string) :
  mapLanguage lang = StringValue v ->
  mapLanguage v = StringValue v
  /\ mapLanguage (toLowerCase lang) = StringValue v.
Proof.
  intros H. split.
  - unfold mapLanguage, map_get in H.
    destruct (assoc (toLowerCase lang) language_table) as [w|] eqn:E.
    + pose proof (table_values_truthy _ _ E) as Hw. rewrite Hw in H.
      inversion H; subst w. apply assoc_In in E. simpl in E.
      repeat (destruct E as [<-|E]; [reflexivity|]). contradiction.
    + destruct (existsb _ object_prototype_names) eqn:Ep; [discriminate|].
      inversion H; subst v.
      unfold mapLanguage, map_get. now rewrite toLowerCase_idem, E, Ep.
  - unfold mapLanguage in *. now rewrite toLowerCase_idem.
Qed.

Lemma mapLanguage_idempotent_witness :
  mapLanguage "PY" = StringValue "python"
  /\ mapLanguage "python" = StringValue "python"
  /\ mapLanguage (toLowerCase "PY") = StringValue "python".
Proof.
  split; [reflexivity|].
  apply (mapLanguage_idempotent "PY" "python"). reflexivity.
Defined.

(** *** Indentation, and blocks without children *)

Lemma split_nl_lines (s : string) :
  forallb (every no_line_feed) (split_nl s) = true.
Proof.
  induction s as [|a s IH]; [reflexivity|].
  simpl. destruct (Ascii.eqb a "010") eqn:E.
  - simpl. exact IH.
  - pose proof (split_nl_not_nil s) as Hne.
    destruct (split_nl s) as [|l ls]; [congruence|].
    simpl in *. unfold no_line_feed at 1. now rewrite E.
Qed.

Lemma startsWith_append (p s : string) : startsWith p (p ++ s) = true.
Proof. unfold startsWith. now rewrite strip_append. Qed.

Lemma repeat_S_r (s : string) (n : nat) : repeat s (S n) = repeat s n ++ s.
Proof.
  induction n as [|n IH]; simpl.
  - now rewrite append_nil_r.
  - simpl in IH. rewrite append_assoc. now rewrite <- IH.
Qed.

Lemma startsWith_shorter (p q s : string) :
  startsWith (p ++ q) s = true -> startsWith p s = true.
Proof.
  unfold startsWith. destruct (strip (p ++ q) s) as [r|] eqn:E; [|discriminate].
  intros _. apply strip_inv in E. subst s.
  now rewrite append_assoc, strip_append.
Qed.

Lemma indented_by_shorter (p q s : string) :
  indented_by (p ++ q) s = true -> indented_by p s = true.
Proof.
  unfold indented_by. rewrite !forallb_forall. intros H l Hl.
  apply (startsWith_shorter p q). now apply H.
Qed.

Lemma indented_by_lines (a b p : string) :
  indented_by p a = true -> indented_by p b = true ->
  indented_by p (a ++ nl ++ b) = true.
Proof.
  unfold indented_by. intros Ha Hb.
  now rewrite split_nl_app, forallb_app, Ha, Hb.
Qed.

Lemma indented_by_join (p : string) (l : string) (ls : list string) :
  forallb (indented_by p) (l :: ls) = true ->
  indented_by p (join nl (l :: ls)) = true.
Proof.
  revert l. induction ls as [|l' ls IH]; intros l H.
  - simpl in *. now rewrite andb_true_r in H.
  - cbn [forallb] in H. apply andb_prop in H. destruct H as [Hl H].
    change (join nl (l :: l' :: ls)) with (l ++ nl ++ join nl (l' :: ls)).
    apply indented_by_lines; [exact Hl | now apply IH].
Qed.

Lemma indented_by_prefix_lines (p line : string) :
  every no_line_feed p = true ->
  indented_by p (prefix_lines p line) = true.
Proof.
  intros Hp. unfold indented_by, prefix_lines.
  pose proof (split_nl_not_nil line) as Hne.
  pose proof (split_nl_lines line) as Hl.
  destruct (split_nl line) as [|l ls]; [congruence|].
  change (map (fun l0 => p ++ l0) (l :: ls))
    with ((p ++ l) :: map (fun l0 => p ++ l0) ls).
  rewrite split_nl_join.
  - change ((p ++ l) :: map (fun l0 => p ++ l0) ls)
      with (map (fun l0 => p ++ l0) (l :: ls)).
    rewrite forallb_forall. intros x Hx. apply in_map_iff in Hx.
    destruct Hx as (y & <- & _). apply startsWith_append.
  - change ((p ++ l) :: map (fun l0 => p ++ l0) ls)
      with (map (fun l0 => p ++ l0) (l :: ls)).
    rewrite forallb_forall. intros x Hx. apply in_map_iff in Hx.
    destruct Hx as (y & <- & Hy).
    rewrite forallb_forall in Hl.
    now rewrite every_append, Hp, (Hl y Hy).
Qed.

Lemma prefix_one_line (n : nat) : every no_line_feed (repeat "  " n) = true.
Proof. now apply every_repeat. Qed.

Lemma mapM_inv {X Y : Type} (f : X -> option Y) (l : list X) :
  forall ys, mapM f l = Some ys -> Forall2 (fun x y => f x = Some y) l ys.
Proof.
  induction l as [|x l IH]; intros ys H; simpl in H.
  - inversion H. constructor.
  - destruct (f x) as [y|] eqn:E; [|discriminate].
    destruct (mapM f l) as [ys'|]; [|discriminate].
    inversion H. constructor; [exact E | now apply IH].
Qed.

Lemma indented_children (provider : string -> list BlockObjectResponse)
    (fuel indent : nat) (blocks : list BlockObjectResponse)
    (children : string) :
  (forall b s, blockToMarkdown provider fuel b (indent + 1) = Some s ->
               indented_by (repeat "  " (indent + 1)) s = true) ->
  option_map (join nl)
    (mapM (fun b => blockToMarkdown provider fuel b (indent + 1)) blocks)
  = Some children ->
  truthy children = true ->
  indented_by (repeat "  " indent) children = true.
Proof.
  intros IH H Ht.
  destruct (mapM _ blocks) as [ys|] eqn:E; [|discriminate].
  inversion H; subst children. clear H.
  apply mapM_inv in E.
  destruct ys as [|y ys]; [discriminate|].
  apply indented_by_join. rewrite forallb_forall. intros s Hs.
  assert (Hin : exists b, blockToMarkdown provider fuel b (indent + 1)
                          = Some s).
  { clear Ht. induction E as [|b s' bs l' Hb _ IHE]; [contradiction|].
    destruct Hs as [->|Hs]; [now exists b | now apply IHE]. }
  destruct Hin as [b Hb]. apply IH in Hb.
  rewrite Nat.add_1_r, repeat_S_r in Hb.
  now apply indented_by_shorter in Hb.
Qed.

(** X13. Every line of the text a block is encoded to, the lines of its
    children and of a code block's content among them, starts with the
    indentation the encoder was called with. *)
Theorem encoder_indentation (provider : string -> list BlockObjectResponse)
    (fuel : nat) :
  forall (block : BlockObjectResponse) (indent : nat) (s : string),
    blockToMarkdown provider fuel block indent = Some s ->
    indented_by (repeat "  " indent) s = true.
Proof.
  induction fuel as [|fuel IH]; intros block indent s H; [discriminate|].
  cbn [blockToMarkdown] in H.
  set (prefix := repeat "  " indent) in *.
  match type of H with
  | match ?l with _ => _ end = _ => destruct l as [line|]; [|discriminate]
  end.
  match type of H with
  | match ?c with _ => _ end = _ =>
      destruct c as [children|] eqn:Ec; [|discriminate]
  end.
  pose proof (indented_by_prefix_lines prefix line (prefix_one_line indent))
    as Hline.
  assert (Hch : truthy children = true ->
                indented_by prefix children = true).
  { intros Ht. destruct (recurses block).
    - apply (indented_children provider fuel indent _ _
               (fun b s => IH b (indent + 1) s) Ec Ht).
    - inversion Ec; subst children. discriminate. }
  destruct (truthy children) eqn:Ht.
  - specialize (Hch eq_refl).
    destruct (is_toggle block); cbn [andb] in H; inversion H; subst s.
    + apply indented_by_lines; [exact Hline|].
      apply indented_by_lines; [exact Hch|].
      unfold indented_by. rewrite split_nl_one_line.
      * cbn [forallb]. now rewrite startsWith_append.
      * rewrite every_append. unfold prefix.
        now rewrite (prefix_one_line indent).
    + apply indented_by_lines; assumption.
  - rewrite andb_false_r in H. inversion H; subst s. exact Hline.
Qed.

Lemma encoder_indentation_witness :
  blockToMarkdown (fun _ => []) 1
    (mkBlock "b1" false
       (Code [TextItem ("a" ++ nl ++ "b") no_annotations None] "c")) 2
  = Some ("    ```c" ++ nl ++ "    a" ++ nl ++ "    b" ++ nl ++ "    ```")
  /\ indented_by (repeat "  " 2)
       ("    ```c" ++ nl ++ "    a" ++ nl ++ "    b" ++ nl ++ "    ```")
     = true.
Proof.
  split; [reflexivity|].
  apply (encoder_indentation (fun _ => []) 1
           (mkBlock "b1" false
              (Code [TextItem ("a" ++ nl ++ "b") no_annotations None] "c"))
           2).
  reflexivity.
Defined.

Lemma mapM_ext {X Y : Type} (f g : X -> option Y) (l : list X) :
  (forall x, In x l -> f x = g x) -> mapM f l = mapM g l.
Proof.
  induction l as [|x l IH]; intros H; [reflexivity|].
  simpl. rewrite (H x (or_introl eq_refl)).
  rewrite IH; [reflexivity|]. intros y Hy. apply H. now right.
Qed.

Lemma mapM_some {X Y : Type} (f : X -> option Y) (l : list X) :
  (forall x, In x l -> f x <> None) -> mapM f l <> None.
Proof.
  induction l as [|x l IH]; intros H; [discriminate|].
  simpl. pose proof (H x (or_introl eq_refl)) as Hx.
  destruct (f x); [|congruence].
  destruct (mapM f l); [discriminate|].
  exfalso. apply IH; [|reflexivity]. intros z Hz. apply H. now right.
Qed.

(** X14. For blocks without children, tables and column lists apart, the
    encoder asks the provider for nothing: it returns at the first level of
    the tree, and the text is the same whatever the provider holds. *)
Theorem leaves_without_provider
    (provider provider' : string -> list BlockObjectResponse)
    (fuel : nat) (blocks : list BlockObjectResponse) (indent : nat) :
  forallb leaf blocks = true ->
  blocksToMarkdown provider (S fuel) blocks indent
  = blocksToMarkdown provider' 1 blocks indent
  /\ blocksToMarkdown provider (S fuel) blocks indent <> None.
Proof.
  intros H. unfold blocksToMarkdown.
  assert (Hb : forall b, In b blocks ->
                blockToMarkdown provider (S fuel) b indent
                = blockToMarkdown provider' 1 b indent
                /\ blockToMarkdown provider (S fuel) b indent <> None).
  { rewrite forallb_forall in H.
    intros [bid ch p] Hin. specialize (H _ Hin).
    unfold leaf in H. cbn [has_children payload] in H.
    apply andb_prop in H. destruct H as [Hc Hp].
    apply negb_true_iff in Hc. subst ch.
    cbn [blockToMarkdown]. unfold recurses, is_toggle.
    cbn [has_children andb payload].
    destruct p; try discriminate Hp; cbn [truthy];
      (split; [reflexivity | discriminate]). }
  split.
  - f_equal. apply mapM_ext. intros b Hin. now apply Hb.
  - pose proof (mapM_some (fun b => blockToMarkdown provider (S fuel) b indent)
                  blocks (fun b Hin => proj2 (Hb b Hin))) as Hs.
    destruct (mapM _ blocks); [discriminate | congruence].
Qed.

Lemma leaves_without_provider_witness :
  forallb leaf [mkBlock "b1" false Divider;
                mkBlock "b2" false (Embed "https://example.com")] = true
  /\ blocksToMarkdown (fun _ => [mkBlock "b3" false Divider]) 3
       [mkBlock "b1" false Divider;
        mkBlock "b2" false (Embed "https://example.com")] 0
     = blocksToMarkdown (fun _ => []) 1
         [mkBlock "b1" false Divider;
          mkBlock "b2" false (Embed "https://example.com")] 0
  /\ blocksToMarkdown (fun _ => [mkBlock "b3" false Divider]) 3
       [mkBlock "b1" false Divider;
        mkBlock "b2" false (Embed "https://example.com")] 0
     <> None.
Proof.
  split; [reflexivity|].
  apply (leaves_without_provider (fun _ => [mkBlock "b3" false Divider])
           (fun _ => []) 2
           [mkBlock "b1" false Divider;
            mkBlock "b2" false (Embed "https://example.com")] 0).
  reflexivity.
Defined.

(** *** The inline parser of the block tools *)

Lemma rich_loop_S (fuel i : nat) (s : string) (items : list RichTextInput) :
  rich_loop (S fuel) i s items
  = match exec rich_re i s with
    | None => Some items
    | Some m =>
        if m_end m <=? i then None
        else rich_loop fuel (m_end m) (m_rest m)
               (items ++ rich_item_of (m_caps m))%list
    end.
Proof. reflexivity. Qed.

Lemma rich_loop_total (fuel : nat) :
  forall (i : nat) (s : string) (items : list RichTextInput),
    String.length s < fuel ->
    exists r, rich_loop fuel i s items = Some r.
Proof.
  induction fuel as [|fuel IH]; intros i s items Hfuel; [lia|].
  rewrite rich_loop_S. destruct (exec rich_re i s) as [m|] eqn:E; [|eauto].
  apply exec_inv in E. change (min_len rich_re) with 1 in E.
  destruct E as (E1 & E2 & E3).
  destruct (m_end m <=? i) eqn:Hle; [apply Nat.leb_le in Hle; lia|].
  apply IH. lia.
Qed.

Lemma marker_or_text (a : ascii) :
  none_of "[*`~" a = true \/ one_of "*`~[" a = true.
Proof.
  destruct a as [[] [] [] [] [] [] [] []]; vm_compute; auto.
Qed.

Lemma rich_match_some (i : nat) (a : ascii) (rest : string) :
  exists m, match_at rich_re i (String a rest) = Some m.
Proof.
  unfold match_at, rich_re.
  do 5 apply alt_some.
  change (exists x,
            rmatch (plus (none_of "[*`~") </> plus (one_of "*`~[")) i
              (String a rest) []
              (fun e rest' c =>
                 Some (mkResult i e rest'
                         ((7, String.substring 0 (e - i) (String a rest))
                            :: c))) = Some x).
  destruct (marker_or_text a) as [H|H].
  - destruct (plus_some (none_of "[*`~") i a rest []
                (fun e rest' c =>
                   Some (mkResult i e rest'
                           ((7, String.substring 0 (e - i) (String a rest))
                              :: c))) H) as [x Hx]; [intros; discriminate|].
    exists x. simpl. simpl in Hx. now rewrite Hx.
  - apply alt_some. apply plus_some; [exact H | intros; discriminate].
Qed.

(** The text a match takes, and what the run pushed for it is encoded as:
    that text. *)
Lemma rich_match_text (i : nat) (s : string) (m : result) :
  match_at rich_re i s = Some m ->
  exists matched,
    s = matched ++ m_rest m
    /\ m_end m = i + String.length matched
    /\ 1 <= String.length matched
    /\ reencoded (rich_item_of (m_caps m)) = matched
    /\ forallb is_text_run (rich_item_of (m_caps m)) = true
    /\ rich_item_of (m_caps m) <> [].
Proof.
  unfold match_at, rich_re. intros H.
  apply alt_inv in H. destruct H as [H|H].
  { apply str_inv in H. destruct H as (s1 & -> & H).
    apply grp_quant_inv in H. destruct H as (t & s2 & -> & Ht & Hlt & H).
    apply str_inv in H. destruct H as (s3 & -> & H).
    apply grp_quant_inv in H. destruct H as (u & s4 & -> & Hu & Hlu & H).
    apply str_end_inv in H. destruct H as (s5 & -> & H).
    finish_match H.
    exists ("[" ++ t ++ "](" ++ u ++ ")").
    repeat split; try discriminate.
    - now rewrite !append_assoc.
    - rewrite !length_append. simpl. lia.
    - simpl. lia.
    - unfold reencoded. cbn.
      destruct t; [simpl in Hlt; lia | reflexivity]. }
  apply alt_inv in H. destruct H as [H|H].
  { apply str_inv in H. destruct H as (s1 & -> & H).
    apply grp_quant_inv in H. destruct H as (t & s2 & -> & Ht & Hlt & H).
    apply str_end_inv in H. destruct H as (s3 & -> & H).
    finish_match H.
    exists ("**" ++ t ++ "**").
    repeat split; try discriminate.
    - now rewrite !append_assoc.
    - rewrite !length_append. simpl. lia.
    - simpl. lia.
    - unfold reencoded. cbn.
      destruct t; [simpl in Hlt; lia | reflexivity]. }
  apply alt_inv in H. destruct H as [H|H].
  { apply str_inv in H. destruct H as (s1 & -> & H).
    apply grp_quant_inv in H. destruct H as (t & s2 & -> & Ht & Hlt & H).
    apply str_end_inv in H. destruct H as (s3 & -> & H).
    finish_match H.
    exists ("*" ++ t ++ "*").
    repeat split; try discriminate.
    - now rewrite !append_assoc.
    - rewrite !length_append. simpl. lia.
    - simpl. lia.
    - unfold reencoded. cbn.
      destruct t; [simpl in Hlt; lia | reflexivity]. }
  apply alt_inv in H. destruct H as [H|H].
  { apply str_inv in H. destruct H as (s1 & -> & H).
    apply grp_quant_inv in H. destruct H as (t & s2 & -> & Ht & Hlt & H).
    apply str_end_inv in H. destruct H as (s3 & -> & H).
    finish_match H.
    exists ("`" ++ t ++ "`").
    repeat split; try discriminate.
    - now rewrite !append_assoc.
    - rewrite !length_append. simpl. lia.
    - simpl. lia.
    - unfold reencoded. cbn.
      destruct t; [simpl in Hlt; lia | reflexivity]. }
  apply alt_inv in H. destruct H as [H|H].
  { apply str_inv in H. destruct H as (s1 & -> & H).
    apply grp_quant_inv in H. destruct H as (t & s2 & -> & Ht & Hlt & H).
    apply str_end_inv in H. destruct H as (s3 & -> & H).
    finish_match H.
    exists ("~~" ++ t ++ "~~").
    repeat split; try discriminate.
    - now rewrite !append_assoc.
    - rewrite !length_append. simpl. lia.
    - simpl. lia.
    - unfold reencoded. cbn.
      destruct t; [simpl in Hlt; lia | reflexivity]. }
  change (rmatch (Grp 7 (plus (none_of "[*`~") </> plus (one_of "*`~[")))
            i s [] (fun e rest c => Some (mkResult i e rest c)) = Some m)
    with (rmatch (plus (none_of "[*`~") </> plus (one_of "*`~[")) i s []
            (fun e rest c =>
               Some (mkResult i e rest
                       ((7, String.substring 0 (e - i) s) :: c))) = Some m)
    in H.
  assert (Hrun : exists t s', s = t ++ s' /\ 1 <= String.length t
                   /\ m = mkResult i (i + String.length t) s' [(7, t)]).
  { apply alt_inv in H. destruct H as [H|H]; simpl in H;
      apply quant_text in H;
      destruct H as (t & s' & -> & Ht & Hlt & H);
      exists t, s'; (split; [reflexivity|]); (split; [exact Hlt|]);
      replace (i + String.length t - i) with (String.length t) in H by lia;
      rewrite substring_append in H; now inversion H. }
  destruct Hrun as (t & s' & -> & Hlt & ->). cbn [m_rest m_end m_caps].
  exists t.
  repeat split; try assumption; try discriminate.
  unfold reencoded. cbn. destruct t; [simpl in Hlt; lia | reflexivity].
Qed.

Lemma rich_loop_text (fuel : nat) :
  forall (i : nat) (s : string) (items r : list RichTextInput),
    rich_loop fuel i s items = Some r ->
    reencoded r = reencoded items ++ s
    /\ (forallb is_text_run items = true -> forallb is_text_run r = true)
    /\ (s <> "" -> r <> []).
Proof.
  induction fuel as [|fuel IH]; intros i s items r H; [discriminate|].
  rewrite rich_loop_S in H.
  destruct s as [|a rest].
  - change (exec rich_re i "") with (@None result) in H.
    inversion H; subst. rewrite append_nil_r. repeat split; auto.
  - destruct (rich_match_some i a rest) as [m Hm].
    cbn [exec] in H. rewrite Hm in H.
    destruct (rich_match_text _ _ _ Hm)
      as (matched & Hs & He & Hlen & Hr & Ht & Hne).
    destruct (m_end m <=? i) eqn:Hle; [discriminate|].
    pose proof H as Hloop.
    apply IH in H. destruct H as (H1 & H2 & _).
    rewrite reencoded_app, Hr in H1.
    rewrite Hs. repeat split.
    + rewrite H1. now rewrite append_assoc.
    + intros Hi. apply H2. now rewrite forallb_app, Hi, Ht.
    + intros _ ->.
      assert (Hacc : forall fuel' i' s' items' r',
                rich_loop fuel' i' s' items' = Some r' ->
                List.length items' <= List.length r').
      { clear. induction fuel' as [|fuel' IH']; intros i' s' items' r' H;
          [discriminate|].
        rewrite rich_loop_S in H.
        destruct (exec rich_re i' s') as [m'|].
        - destruct (m_end m' <=? i'); [discriminate|].
          apply IH' in H. rewrite length_app in H. lia.
        - inversion H. lia. }
      apply Hacc in Hloop. rewrite length_app in Hloop.
      destruct (rich_item_of (m_caps m)); [congruence|].
      simpl in Hloop. lia.
Qed.

(** X15. The inline parser of the block tools returns on every text, and
    never the empty list; its runs are all text runs, and encoded again they
    give the text back, character for character. *)
Theorem rich_text_round_trip (text : string) :
  exists items,
    parseInlineToRichText text = Some items
    /\ items <> []
    /\ forallb is_text_run items = true
    /\ richTextToMarkdown (map stored_run items) = text.
Proof.
  unfold parseInlineToRichText.
  destruct (rich_loop_total (S (String.length text)) 0 text [])
    as [r Hr]; [lia|].
  rewrite Hr. apply rich_loop_text in Hr. destruct Hr as (H1 & H2 & H3).
  destruct r as [|x r].
  - exists [text_input text]. repeat split; try discriminate.
    destruct text; [reflexivity|]. now destruct H3.
  - exists (x :: r). repeat split; try discriminate.
    + now apply H2.
    + exact H1.
Qed.

(** *** The two inline parsers on one text *)

Lemma quant_sim {A B : Type} (h : A -> B) (ok f f' : ascii -> bool)
    (g : bool) (s : string) :
  (forall a, ok a = true -> f a = f' a) ->
  forall (lo : nat) (hi : option nat) (i : nat)
         (k : nat -> string -> option A) (k' : nat -> string -> option B),
    every ok s = true ->
    (forall i' s', every ok s' = true ->
                   k' i' s' = option_map h (k i' s')) ->
    quant f' g lo hi i s k' = option_map h (quant f g lo hi i s k).
Proof.
  intros Hf. induction s as [|a s IH]; intros lo hi i k k' Hs Hk.
  - destruct hi as [[|n]|], lo as [|lo], g; simpl; try reflexivity;
      rewrite (Hk i "" eq_refl); now destruct (k i "").
  - simpl in Hs. apply andb_prop in Hs. destruct Hs as [Ha Hs].
    assert (Hks : k' i (String a s) = option_map h (k i (String a s))).
    { apply Hk. simpl. now rewrite Ha, Hs. }
    destruct hi as [[|n]|]; [exact Hks| |];
      destruct lo as [|lo]; simpl; rewrite <- (Hf a Ha);
      rewrite ?Hks;
      try rewrite (IH 0 _ (S i) k k' Hs Hk);
      try rewrite (IH lo _ (S i) k k' Hs Hk);
      destruct g, (f a); try reflexivity;
      repeat match goal with
      | |- context [match ?o with _ => _ end] =>
          match o with
          | quant _ _ _ _ _ _ _ => destruct o
          | k _ _ => destruct o
          end; cbn [option_map]
      end; try reflexivity.
Qed.

Lemma every_strip (ok : ascii -> bool) (lit s s' : string) :
  every ok s = true -> strip lit s = Some s' -> every ok s' = true.
Proof.
  intros Hs E. apply strip_inv in E. subst s.
  now apply every_append_inv in Hs.
Qed.

Lemma rmatch_sim {A B : Type} (h : A -> B) (d : nat) (ok : ascii -> bool)
    (r r' : re) :
  sim d ok r r' ->
  forall (i : nat) (s : string) (c : caps)
         (k : nat -> string -> caps -> option A)
         (k' : nat -> string -> caps -> option B),
    every ok s = true ->
    (forall i' s' e, every ok s' = true ->
                     k' i' s' (shift_caps d e) = option_map h (k i' s' e)) ->
    rmatch r' i s (shift_caps d c) k' = option_map h (rmatch r i s c k).
Proof.
  induction 1 as [lit|f f' Hf|g lo hi f f' Hf|r r' _ IH
                 |r1 r1' r2 r2' _ IH1 _ IH2|r1 r1' r2 r2' _ IH1 _ IH2
                 |n r r' _ IH| |];
    intros i s c k k' Hs Hk; cbn [rmatch].
  - destruct (strip lit s) as [s'|] eqn:E; [|reflexivity].
    apply Hk. now apply (every_strip ok lit s).
  - destruct s as [|a s]; [reflexivity|].
    simpl in Hs. apply andb_prop in Hs. destruct Hs as [Ha Hs].
    rewrite <- (Hf a Ha). destruct (f a); [now apply Hk | reflexivity].
  - apply (quant_sim h ok); try assumption.
    intros i' s' Hs'. now apply Hk.
  - rewrite (IH i s c k k' Hs Hk).
    destruct (rmatch r i s c k); [reflexivity | now apply Hk].
  - apply IH1; [exact Hs|].
    intros i' s' e Hs'. now apply IH2.
  - rewrite (IH1 i s c k k' Hs Hk).
    destruct (rmatch r1 i s c k); [reflexivity | now apply IH2].
  - apply IH; [exact Hs|].
    intros i' s' e Hs'.
    exact (Hk i' s' ((n, String.substring 0 (i' - i) s) :: e) Hs').
  - destruct (Nat.eqb i 0); [now apply Hk | reflexivity].
  - destruct s; [now apply Hk | reflexivity].
Qed.

Lemma plain_brace (a : ascii) :
  no_brace a = true ->
  none_of "[*`~" a = none_of "[{*`~" a /\ one_of "*`~[" a = one_of "{*`~[" a.
Proof.
  destruct a as [[] [] [] [] [] [] [] []]; intros H; try (split; reflexivity);
    discriminate H.
Qed.

Lemma rich_inline_sim :
  exists tail mention,
    inline_re = Alt mention tail /\ sim 2 no_brace rich_re tail
    /\ forall A i s c (k : nat -> string -> caps -> option A),
         every no_brace s = true -> rmatch mention i s c k = None.
Proof.
  eexists. eexists. split; [reflexivity|]. split.
  - unfold rich_re, plus, plus_lazy.
    repeat first
      [ apply sim_alt | apply sim_seq | apply (sim_grp 2 no_brace)
      | apply sim_str | apply sim_quant; intros a Ha ];
      try reflexivity; now apply plain_brace.
  - intros A i s c k Hs. cbn [rmatch].
    destruct s as [|a s]; [reflexivity|].
    simpl in Hs. apply andb_prop in Hs. destruct Hs as [Ha _].
    cbn [strip]. unfold no_brace in Ha. apply negb_true_iff in Ha.
    rewrite Ascii.eqb_sym, Ha. reflexivity.
Qed.

Lemma match_at_rich (i : nat) (s : string) :
  every no_brace s = true ->
  match_at inline_re i s = option_map (shift_result 2) (match_at rich_re i s).
Proof.
  intros Hs. destruct rich_inline_sim as (tail & mention & E & Hsim & Hm).
  unfold match_at. rewrite E. cbn [rmatch]. rewrite (Hm _ _ _ _ _ Hs).
  apply (rmatch_sim (shift_result 2) 2 no_brace rich_re tail Hsim i s []);
    [exact Hs | reflexivity].
Qed.

Lemma exec_rich (s : string) :
  forall i, every no_brace s = true ->
    exec inline_re i s = option_map (shift_result 2) (exec rich_re i s).
Proof.
  induction s as [|a s IH]; intros i Hs; cbn [exec];
    rewrite (match_at_rich i _ Hs);
    destruct (match_at rich_re i _); try reflexivity.
  simpl in Hs. apply andb_prop in Hs. now apply IH.
Qed.

Lemma cap_shift (n d : nat) (c : caps) :
  cap (n + d) (shift_caps d c) = cap n c.
Proof.
  induction c as [|[m t] c IH]; [reflexivity|].
  cbn [shift_caps map cap fst snd]. fold (shift_caps d c).
  destruct (Nat.eqb n m) eqn:E.
  - apply Nat.eqb_eq in E. subst m. now rewrite Nat.eqb_refl.
  - apply Nat.eqb_neq in E.
    destruct (Nat.eqb (n + d) (m + d)) eqn:E'; [|exact IH].
    apply Nat.eqb_eq in E'. lia.
Qed.

Lemma cap_below (n d : nat) (c : caps) :
  n < d -> cap n (shift_caps d c) = None.
Proof.
  intros H. induction c as [|[m t] c IH]; [reflexivity|].
  cbn [shift_caps map cap fst snd]. fold (shift_caps d c).
  destruct (Nat.eqb n (m + d)) eqn:E; [|exact IH].
  apply Nat.eqb_eq in E. lia.
Qed.

Lemma item_of_shift (c : caps) : item_of (shift_caps 2 c) = rich_item_of c.
Proof.
  unfold item_of, rich_item_of.
  rewrite (cap_below 1 2 c) by lia.
  rewrite (cap_shift 1 2 c : cap 3 _ = _), (cap_shift 2 2 c : cap 4 _ = _),
    (cap_shift 3 2 c : cap 5 _ = _), (cap_shift 4 2 c : cap 6 _ = _),
    (cap_shift 5 2 c : cap 7 _ = _), (cap_shift 6 2 c : cap 8 _ = _),
    (cap_shift 7 2 c : cap 9 _ = _).
  now destruct (cap 2 (shift_caps 2 c)).
Qed.

Lemma loops_agree (fuel : nat) :
  forall (i : nat) (s : string) (items : list RichTextInput),
    every no_brace s = true ->
    inline_loop fuel i s items = rich_loop fuel i s items.
Proof.
  induction fuel as [|fuel IH]; intros i s items Hs; [reflexivity|].
  rewrite inline_loop_S, rich_loop_S, (exec_rich s i Hs).
  destruct (exec rich_re i s) as [m|] eqn:E; [|reflexivity].
  cbn [option_map shift_result m_end m_rest m_caps].
  rewrite item_of_shift.
  destruct (m_end m <=? i); [reflexivity|].
  apply IH.
  assert (Hrest : forall s i m, every no_brace s = true ->
            exec rich_re i s = Some m -> every no_brace (m_rest m) = true).
  { clear. induction s as [|a s IHs]; intros i m Hs E; cbn [exec] in E.
    - discriminate E.
    - destruct (match_at rich_re i (String a s)) as [m'|] eqn:Em.
      + inversion E; subst m'. apply rich_match_text in Em.
        destruct Em as (matched & Em & _). rewrite Em in Hs.
        now apply every_append_inv in Hs.
      + simpl in Hs. apply andb_prop in Hs. destruct Hs as [_ Hs].
        now apply (IHs (S i)). }
  now apply (Hrest s i).
Qed.

(** X16. On a text without an opening brace the inline parser of the block
    tools and the one of the decoder build the same runs; on the empty text
    the first returns one empty run and the second none. *)
Theorem inline_parsers_agree (text : string) :
  every no_brace text = true ->
  parseInlineToRichText text
  = (if truthy text then parseInlineMarkdown text else Some [text_input ""]).
Proof.
  intros H. destruct text as [|a text]; [reflexivity|].
  cbn [truthy]. unfold parseInlineToRichText, parseInlineMarkdown.
  now rewrite (loops_agree _ 0 _ [] H).
Qed.

Lemma inline_parsers_agree_witness :
  every no_brace "a **b**" = true
  /\ parseInlineToRichText "a **b**"
     = (if truthy "a **b**" then parseInlineMarkdown "a **b**"
        else Some [text_input ""]).
Proof.
  split; [reflexivity|].
  apply (inline_parsers_agree "a **b**"). reflexivity.
Defined.

(** *** Previews *)

Lemma length_substring (n : nat) (s : string) :
  String.length (String.substring 0 n s) = Nat.min n (String.length s).
Proof.
  revert n. induction s as [|a s IH]; intros [|n]; simpl; try reflexivity.
  now rewrite IH.
Qed.

Lemma substring_prefix (n : nat) (s : string) :
  exists rest, s = String.substring 0 n s ++ rest.
Proof.
  revert n. induction s as [|a s IH]; intros [|n]; simpl.
  - now exists "".
  - now exists "".
  - now exists (String a s).
  - destruct (IH n) as [rest E]. exists rest. now rewrite <- E.
Qed.

(** X17. The preview of a block with rich text has at most 80 characters,
    and that of a code block at most 65 and those of its language. A text
    within the bound is shown whole; a longer one by its first characters
    and three dots. *)
Theorem preview_bounds (block : BlockObjectResponse)
    (rt : list RichTextItemResponse) :
  rich_text_of (payload block) = Some rt ->
  String.length (getBlockPreview block)
  <= String.length (preview_head (payload block))
     + preview_limit (payload block)
  /\ (String.length (richTextToMarkdown rt) <= preview_limit (payload block) ->
      getBlockPreview block
      = preview_head (payload block) ++ richTextToMarkdown rt)
  /\ (preview_limit (payload block) < String.length (richTextToMarkdown rt) ->
      getBlockPreview block
      = preview_head (payload block)
          ++ String.substring 0 (preview_limit (payload block) - 3)
               (richTextToMarkdown rt)
          ++ "...").
Proof.
  destruct block as [bid ch p]. cbn [payload]. intros H.
  set (text := richTextToMarkdown rt).
  assert (Hcut : forall limit keep, keep + 3 = limit ->
            String.length (if limit <? String.length text
                           then String.substring 0 keep text ++ "..."
                           else text) <= limit
            /\ (String.length text <= limit ->
                (if limit <? String.length text
                 then String.substring 0 keep text ++ "..."
                 else text) = text)
            /\ (limit < String.length text ->
                (if limit <? String.length text
                 then String.substring 0 keep text ++ "..."
                 else text) = String.substring 0 keep text ++ "...")).
  { intros limit keep Hk.
    destruct (limit <? String.length text) eqn:E.
    - apply Nat.ltb_lt in E. rewrite length_append, length_substring.
      simpl. repeat split; try lia.
    - apply Nat.ltb_ge in E. repeat split; try lia. }
  destruct p; try discriminate H; inversion H; subst rich_text;
    unfold getBlockPreview; cbn [payload preview_head preview_limit];
    fold text;
    try (destruct (Hcut 80 77 eq_refl) as (H1 & H2 & H3);
         cbn [String.length Nat.add append Nat.sub] in *;
         repeat split; assumption).
  destruct (Hcut 60 57 eq_refl) as (H1 & H2 & H3).
  replace (if truthy language then language else "") with language
    by now destruct language.
  repeat split.
  - rewrite !length_append in *. simpl String.length. simpl in H1. lia.
  - intros Hle. now rewrite (H2 Hle), !append_assoc.
  - intros Hlt. rewrite (H3 Hlt). now rewrite !append_assoc.
Qed.

Lemma preview_bounds_witness :
  rich_text_of
    (payload (mkBlock "b1" false
                (Code [TextItem "x" no_annotations None] "c")))
  = Some [TextItem "x" no_annotations None]
  /\ String.length
       (getBlockPreview
          (mkBlock "b1" false (Code [TextItem "x" no_annotations None] "c")))
     <= String.length (preview_head
                         (Code [TextItem "x" no_annotations None] "c"))
        + preview_limit (Code [TextItem "x" no_annotations None] "c").
Proof.
  split; [reflexivity|].
  apply (preview_bounds
           (mkBlock "b1" false (Code [TextItem "x" no_annotations None] "c"))
           [TextItem "x" no_annotations None]).
  reflexivity.
Defined.

(** *** Batches *)

Lemma slice_from {X : Type} (i size : nat) (arr : list X) :
  slice i (i + size) arr = firstn size (skipn i arr).
Proof. unfold slice. now replace (i + size - i) with size by lia. Qed.

Lemma skipn_add {X : Type} (i size : nat) (arr : list X) :
  skipn (i + size) arr = skipn size (skipn i arr).
Proof. rewrite skipn_skipn. f_equal. lia. Qed.

Section InsertFacts.
Variable append_settles : nat -> list BlockInput -> option nat.

Lemma results_of_snoc (sent : list (list BlockInput))
    (batch : list BlockInput) :
  forall i,
    results_of append_settles i (sent ++ [batch])%list
    = results_of append_settles i sent
      + match append_settles (i + 50 * List.length sent) batch with
        | Some n => n
        | None => 0
        end.
Proof.
  induction sent as [|b sent IH]; intros i.
  - simpl. now rewrite !Nat.add_0_r.
  - cbn [app results_of List.length]. rewrite IH.
    replace (i + 50 + 50 * List.length sent)
      with (i + 50 * S (List.length sent)) by lia.
    lia.
Qed.

Lemma nth_snoc {X : Type} (l : list X) (x d : X) (j : nat) :
  j < S (List.length l) ->
  nth j (l ++ [x])%list d = if j =? List.length l then x else nth j l d.
Proof.
  intros Hj. destruct (j =? List.length l) eqn:E.
  - apply Nat.eqb_eq in E. subst j. apply nth_middle.
  - apply Nat.eqb_neq in E. apply app_nth1. lia.
Qed.

(** The loop from the batch of number [List.length sent] on. *)
Lemma insert_loop_sent (newBlocks : list BlockInput) (fuel : nat) :
  forall (createdCount : nat) (sent : list (list BlockInput)),
    List.length newBlocks + 50 <= 50 * List.length sent + 50 * fuel ->
    (forall j, j < List.length sent ->
       nth j sent [] = slice (50 * j) (50 * j + 50) newBlocks
       /\ 50 * j < List.length newBlocks
       /\ append_settles (50 * j) (nth j sent []) <> None) ->
    createdCount = results_of append_settles 0 sent ->
    exists sent' outcome,
      insert_loop append_settles fuel (50 * List.length sent) newBlocks
        createdCount sent = Some (sent', outcome)
      /\ (forall j, j < List.length sent' ->
            nth j sent' [] = slice (50 * j) (50 * j + 50) newBlocks
            /\ 50 * j < List.length newBlocks)
      /\ (forall j, S j < List.length sent' ->
            append_settles (50 * j) (nth j sent' []) <> None)
      /\ match outcome with
         | Some created =>
             List.length newBlocks <= 50 * List.length sent'
             /\ (forall j, j < List.length sent' ->
                   append_settles (50 * j) (nth j sent' []) <> None)
             /\ created = results_of append_settles 0 sent'
         | None =>
             exists earlier batch,
               sent' = (earlier ++ [batch])%list
               /\ append_settles (50 * List.length earlier) batch = None
         end.
Proof.
  induction fuel as [|fuel IH]; intros createdCount sent Hfuel Hsent Hc.
  - exfalso. destruct sent as [|b sent]; cbn [List.length] in *; [lia|].
    destruct (Hsent (List.length sent) ltac:(lia)) as (_ & H & _). lia.
  - cbn [insert_loop].
    destruct (50 * List.length sent <? List.length newBlocks) eqn:E.
    + apply Nat.ltb_lt in E.
      set (batch := slice (50 * List.length sent)
                      (50 * List.length sent + 50) newBlocks).
      assert (Hnext : forall j, j < List.length (sent ++ [batch])%list ->
                nth j (sent ++ [batch])%list []
                = slice (50 * j) (50 * j + 50) newBlocks
                /\ 50 * j < List.length newBlocks).
      { intros j Hj. rewrite length_app in Hj. cbn [List.length] in Hj.
        rewrite nth_snoc by lia.
        destruct (j =? List.length sent) eqn:Ej.
        - apply Nat.eqb_eq in Ej. subst j. split; [reflexivity | exact E].
        - apply Nat.eqb_neq in Ej.
          destruct (Hsent j ltac:(lia)) as (H1 & H2 & _). now split. }
      assert (Hdone : forall j, j < List.length sent ->
                append_settles (50 * j) (nth j (sent ++ [batch])%list []) <> None).
      { intros j Hj. rewrite app_nth1 by exact Hj.
        now destruct (Hsent j Hj) as (_ & _ & H3). }
      destruct (append_settles (50 * List.length sent) batch) as [n|] eqn:Ea.
      * replace (50 * List.length sent + 50)
          with (50 * List.length (sent ++ [batch])%list)
          by (rewrite length_app; cbn [List.length]; lia).
        apply IH.
        -- rewrite length_app. cbn [List.length]. lia.
        -- intros j Hj. destruct (Hnext j Hj) as [H1 H2].
           split; [exact H1|]. split; [exact H2|].
           rewrite length_app in Hj. cbn [List.length] in Hj.
           destruct (Nat.eq_dec j (List.length sent)) as [->|Hne].
           ++ rewrite nth_middle. fold batch. congruence.
           ++ apply Hdone. lia.
        -- rewrite results_of_snoc. cbn [Nat.add]. rewrite Ea. now rewrite Hc.
      * exists (sent ++ [batch])%list, None.
        split; [reflexivity|]. split; [exact Hnext|]. split.
        -- intros j Hj. rewrite length_app in Hj. cbn [List.length] in Hj.
           apply Hdone. lia.
        -- exists sent, batch. now split.
    + apply Nat.ltb_ge in E. exists sent, (Some createdCount).
      split; [reflexivity|]. split.
      * intros j Hj. destruct (Hsent j Hj) as (H1 & H2 & _). now split.
      * split.
        -- intros j Hj. now destruct (Hsent j ltac:(lia)) as (_ & _ & H3).
        -- split; [exact E|]. split; [|exact Hc].
           intros j Hj. now destruct (Hsent j Hj) as (_ & _ & H3).
Qed.

Lemma firstn_plus {X : Type} (a b : nat) (l : list X) :
  firstn (a + b) l = (firstn a l ++ firstn b (skipn a l))%list.
Proof.
  revert l. induction a as [|a IH]; intros l; [reflexivity|].
  destruct l as [|x l]; simpl.
  - now rewrite firstn_nil.
  - now rewrite IH.
Qed.

(** Batches that are the slices of a list in order make up a prefix of
    the list. *)
Lemma concat_slices {X : Type} (l : list X) (sent : list (list X)) :
  (forall j, j < List.length sent ->
     nth j sent [] = slice (50 * j) (50 * j + 50) l) ->
  concat sent = firstn (50 * List.length sent) l.
Proof.
  induction sent as [|batch sent IH] using rev_ind; intros H.
  - reflexivity.
  - rewrite concat_app, length_app. cbn [concat List.length].
    rewrite app_nil_r.
    replace (50 * (List.length sent + 1)) with (50 * List.length sent + 50)
      by lia.
    rewrite firstn_plus. f_equal.
    + apply IH. intros j Hj.
      rewrite <- (H j) by (rewrite length_app; cbn [List.length]; lia).
      symmetry. now apply app_nth1.
    + pose proof (H (List.length sent)) as Hlast.
      rewrite nth_middle in Hlast. rewrite Hlast.
      * apply slice_from.
      * rewrite length_app. cbn [List.length]. lia.
Qed.

Lemma length_slice {X : Type} (i : nat) (l : list X) :
  List.length (slice i (i + 50) l) = Nat.min 50 (List.length l - i).
Proof. now rewrite slice_from, length_firstn, length_skipn. Qed.

(** When every call answers with one result for each block of its batch,
    the results add up to the number of the blocks sent. *)
Lemma results_of_length (sent : list (list BlockInput)) :
  (forall i batch n, append_settles i batch = Some n ->
                     n = List.length batch) ->
  forall i,
    (forall j, j < List.length sent ->
       append_settles (i + 50 * j) (nth j sent []) <> None) ->
    results_of append_settles i sent = List.length (concat sent).
Proof.
  intros Hn. induction sent as [|batch sent IH]; intros i Hall.
  - reflexivity.
  - cbn [results_of concat]. rewrite length_app.
    pose proof (Hall 0 ltac:(cbn [List.length]; lia)) as H0.
    cbn [nth] in H0. rewrite Nat.mul_0_r, Nat.add_0_r in H0.
    destruct (append_settles i batch) as [n|] eqn:E; [|congruence].
    rewrite (Hn _ _ _ E). f_equal. apply IH.
    intros j Hj. pose proof (Hall (S j) ltac:(cbn [List.length]; lia)) as H.
    cbn [nth] in H.
    now replace (i + 50 + 50 * j) with (i + 50 * S j) by lia.
Qed.

(** X18. The insert loop of [replace_page_content] returns, whatever the
    calls settle as.  The batches it sent are the slices of the new blocks
    from 0, 50, 100 and so on, in this order: none is empty, every one but
    the last has exactly 50 blocks, and together they are the first blocks
    of the list.  Every call but the last was fulfilled.  With a count of
    created blocks, every call was fulfilled, the batches are all the new
    blocks, each once, and the count is the sum of the results of the
    calls: the number of the new blocks when every call answers with one
    result for each block.  Otherwise the last call was rejected, and the
    blocks behind its batch were not sent. *)
Theorem insert_batches_sent (newBlocks : list BlockInput) :
  exists sent outcome,
    insert_batches append_settles newBlocks = Some (sent, outcome)
    /\ concat sent = firstn (50 * List.length sent) newBlocks
    /\ (forall j, j < List.length sent ->
          nth j sent [] = slice (50 * j) (50 * j + 50) newBlocks
          /\ 1 <= List.length (nth j sent []) <= 50)
    /\ (forall j, S j < List.length sent ->
          List.length (nth j sent []) = 50
          /\ append_settles (50 * j) (nth j sent []) <> None)
    /\ match outcome with
       | Some createdCount =>
           concat sent = newBlocks
           /\ (forall j, j < List.length sent ->
                 append_settles (50 * j) (nth j sent []) <> None)
           /\ createdCount = results_of append_settles 0 sent
           /\ ((forall i batch n, append_settles i batch = Some n ->
                                  n = List.length batch) ->
               createdCount = List.length newBlocks)
       | None =>
           exists earlier batch,
             sent = (earlier ++ [batch])%list
             /\ append_settles (50 * List.length earlier) batch = None
       end.
Proof.
  destruct (insert_loop_sent newBlocks (S (List.length newBlocks)) 0 [])
    as (sent & outcome & Hrun & Hslices & Hdone & Hout).
  - cbn [List.length]. lia.
  - intros j Hj. cbn [List.length] in Hj. lia.
  - reflexivity.
  - exists sent, outcome.
    assert (Hcat : concat sent = firstn (50 * List.length sent) newBlocks).
    { apply concat_slices. intros j Hj. now destruct (Hslices j Hj). }
    split; [exact Hrun|]. split; [exact Hcat|]. split; [|split].
    + intros j Hj. destruct (Hslices j Hj) as [H1 H2].
      split; [exact H1|]. rewrite H1, length_slice. lia.
    + intros j Hj. split; [|now apply Hdone].
      destruct (Hslices j ltac:(lia)) as [H1 _].
      destruct (Hslices (S j) Hj) as [_ H2].
      rewrite H1, length_slice. lia.
    + destruct outcome as [created|]; [|exact Hout].
      destruct Hout as (Hall & Hful & Hc).
      assert (Hnew : concat sent = newBlocks).
      { rewrite Hcat. now apply firstn_all2. }
      split; [exact Hnew|]. split; [exact Hful|]. split; [exact Hc|].
      intros Hn. rewrite Hc, <- Hnew.
      now apply results_of_length.
Qed.

End InsertFacts.

Lemma insert_batches_sent_witness :
  (forall (i : nat) (batch : list BlockInput) (n : nat),
     Some (List.length batch) = Some n -> n = List.length batch)
  /\ exists sent,
       insert_batches (fun _ batch => Some (List.length batch))
         (List.repeat In_divider 120)
       = Some (sent, Some 120)
       /\ concat sent = List.repeat In_divider 120.
Proof.
  split; [intros i batch n H; now inversion H|].
  destruct (insert_batches_sent (fun _ batch => Some (List.length batch))
              (List.repeat In_divider 120))
    as (sent & outcome & Hrun & _ & _ & _ & Hout).
  destruct outcome as [createdCount|].
  - destruct Hout as (Hall & _ & _ & Hcount).
    exists sent. split; [|exact Hall].
    rewrite Hrun, Hcount; [reflexivity|].
    intros i batch n H. now inversion H.
  - exfalso. vm_compute in Hrun. discriminate Hrun.
Defined.

(** With 120 blocks and a second call that is rejected, two batches of 50
    are sent and the last 20 blocks are not. *)
Lemma insert_stops_at_rejection :
  insert_batches (fun i _ => if i =? 50 then None else Some 50)
    (List.repeat In_divider 120)
  = Some ([List.repeat In_divider 50; List.repeat In_divider 50], None).
Proof. reflexivity. Qed.

Section DeleteFacts.
Variable delete_settles : nat -> string -> bool.

Lemma tally_rejected (batch : list string) :
  forall (i deleted : nat) (failed : list string),
    tally delete_settles i batch deleted failed
    = (deleted + (List.length batch
                  - List.length (rejected delete_settles i batch)),
       (failed ++ rejected delete_settles i batch)%list)
    /\ List.length (rejected delete_settles i batch) <= List.length batch.
Proof.
  induction batch as [|b batch IH]; intros i deleted failed.
  - simpl. now rewrite Nat.add_0_r, app_nil_r.
  - cbn [tally rejected]. destruct (delete_settles i b).
    + destruct (IH (S i) (S deleted) failed) as [E Hle]. rewrite E.
      split; [|cbn [List.length]; lia].
      f_equal. cbn [List.length]. lia.
    + destruct (IH (S i) deleted (failed ++ [b])%list) as [E Hle].
      rewrite E. split; [|cbn [List.length]; lia].
      rewrite <- app_assoc. reflexivity.
Qed.

Lemma rejected_app (a b : list string) :
  forall i,
    rejected delete_settles i (a ++ b)
    = (rejected delete_settles i a
       ++ rejected delete_settles (i + List.length a) b)%list.
Proof.
  induction a as [|x a IH]; intros i.
  - simpl. now rewrite Nat.add_0_r.
  - cbn [app rejected List.length]. rewrite (IH (S i)).
    replace (S i + List.length a) with (i + S (List.length a)) by lia.
    now destruct (delete_settles i x).
Qed.

Lemma rejected_batch (i : nat) (l : list string) :
  (rejected delete_settles i (firstn 10 l)
   ++ rejected delete_settles (i + 10) (skipn 10 l))%list
  = rejected delete_settles i l.
Proof.
  rewrite <- (firstn_skipn 10 l) at 3. rewrite rejected_app.
  f_equal. rewrite length_firstn.
  destruct (Nat.le_gt_cases 10 (List.length l)) as [H|H].
  - now rewrite Nat.min_l by exact H.
  - rewrite skipn_all2 by lia. reflexivity.
Qed.

Lemma delete_loop_rejected (block_ids : list string) (fuel : nat) :
  forall (i deleted : nat) (failed : list string),
    List.length block_ids - i < fuel ->
    delete_loop delete_settles fuel i block_ids deleted failed
    = Some (deleted
            + (List.length (skipn i block_ids)
               - List.length (rejected delete_settles i (skipn i block_ids))),
            (failed ++ rejected delete_settles i (skipn i block_ids))%list).
Proof.
  induction fuel as [|fuel IH]; intros i deleted failed Hfuel; [lia|].
  cbn [delete_loop]. destruct (i <? List.length block_ids) eqn:E.
  - apply Nat.ltb_lt in E. rewrite slice_from.
    destruct (tally_rejected (firstn 10 (skipn i block_ids)) i deleted failed)
      as [Et Hle].
    rewrite Et. rewrite IH by lia.
    rewrite skipn_add, <- app_assoc, rejected_batch.
    f_equal. f_equal.
    pose proof (rejected_batch i (skipn i block_ids)) as Hr.
    apply (f_equal (@List.length string)) in Hr. rewrite length_app in Hr.
    destruct (tally_rejected (skipn 10 (skipn i block_ids)) (i + 10) 0 [])
      as [_ Hle2].
    pose proof (firstn_skipn 10 (skipn i block_ids)) as Hs.
    apply (f_equal (@List.length string)) in Hs. rewrite length_app in Hs.
    lia.
  - apply Nat.ltb_ge in E. rewrite skipn_all2 by exact E.
    simpl. now rewrite Nat.add_0_r, app_nil_r.
Qed.

(** X19. The loop that deletes blocks in batches of 10 calls for every
    identifier once and returns: the identifiers it reports as failed are
    those whose call was rejected, in their order, and the count of the
    deleted ones and theirs add up to the number of identifiers. *)
Theorem delete_accounting (block_ids : list string) :
  exists deleted failed,
    batch_delete delete_settles block_ids = Some (deleted, failed)
    /\ failed = rejected delete_settles 0 block_ids
    /\ deleted + List.length failed = List.length block_ids.
Proof.
  unfold batch_delete. rewrite delete_loop_rejected by lia.
  cbn [skipn Nat.add app].
  destruct (tally_rejected block_ids 0 0 []) as [_ Hle].
  eexists. eexists. split; [reflexivity|]. split; [reflexivity|]. lia.
Qed.

End DeleteFacts.

(** *** Placeholders and images *)

Lemma trimEnd_closed (s t : string) :
  trimEnd t = t -> t <> "" -> trimEnd (s ++ t) = s ++ t.
Proof.
  intros Ht Hne. induction s as [|a s IH]; [exact Ht|].
  cbn [append trimEnd]. rewrite IH.
  destruct (s ++ t) eqn:E; [|reflexivity].
  destruct s; simpl in E; [congruence | discriminate].
Qed.

Lemma trimEnd_pad (t ws : string) :
  trimEnd t = t -> t <> "" -> every is_space ws = true ->
  trimEnd (t ++ ws) = t.
Proof.
  intros Ht Hne Hws. induction t as [|a t IH] in Ht, Hne |- *; [congruence|].
  cbn [append trimEnd].
  destruct t as [|b t].
  - cbn [append]. rewrite (trimEnd_spaces ws Hws).
    simpl in Ht. destruct (is_space a); [discriminate | reflexivity].
  - assert (Hb : trimEnd (String b t) = String b t).
    { cbn [trimEnd] in Ht. cbn [trimEnd].
      destruct (trimEnd t) as [|x y] eqn:E.
      - destruct (is_space b) eqn:Eb.
        + destruct (is_space a); discriminate.
        + now inversion Ht.
      - now inversion Ht. }
    rewrite (IH Hb); [reflexivity | discriminate].
Qed.

(** A placeholder between white space is trimmed to itself. *)
Lemma trim_placeholder (pad head body ws : string) :
  every is_space pad = true -> every is_space ws = true ->
  trim (pad ++ ("{{" ++ head) ++ body ++ "}}" ++ ws)
  = ("{{" ++ head) ++ body ++ "}}".
Proof.
  intros Hp Hw. unfold trim. rewrite (trimStart_pad pad _ Hp).
  assert (E : ("{{" ++ head) ++ body ++ "}}" ++ ws
              = (("{{" ++ head) ++ body ++ "}}") ++ ws)
    by now rewrite !append_assoc.
  rewrite E.
  assert (Hs : trimStart ((("{{" ++ head) ++ body ++ "}}") ++ ws)
               = (("{{" ++ head) ++ body ++ "}}") ++ ws) by reflexivity.
  rewrite Hs.
  apply trimEnd_pad; try assumption.
  - rewrite <- append_assoc.
    apply trimEnd_closed; [reflexivity | discriminate].
  - cbn [append]. discriminate.
Qed.

Lemma placeholder_line_head (pad rest : string) :
  every is_space pad = true ->
  match_ heading_re (pad ++ String "{" rest) = None
  /\ match_ todo_re (pad ++ String "{" rest) = None
  /\ match_ bullet_re (pad ++ String "{" rest) = None
  /\ match_ numbered_re (pad ++ String "{" rest) = None
  /\ match_ quote_re (pad ++ String "{" rest) = None.
Proof.
  intros Hp. destruct pad as [|a pad].
  - cbn [append]. unfold match_, heading_re, todo_re, bullet_re, numbered_re,
      quote_re. rewrite !exec_anchored. repeat split; reflexivity.
  - simpl in Hp. apply andb_prop in Hp. destruct Hp as [Ha _].
    cbn [append].
    destruct (indented_unanchored a (pad ++ String "{" rest) Ha)
      as (H1 & H2 & H3 & H4 & H5 & _).
    now repeat split.
Qed.

Lemma str_seq {A : Type} (lit : string) (r : re) (i : nat) (s : string)
    (c : caps) (k : nat -> string -> caps -> option A) :
  rmatch (Str lit +> r) i (lit ++ s) c k
  = rmatch r (i + String.length lit) s c k.
Proof. cbn [rmatch]. now rewrite strip_append. Qed.

(** A greedy quantifier in a group takes the whole run of its class when
    the rest of the expression matches behind it. *)
Lemma grp_quant_max {A : Type} (n lo : nat) (hi : option nat)
    (f : ascii -> bool) (r : re) (i : nat) (p s : string) (c : caps)
    (k : nat -> string -> caps -> option A) (x : A) :
  stops f s = true -> every f p = true ->
  lo <= String.length p ->
  match hi with Some h => String.length p <= h | None => True end ->
  rmatch r (i + String.length p) s ((n, p) :: c) k = Some x ->
  rmatch (Grp n (Quant true lo hi f) +> r) i (p ++ s) c k = Some x.
Proof.
  intros Hs Hp Hlo Hhi Hk. cbn [rmatch].
  apply quant_greedy_max; try assumption.
  replace (i + String.length p - i) with (String.length p) by lia.
  now rewrite substring_append.
Qed.

Lemma opt_take {A : Type} (r1 r2 : re) (i : nat) (s : string) (c : caps)
    (k : nat -> string -> caps -> option A) (x : A) :
  rmatch (r1 +> r2) i s c k = Some x ->
  rmatch (Opt r1 +> r2) i s c k = Some x.
Proof. cbn [rmatch]. now intros ->. Qed.

Lemma opt_skip {A : Type} (r1 r2 : re) (i : nat) (s : string) (c : caps)
    (k : nat -> string -> caps -> option A) :
  rmatch (r1 +> r2) i s c k = None ->
  rmatch (Opt r1 +> r2) i s c k = rmatch r2 i s c k.
Proof. cbn [rmatch]. now intros ->. Qed.

(** The embed expression on a placeholder. *)
Lemma embed_match (url : string) :
  url <> "" -> every (none_of "}") url = true ->
  match_ embed_re ("{{embed:" ++ url ++ "}}") = Some [(1, url)].
Proof.
  intros Hne Hu. unfold match_, embed_re. rewrite exec_anchored.
  enough (H : match_at
                (Bos +> Str "{{embed:" +> Grp 1 (plus (none_of "}"))
                     +> Str "}}" +> Eos)
                0 ("{{embed:" ++ url ++ "}}")
              = Some (mkResult 0 (8 + String.length url + 2) ""
                        [(1, url)]))
    by now rewrite H.
  unfold match_at.
  cbn [rmatch Nat.eqb plus append strip Ascii.eqb Bool.eqb String.length
       Nat.add].
  apply quant_greedy_max; try assumption; try reflexivity.
  - destruct url; [congruence | simpl; lia].
  - cbn [rmatch strip Ascii.eqb Bool.eqb String.length].
    replace (8 + String.length url - 8) with (String.length url) by lia.
    now rewrite substring_append.
Qed.

(** The bookmark expression on a placeholder, with a caption or
    without. *)
Lemma bookmark_match (url : string) (caption : option string) :
  url <> "" -> every (none_of "|}") url = true ->
  match caption with
  | Some c => c <> "" /\ every (none_of "}") c = true
  | None => True
  end ->
  match_ bookmark_re ("{{bookmark:" ++ url ++ caption_part caption ++ "}}")
  = Some (match caption with
          | Some c => [(2, c); (1, url)]
          | None => [(1, url)]
          end).
Proof.
  intros Hne Hu Hc. unfold match_, bookmark_re. rewrite exec_anchored.
  enough (H : exists e,
            match_at
              (Bos +> Str "{{bookmark:" +> Grp 1 (plus (none_of "|}"))
                   +> Opt (Str "|" +> Grp 2 (plus (none_of "}")))
                   +> Str "}}" +> Eos)
              0 ("{{bookmark:" ++ url ++ caption_part caption ++ "}}")
            = Some (mkResult 0 e ""
                      match caption with
                      | Some c => [(2, c); (1, url)]
                      | None => [(1, url)]
                      end))
    by (destruct H as [e H]; now rewrite H).
  unfold match_at.
  change (rmatch (Bos +> ?r) 0 ?s [] ?k) with (rmatch r 0 s [] k).
  exists (11 + String.length url + String.length (caption_part caption) + 2).
  rewrite str_seq. unfold plus.
  apply grp_quant_max; try assumption; try exact I.
  - destruct caption; reflexivity.
  - destruct url; [congruence | simpl; lia].
  - destruct caption as [c|].
    + destruct Hc as [Hcne Hc]. apply opt_take.
      change (caption_part (Some c) ++ "}}") with ("|" ++ c ++ "}}").
      change ((Str "|" +> Grp 2 (Quant true 1 None (none_of "}")))
                +> Str "}}" +> Eos)
        with (Seq (Seq (Str "|") (Grp 2 (Quant true 1 None (none_of "}"))))
                (Str "}}" +> Eos)).
      cbn [rmatch].
      change (strip "|" ("|" ++ c ++ "}}")) with (Some (c ++ "}}")).
      cbv iota.
      apply quant_greedy_max; try assumption; try reflexivity.
      * destruct c; [congruence | simpl; lia].
      * replace (0 + String.length "{{bookmark:" + String.length url
                 + String.length "|" + String.length c
                 - (0 + String.length "{{bookmark:" + String.length url
                    + String.length "|"))
          with (String.length c) by lia.
        rewrite substring_append. cbn [strip Ascii.eqb Bool.eqb].
        cbn [caption_part append String.length].
        repeat first [lia | progress f_equal].
    + rewrite opt_skip by reflexivity.
      cbn [caption_part append rmatch strip Ascii.eqb Bool.eqb
           String.length].
      repeat first [lia | progress f_equal].
Qed.

(** The image expression on an image line, whatever follows the closing
    parenthesis. *)
Lemma image_match (alt url rest : string) :
  every (none_of "]") alt = true ->
  url <> "" -> every (none_of ")") url = true ->
  match_ image_re ("![" ++ alt ++ "](" ++ url ++ ")" ++ rest)
  = Some [(2, url); (1, alt)].
Proof.
  intros Ha Hne Hu. unfold match_, image_re. rewrite exec_anchored.
  enough (H : match_at
                (Bos +> Str "![" +> Grp 1 (star (none_of "]")) +> Str "]("
                     +> Grp 2 (plus (none_of ")")) +> Str ")")
                0 ("![" ++ alt ++ "](" ++ url ++ ")" ++ rest)
              = Some (mkResult 0
                        (2 + String.length alt + 2 + String.length url + 1)
                        rest [(2, url); (1, alt)]))
    by now rewrite H.
  unfold match_at.
  cbn [rmatch Nat.eqb plus star append strip Ascii.eqb Bool.eqb String.length
       Nat.add].
  apply quant_greedy_max; try assumption; try reflexivity; try lia.
  cbn [rmatch strip Ascii.eqb Bool.eqb String.length].
  replace (2 + String.length alt - 2) with (String.length alt) by lia.
  rewrite substring_append.
  apply quant_greedy_max; try assumption; try reflexivity.
  - destruct url; [congruence | simpl; lia].
  - cbn [rmatch strip Ascii.eqb Bool.eqb String.length].
    replace (2 + String.length alt + 2 + String.length url
             - (2 + String.length alt + 2))
      with (String.length url) by lia.
    now rewrite substring_append.
Qed.

Lemma placeholder_not_rule (head body : string) :
  String.eqb (("{{" ++ head) ++ body ++ "}}") "" = false
  /\ startsWith "```" (("{{" ++ head) ++ body ++ "}}") = false
  /\ test divider_re (("{{" ++ head) ++ body ++ "}}") = false.
Proof.
  unfold test, divider_re. rewrite exec_anchored. repeat split; reflexivity.
Qed.

(** What [embed_line] below states, as the later proofs use it. *)
Lemma embed_line_fact (lines : list string) (i : nat) (pad url ws : string) :
  every is_space pad = true -> every is_space ws = true ->
  url <> "" -> every (none_of "}") url = true ->
  loop_body lines i (pad ++ "{{embed:" ++ url ++ "}}" ++ ws)
  = Some (S i, [In_embed (trim url)]).
Proof.
  intros Hp Hw Hne Hu.
  pose proof (trim_placeholder pad "embed:" url ws Hp Hw) as Ht.
  destruct (placeholder_not_rule "embed:" url) as (Hb & Hf & Hd).
  destruct (placeholder_line_head pad ("{embed:" ++ url ++ "}}" ++ ws) Hp)
    as (H1 & H2 & H3 & H4 & H5).
  pose proof (embed_match url Hne Hu) as Hm.
  assert (Hk : match_ bookmark_re ("{{embed:" ++ url ++ "}}") = None)
    by (unfold match_, bookmark_re; now rewrite exec_anchored).
  cbn [append] in *.
  unfold loop_body, classify, is_fence, fence.
  rewrite Ht, Hb, Hf, H1, H2, H3, H4, H5, Hd, Hk, Hm.
  reflexivity.
Qed.

(** X20. An embed placeholder, white space around it or not, makes an embed
    block with the trimmed url. *)
Theorem embed_line (lines : list string) (i : nat) (pad url ws : string) :
  every is_space pad = true -> every is_space ws = true ->
  url <> "" -> every (none_of "}") url = true ->
  loop_body lines i (pad ++ "{{embed:" ++ url ++ "}}" ++ ws)
  = Some (S i, [In_embed (trim url)]).
Proof. exact (embed_line_fact lines i pad url ws). Qed.

Lemma embed_line_witness :
  every is_space " " = true /\ every is_space "" = true
  /\ " https://example.com " <> ""
  /\ every (none_of "}") " https://example.com " = true
  /\ loop_body [] 0
       (" " ++ "{{embed:" ++ " https://example.com " ++ "}}" ++ "")
     = Some (1, [In_embed (trim " https://example.com ")]).
Proof.
  split; [reflexivity|]. split; [reflexivity|]. split; [discriminate|].
  split; [reflexivity|].
  apply (embed_line [] 0 " " " https://example.com " "");
    try reflexivity; discriminate.
Defined.

(** What [bookmark_line] below states, as the later proofs use it. *)
Lemma bookmark_line_fact (lines : list string) (i : nat) (pad url ws : string)
    (caption : option string) :
  every is_space pad = true -> every is_space ws = true ->
  url <> "" -> every (none_of "|}") url = true ->
  match caption with
  | Some c => c <> "" /\ every (none_of "}") c = true
  | None => True
  end ->
  loop_body lines i
    (pad ++ "{{bookmark:" ++ (url ++ caption_part caption) ++ "}}" ++ ws)
  = Some (S i,
          [In_bookmark (trim url)
             match caption with
             | Some c => [text_input (trim c)]
             | None => []
             end]).
Proof.
  intros Hp Hw Hne Hu Hc.
  pose proof (trim_placeholder pad "bookmark:" (url ++ caption_part caption)
                ws Hp Hw) as Ht.
  destruct (placeholder_not_rule "bookmark:" (url ++ caption_part caption))
    as (Hb & Hf & Hd).
  destruct (placeholder_line_head pad
              ("{bookmark:" ++ (url ++ caption_part caption) ++ "}}" ++ ws)
              Hp)
    as (H1 & H2 & H3 & H4 & H5).
  pose proof (bookmark_match url caption Hne Hu Hc) as Hm.
  rewrite <- (append_assoc url (caption_part caption) "}}") in Hm.
  cbn [append] in *.
  unfold loop_body, classify, is_fence, fence.
  rewrite Ht, Hb, Hf, H1, H2, H3, H4, H5, Hd, Hm.
  destruct caption as [c|]; unfold group; cbn [cap Nat.eqb]; [|reflexivity].
  destruct Hc as [Hcne _]. destruct c; [congruence | reflexivity].
Qed.

(** X21. A bookmark placeholder makes a bookmark block with the trimmed url,
    and with the trimmed caption as its one run when there is a caption. *)
Theorem bookmark_line (lines : list string) (i : nat) (pad url ws : string)
    (caption : option string) :
  every is_space pad = true -> every is_space ws = true ->
  url <> "" -> every (none_of "|}") url = true ->
  match caption with
  | Some c => c <> "" /\ every (none_of "}") c = true
  | None => True
  end ->
  loop_body lines i
    (pad ++ "{{bookmark:" ++ (url ++ caption_part caption) ++ "}}" ++ ws)
  = Some (S i,
          [In_bookmark (trim url)
             match caption with
             | Some c => [text_input (trim c)]
             | None => []
             end]).
Proof. exact (bookmark_line_fact lines i pad url ws caption). Qed.

Lemma bookmark_line_witness :
  every is_space "" = true /\ every is_space " " = true
  /\ "https://example.com" <> ""
  /\ every (none_of "|}") "https://example.com" = true
  /\ (" a site" <> "" /\ every (none_of "}") " a site" = true)
  /\ loop_body [] 0
       ("" ++ "{{bookmark:"
           ++ ("https://example.com" ++ caption_part (Some " a site"))
           ++ "}}" ++ " ")
     = Some (1, [In_bookmark (trim "https://example.com")
                   [text_input (trim " a site")]]).
Proof.
  split; [reflexivity|]. split; [reflexivity|]. split; [discriminate|].
  split; [reflexivity|]. split; [split; [discriminate | reflexivity]|].
  apply (bookmark_line [] 0 "" "https://example.com" " " (Some " a site"));
    try reflexivity; try discriminate.
  split; [discriminate | reflexivity].
Defined.

Lemma bang_line_head (rest : string) :
  String.eqb (trim (String "!" rest)) "" = false
  /\ is_fence (String "!" rest) = false
  /\ match_ heading_re (String "!" rest) = None
  /\ match_ todo_re (String "!" rest) = None
  /\ match_ bullet_re (String "!" rest) = None
  /\ match_ numbered_re (String "!" rest) = None
  /\ match_ quote_re (String "!" rest) = None
  /\ test divider_re (trim (String "!" rest)) = false
  /\ match_ bookmark_re (trim (String "!" rest)) = None
  /\ match_ embed_re (trim (String "!" rest)) = None.
Proof.
  unfold is_fence. rewrite trim_cons by reflexivity.
  unfold test, match_, heading_re, todo_re, bullet_re, numbered_re, quote_re,
    divider_re, bookmark_re, embed_re.
  rewrite !exec_anchored. repeat split; reflexivity.
Qed.

(** What [image_line] below states, as the later proofs use it. *)
Lemma image_line_fact (lines : list string) (i : nat) (alt url rest : string) :
  every (none_of "]") alt = true ->
  url <> "" -> every (none_of ")") url = true ->
  loop_body lines i ("![" ++ alt ++ "](" ++ url ++ ")" ++ rest)
  = Some (S i,
          [In_image url (if truthy alt then [text_input alt] else [])]).
Proof.
  intros Ha Hne Hu.
  pose proof (image_match alt url rest Ha Hne Hu) as Hm.
  destruct (bang_line_head ("[" ++ alt ++ "](" ++ url ++ ")" ++ rest))
    as (H0 & H1 & H2 & H3 & H4 & H5 & H6 & H7 & H8 & H9).
  cbn [append] in *.
  unfold loop_body, classify.
  rewrite H0, H1, H2, H3, H4, H5, H6, H7, H8, H9, Hm.
  reflexivity.
Qed.

(** X22. A line that starts with an image makes an image block with the url
    between the parentheses and the text between the brackets as caption;
    what follows the closing parenthesis is dropped. *)
Theorem image_line (lines : list string) (i : nat) (alt url rest : string) :
  every (none_of "]") alt = true ->
  url <> "" -> every (none_of ")") url = true ->
  loop_body lines i ("![" ++ alt ++ "](" ++ url ++ ")" ++ rest)
  = Some (S i,
          [In_image url (if truthy alt then [text_input alt] else [])]).
Proof. exact (image_line_fact lines i alt url rest). Qed.

Lemma image_line_witness :
  every (none_of "]") "a cat" = true /\ "cat.png" <> ""
  /\ every (none_of ")") "cat.png" = true
  /\ loop_body [] 0 ("![" ++ "a cat" ++ "](" ++ "cat.png" ++ ")" ++ " tail")
     = Some (1, [In_image "cat.png"
                   (if truthy "a cat" then [text_input "a cat"] else [])]).
Proof.
  split; [reflexivity|]. split; [discriminate|]. split; [reflexivity|].
  apply (image_line [] 0 "a cat" "cat.png" " tail");
    try reflexivity; discriminate.
Defined.


(** *** Documents in parts *)

Lemma decode_loop_fuel (lines : list string) (f1 : nat) :
  forall (f2 i : nat) (acc : list BlockInput),
    List.length lines - i < f1 -> List.length lines - i < f2 ->
    decode_loop f1 lines i acc = decode_loop f2 lines i acc.
Proof.
  induction f1 as [|f1 IH]; intros f2 i acc H1 H2; [lia|].
  destruct f2 as [|f2]; [lia|].
  cbn [decode_loop]. destruct (nth_error lines i) as [line|] eqn:E;
    [|reflexivity].
  destruct (loop_body lines i line) as [[i' pushed]|] eqn:Hb; [|reflexivity].
  apply loop_body_advances in Hb.
  assert (i < List.length lines) by (apply nth_error_Some; congruence).
  apply IH; lia.
Qed.

Lemma decode_loop_acc (lines : list string) (fuel : nat) :
  forall (i : nat) (acc : list BlockInput),
    decode_loop fuel lines i acc
    = option_map (app acc) (decode_loop fuel lines i []).
Proof.
  induction fuel as [|fuel IH]; intros i acc; [reflexivity|].
  cbn [decode_loop]. destruct (nth_error lines i) as [line|];
    [|simpl; now rewrite app_nil_r].
  destruct (loop_body lines i line) as [[i' pushed]|]; [|reflexivity].
  rewrite (IH i' (acc ++ pushed)%list), (IH i' ([] ++ pushed)%list).
  destruct (decode_loop fuel lines i' []); [|reflexivity].
  simpl. now rewrite app_assoc.
Qed.

(** The lines of a code block that is closed do not depend on what follows
    the closing fence. *)
Lemma code_lines_closed (x y : list string) :
  balanced true x = true ->
  code_lines (x ++ y) = code_lines x
  /\ List.length (code_lines x) + 1 <= List.length x
  /\ balanced false (skipn (List.length (code_lines x) + 1) x) = true.
Proof.
  induction x as [|l x IH]; intros H; [discriminate|].
  cbn [balanced] in H. cbn [app code_lines].
  destruct (is_fence l).
  - cbn [List.length Nat.add skipn]. repeat split; [lia | exact H].
  - destruct (IH H) as (E1 & E2 & E3). rewrite E1.
    cbn [List.length Nat.add skipn]. repeat split; [lia | exact E3].
Qed.

(** One turn in a part of the document whose fences are closed does not
    read the lines behind that part. *)
Lemma loop_body_closed (la lb : list string) (i : nat) (line : string) :
  nth_error la i = Some line ->
  balanced false (skipn i la) = true ->
  loop_body (la ++ lb) i line = loop_body la i line
  /\ forall i' pushed,
       loop_body la i line = Some (i', pushed) ->
       i' <= List.length la /\ balanced false (skipn i' la) = true.
Proof.
  intros E Hbal.
  assert (Hi : i < List.length la) by (apply nth_error_Some; congruence).
  rewrite (skipn_nth la i line E) in Hbal. cbn [balanced] in Hbal.
  unfold loop_body.
  destruct (String.eqb (trim line) "") eqn:Eb.
  { assert (Hf : is_fence line = false).
    { destruct (is_fence line) eqn:Ef; [|reflexivity].
      apply fence_not_blank in Ef. congruence. }
    rewrite Hf in Hbal. split; [reflexivity|].
    intros i' pushed H. inversion H; subst. split; [lia | exact Hbal]. }
  destruct (is_fence line).
  - replace (skipn (S i) (la ++ lb)) with (skipn (S i) la ++ lb)%list
      by (rewrite skipn_app;
          now replace (S i - List.length la) with 0 by lia).
    destruct (code_lines_closed (skipn (S i) la) lb Hbal) as (E1 & E2 & E3).
    rewrite E1. split; [reflexivity|].
    intros i' pushed H.
    assert (Hi' : i' = S i + List.length (code_lines (skipn (S i) la)) + 1)
      by congruence.
    rewrite Hi'. clear H Hi'.
    rewrite length_skipn in E2. split; [lia|].
    rewrite skipn_skipn in E3.
    now replace (S i + List.length (code_lines (skipn (S i) la)) + 1)
      with (List.length (code_lines (skipn (S i) la)) + 1 + S i) by lia.
  - split; [reflexivity|].
    intros i' pushed H.
    destruct (classify line); [|discriminate].
    inversion H; subst. split; [lia | exact Hbal].
Qed.

(** One turn behind a prefix of the document is the turn on the rest, with
    the cursor moved. *)
Lemma loop_body_shift (la lb : list string) (j : nat) (line : string) :
  loop_body (la ++ lb) (List.length la + j) line
  = option_map (fun r => (List.length la + fst r, snd r))
      (loop_body lb j line).
Proof.
  unfold loop_body.
  destruct (String.eqb (trim line) "").
  { simpl. now rewrite Nat.add_succ_r. }
  destruct (is_fence line).
  { replace (skipn (S (List.length la + j)) (la ++ lb))
      with (skipn (S j) lb).
    - cbn [option_map fst snd]. f_equal. f_equal. lia.
    - replace (S (List.length la + j)) with (List.length la + S j) by lia.
      rewrite skipn_app. rewrite (skipn_all2 la) by lia. cbn [app].
      now replace (List.length la + S j - List.length la) with (S j) by lia. }
  destruct (classify line); simpl; [|reflexivity].
  now rewrite Nat.add_succ_r.
Qed.

Lemma decode_loop_shift (la lb : list string) (fuel : nat) :
  forall (j : nat) (acc : list BlockInput),
    decode_loop fuel (la ++ lb) (List.length la + j) acc
    = decode_loop fuel lb j acc.
Proof.
  induction fuel as [|fuel IH]; intros j acc; [reflexivity|].
  cbn [decode_loop]. rewrite nth_error_app2 by lia.
  replace (List.length la + j - List.length la) with j by lia.
  destruct (nth_error lb j) as [line|]; [|reflexivity].
  rewrite loop_body_shift.
  destruct (loop_body lb j line) as [[i' pushed]|]; [|reflexivity].
  simpl. apply IH.
Qed.

Lemma decode_loop_end (lines : list string) (fuel i : nat)
    (acc : list BlockInput) :
  List.length lines <= i -> decode_loop (S fuel) lines i acc = Some acc.
Proof.
  intros H. cbn [decode_loop].
  apply nth_error_None in H. now rewrite H.
Qed.

Lemma decode_loop_S (lines : list string) (fuel i : nat)
    (acc : list BlockInput) :
  decode_loop (S fuel) lines i acc
  = match nth_error lines i with
    | None => Some acc
    | Some line =>
        match loop_body lines i line with
        | Some (i', pushed) => decode_loop fuel lines i' (acc ++ pushed)%list
        | None => None
        end
    end.
Proof. reflexivity. Qed.

Lemma decode_loop_prefix (la lb : list string) (fuel : nat) :
  forall (i : nat) (acc : list BlockInput),
    i <= List.length la ->
    balanced false (skipn i la) = true ->
    List.length (la ++ lb) - i < fuel ->
    decode_loop fuel (la ++ lb) i acc
    = match decode_loop fuel la i acc with
      | Some r => decode_loop fuel (la ++ lb) (List.length la) r
      | None => None
      end.
Proof.
  induction fuel as [|fuel IH]; intros i acc Hi Hbal Hfuel; [lia|].
  destruct (Nat.eq_dec i (List.length la)) as [->|Hne].
  - now rewrite (decode_loop_end la) by lia.
  - assert (Hlt : i < List.length la) by lia.
    rewrite (decode_loop_S (la ++ lb) fuel i acc),
      (decode_loop_S la fuel i acc).
    rewrite nth_error_app1 by exact Hlt.
    destruct (nth_error la i) as [line|] eqn:E;
      [|apply nth_error_None in E; lia].
    destruct (loop_body_closed la lb i line E Hbal) as [Eb Hn].
    rewrite Eb.
    destruct (loop_body la i line) as [[i' pushed]|] eqn:Hb;
      [|reflexivity].
    destruct (Hn i' pushed eq_refl) as [Hi' Hbal'].
    apply loop_body_advances in Hb.
    rewrite length_app in Hfuel.
    rewrite IH by (rewrite ?length_app; (assumption || lia)).
    destruct (decode_loop fuel la i' (acc ++ pushed)) as [r|];
      [|reflexivity].
    apply decode_loop_fuel; rewrite length_app; lia.
Qed.

(** What [decode_concat] below states, as the later proofs use it. *)
Lemma decode_concat_fact (a b : string) :
  fences_closed a = true ->
  markdownToBlocks (a ++ nl ++ b)
  = match markdownToBlocks a, markdownToBlocks b with
    | Some first, Some second => Some (first ++ second)%list
    | _, _ => None
    end.
Proof.
  intros Ha. unfold markdownToBlocks, fences_closed in *.
  rewrite split_nl_app.
  set (la := split_nl a) in *. set (lb := split_nl b).
  rewrite (decode_loop_prefix la lb _ 0 []) by (assumption || lia).
  rewrite (decode_loop_fuel la (S (List.length (la ++ lb)))
             (S (List.length la)) 0 [])
    by (rewrite ?length_app; lia).
  destruct (decode_loop (S (List.length la)) la 0 []) as [r|]; [|reflexivity].
  pose proof (decode_loop_shift la lb (S (List.length (la ++ lb))) 0 r) as Hs.
  rewrite Nat.add_0_r in Hs. rewrite Hs.
  rewrite (decode_loop_fuel lb (S (List.length (la ++ lb)))
             (S (List.length lb)) 0 r)
    by (rewrite ?length_app; lia).
  rewrite decode_loop_acc.
  now destruct (decode_loop (S (List.length lb)) lb 0 []).
Qed.

(** X23. Behind a part whose fences are closed, a document is decoded as its
    two parts are: the blocks of the first and then those of the second. *)
Theorem decode_concat (a b : string) :
  fences_closed a = true ->
  markdownToBlocks (a ++ nl ++ b)
  = match markdownToBlocks a, markdownToBlocks b with
    | Some first, Some second => Some (first ++ second)%list
    | _, _ => None
    end.
Proof. exact (decode_concat_fact a b). Qed.

Lemma decode_concat_witness :
  fences_closed ("```" ++ nl ++ "a" ++ nl ++ "```") = true
  /\ markdownToBlocks (("```" ++ nl ++ "a" ++ nl ++ "```") ++ nl ++ "- b")
     = match markdownToBlocks ("```" ++ nl ++ "a" ++ nl ++ "```"),
             markdownToBlocks "- b" with
       | Some first, Some second => Some (first ++ second)%list
       | _, _ => None
       end.
Proof.
  split; [reflexivity|].
  apply (decode_concat ("```" ++ nl ++ "a" ++ nl ++ "```") "- b").
  reflexivity.
Defined.

(** *** Flat pages through the codec *)













(** *** Lists of blocks *)

Lemma mapM_app {X Y : Type} (f : X -> option Y) (a b : list X) :
  mapM f (a ++ b)
  = match mapM f a, mapM f b with
    | Some x, Some y => Some (x ++ y)%list
    | _, _ => None
    end.
Proof.
  induction a as [|x a IH]; simpl.
  - now destruct (mapM f b).
  - destruct (f x); [|reflexivity]. rewrite IH.
    destruct (mapM f a), (mapM f b); reflexivity.
Qed.

Lemma mapM_length {X Y : Type} (f : X -> option Y) (l : list X) :
  forall ys, mapM f l = Some ys -> List.length ys = List.length l.
Proof.
  induction l as [|x l IH]; intros ys H; simpl in H.
  - now inversion H.
  - destruct (f x); [|discriminate].
    destruct (mapM f l) as [ys'|]; [|discriminate].
    inversion H. simpl. now rewrite (IH ys').
Qed.

Lemma join_app (sep : string) (a b : list string) :
  a <> [] -> b <> [] ->
  join sep (a ++ b) = join sep a ++ sep ++ join sep b.
Proof.
  intros Ha Hb. induction a as [|x a IH]; [congruence|].
  destruct a as [|y a].
  - destruct b; [congruence | reflexivity].
  - change (join sep ((x :: y :: a) ++ b))
      with (x ++ sep ++ join sep ((y :: a) ++ b)).
    rewrite IH by discriminate.
    change (join sep (x :: y :: a)) with (x ++ sep ++ join sep (y :: a)).
    now rewrite !append_assoc.
Qed.

(** X25. The text of two lists of blocks one behind the other is the text of
    the first, a line feed and the text of the second. *)
Theorem blocks_append (provider : string -> list BlockObjectResponse)
    (fuel : nat) (a b : list BlockObjectResponse) (indent : nat) :
  a <> [] -> b <> [] ->
  blocksToMarkdown provider fuel (a ++ b) indent
  = match blocksToMarkdown provider fuel a indent,
          blocksToMarkdown provider fuel b indent with
    | Some x, Some y => Some (x ++ nl ++ y)
    | _, _ => None
    end.
Proof.
  intros Ha Hb. unfold blocksToMarkdown. rewrite mapM_app.
  destruct (mapM _ a) as [xs|] eqn:Ea; [|reflexivity].
  destruct (mapM _ b) as [ys|] eqn:Eb; [|reflexivity].
  cbn [option_map]. f_equal. apply join_app.
  - apply mapM_length in Ea. destruct xs; [|discriminate].
    destruct a; [congruence | discriminate].
  - apply mapM_length in Eb. destruct ys; [|discriminate].
    destruct b; [congruence | discriminate].
Qed.

Lemma blocks_append_witness :
  [mkBlock "b1" false Divider] <> []
  /\ [mkBlock "b2" false (Embed "u")] <> []
  /\ blocksToMarkdown (fun _ => []) 1
       ([mkBlock "b1" false Divider] ++ [mkBlock "b2" false (Embed "u")]) 0
     = match blocksToMarkdown (fun _ => []) 1 [mkBlock "b1" false Divider] 0,
             blocksToMarkdown (fun _ => []) 1
               [mkBlock "b2" false (Embed "u")] 0 with
       | Some x, Some y => Some (x ++ nl ++ y)
       | _, _ => None
       end.
Proof.
  split; [discriminate|]. split; [discriminate|].
  apply (blocks_append (fun _ => []) 1 [mkBlock "b1" false Divider]
           [mkBlock "b2" false (Embed "u")] 0); discriminate.
Defined.

(** *** The title of a page *)

Lemma getPageTitle_other (e : string * PageProperty)
    (rest : list (string * PageProperty)) :
  is_title e = false -> getPageTitle (e :: rest) = getPageTitle rest.
Proof.
  destruct e as [name [ty [texts|]]]; unfold is_title; cbn;
    destruct (String.eqb ty "title"); try reflexivity; discriminate.
Qed.

Lemma getPageTitle_none (properties : list (string * PageProperty)) :
  List.length (filter is_title properties) = 0 ->
  getPageTitle properties = "Untitled".
Proof.
  induction properties as [|e rest IH]; [reflexivity|].
  cbn [filter]. destruct (is_title e) eqn:E; [discriminate|].
  intros H. rewrite (getPageTitle_other e rest E). now apply IH.
Qed.

Lemma getPageTitle_first (e : string * PageProperty)
    (rest rest' : list (string * PageProperty)) :
  is_title e = true -> getPageTitle (e :: rest) = getPageTitle (e :: rest').
Proof.
  destruct e as [name [ty [texts|]]]; unfold is_title; cbn;
    destruct (String.eqb ty "title"); try reflexivity; discriminate.
Qed.

(** X26. For a page with one title property, as the pages of the API have,
    the title does not depend on the order in which the properties are
    listed; for a page with none it is [Untitled]. *)
Theorem title_order (properties properties' : list (string * PageProperty)) :
  Permutation properties properties' ->
  List.length (filter is_title properties) <= 1 ->
  getPageTitle properties = getPageTitle properties'
  /\ (List.length (filter is_title properties) = 0 ->
      getPageTitle properties = "Untitled").
Proof.
  intros Hperm Hone. split; [|apply getPageTitle_none].
  induction Hperm as [|e l l' Hp IH|x y l|l l' l'' Hp1 IH1 Hp2 IH2].
  - reflexivity.
  - cbn [filter] in Hone. destruct (is_title e) eqn:E.
    + now apply getPageTitle_first.
    + rewrite !(getPageTitle_other e) by exact E. now apply IH.
  - cbn [filter] in Hone.
    destruct (is_title x) eqn:Ex, (is_title y) eqn:Ey;
      cbn [List.length] in Hone; try lia.
    + rewrite (getPageTitle_other y) by exact Ey.
      rewrite (getPageTitle_first x (y :: l) l Ex).
      apply (getPageTitle_first x); exact Ex.
    + rewrite (getPageTitle_other x (y :: l)) by exact Ex.
      rewrite (getPageTitle_first y (x :: l) l Ey).
      apply (getPageTitle_first y); exact Ey.
    + now rewrite !getPageTitle_other by assumption.
  - rewrite IH1 by exact Hone. apply IH2.
    assert (Hf : Permutation (filter is_title l) (filter is_title l')).
    { clear -Hp1. induction Hp1; cbn [filter].
      - constructor.
      - destruct (is_title x); [now constructor | assumption].
      - destruct (is_title x), (is_title y); try reflexivity.
        apply perm_swap.
      - eapply perm_trans; eassumption. }
    apply Permutation_length in Hf. lia.
Qed.

Lemma title_order_witness :
  Permutation
    [("Status", mkProperty "select" None);
     ("Name", mkProperty "title" (Some ["My "; "page"]))]
    [("Name", mkProperty "title" (Some ["My "; "page"]));
     ("Status", mkProperty "select" None)]
  /\ List.length
       (filter is_title
          [("Status", mkProperty "select" None);
           ("Name", mkProperty "title" (Some ["My "; "page"]))]) <= 1
  /\ getPageTitle
       [("Status", mkProperty "select" None);
        ("Name", mkProperty "title" (Some ["My "; "page"]))]
     = getPageTitle
         [("Name", mkProperty "title" (Some ["My "; "page"]));
          ("Status", mkProperty "select" None)].
Proof.
  split; [apply perm_swap|]. split; [simpl; lia|].
  apply (title_order
           [("Status", mkProperty "select" None);
            ("Name", mkProperty "title" (Some ["My "; "page"]))]
           [("Name", mkProperty "title" (Some ["My "; "page"]));
            ("Status", mkProperty "select" None)]);
    [apply perm_swap | simpl; lia].
Defined.

(** *** Pagination *)

Section PaginationFacts.
Variable list_children : string -> option string -> ListResponse.

(** X27. When the API serves the children of a block in pages, the loop asks
    for each page once and returns the full blocks of all of them in their
    order. *)
Theorem collected_pages (blockId : string) (pages : list ListResponse)
    (fuel : nat) :
  serves list_children blockId None pages ->
  List.length pages <= fuel ->
  collectAllBlocks list_children fuel blockId
  = Some (concat (map (fun p => full_blocks (results p)) pages)).
Proof.
  unfold collectAllBlocks. intros Hs.
  change (concat (map (fun p => full_blocks (results p)) pages))
    with ([] ++ concat (map (fun p => full_blocks (results p)) pages))%list.
  generalize (@nil BlockObjectResponse) as acc. revert fuel.
  induction Hs as [cursor Hlast|cursor c pages Hc Ht Hs IH];
    intros fuel acc Hfuel.
  - destruct fuel as [|fuel]; [simpl in Hfuel; lia|].
    cbn [collect_loop map concat]. rewrite app_nil_r.
    destruct (next_cursor (list_children blockId cursor)) as [c|];
      [now rewrite Hlast | reflexivity].
  - destruct fuel as [|fuel]; [simpl in Hfuel; lia|].
    cbn [collect_loop map concat]. rewrite Hc, Ht.
    rewrite IH by (simpl in Hfuel; lia). now rewrite app_assoc.
Qed.

End PaginationFacts.

Lemma collected_pages_witness :
  serves two_page_listing "p" None
    [two_page_listing "p" None; two_page_listing "p" (Some "c1")]
  /\ 2 <= 2
  /\ collectAllBlocks two_page_listing 2 "p"
     = Some (concat (map (fun p => full_blocks (results p))
                       [two_page_listing "p" None;
                        two_page_listing "p" (Some "c1")])).
Proof.
  assert (Hs : serves two_page_listing "p" None
                 [two_page_listing "p" None;
                  two_page_listing "p" (Some "c1")]).
  { apply (serves_next two_page_listing "p" None "c1");
      [reflexivity | reflexivity |].
    apply (serves_last two_page_listing "p" (Some "c1")). exact I. }
  split; [exact Hs|]. split; [lia|].
  apply (collected_pages two_page_listing "p" _ 2 Hs). simpl. lia.
Defined.

(** *** The rows of query results *)

Lemma cell_bars (s : string) :
  forall (escaped : bool) (rest : string),
    bare_bars escaped (cell (Some s) ++ String " " rest)
    = bare_bars false rest
  /\ every no_line_feed (cell (Some s)) = true.
Proof.
  unfold cell. induction s as [|a s IH]; intros escaped rest.
  - split; reflexivity.
  - cbn [escape_bars]. destruct (Ascii.eqb a "|") eqn:Ea.
    + cbn [spaces_for_line_feeds append bare_bars every].
      destruct (IH false rest) as [E1 E2].
      cbn [Ascii.eqb Bool.eqb andb backslash]. rewrite E1, E2.
      split; reflexivity.
    + cbn [spaces_for_line_feeds append bare_bars every].
      destruct (Ascii.eqb a "010") eqn:En.
      * destruct (IH false rest) as [E1 E2].
        cbn [Ascii.eqb Bool.eqb andb backslash]. rewrite E1, E2.
        split; reflexivity.
      * destruct (IH (Ascii.eqb a backslash) rest) as [E1 E2].
        rewrite Ea, E1, E2. unfold no_line_feed. rewrite En.
        split; reflexivity.
Qed.

Lemma cell_bars_any (formatted : option string) (escaped : bool)
    (rest : string) :
  bare_bars escaped (cell formatted ++ String " " rest) = bare_bars false rest
  /\ every no_line_feed (cell formatted) = true.
Proof.
  destruct formatted as [s|]; [apply cell_bars | split; reflexivity].
Qed.

Lemma row_tail (c : option string) (cs : list (option string)) :
  bare_bars false (join " | " (map cell (c :: cs)) ++ " |")
  = S (List.length cs)
  /\ every no_line_feed (join " | " (map cell (c :: cs))) = true.
Proof.
  revert c. induction cs as [|c' cs IH]; intros c.
  - cbn [map join]. destruct (cell_bars_any c false "|") as [E1 E2].
    change (cell c ++ " |") with (cell c ++ String " " "|").
    rewrite E1. split; [reflexivity | exact E2].
  - change (join " | " (map cell (c :: c' :: cs)))
      with (cell c ++ " | " ++ join " | " (map cell (c' :: cs))).
    destruct (IH c') as [E1 E2].
    destruct (cell_bars_any c false
                ("| " ++ join " | " (map cell (c' :: cs)) ++ " |"))
      as [E3 E4].
    split.
    + rewrite !append_assoc.
      change (" | " ++ join " | " (map cell (c' :: cs)) ++ " |")
        with (String " "
                ("| " ++ join " | " (map cell (c' :: cs)) ++ " |")).
      rewrite E3. cbn [append bare_bars Ascii.eqb Bool.eqb andb negb backslash].
      rewrite E1. reflexivity.
    + rewrite !every_append, E4, E2. reflexivity.
Qed.

(** X28. A row of the table of query results is one line, whatever the
    values hold, and its bars that stand behind no backslash are those of
    the table: one more than there are columns. *)
Theorem row_columns (formatted : list (option string)) :
  formatted <> [] ->
  every no_line_feed (result_row formatted) = true
  /\ bare_bars false (result_row formatted) = List.length formatted + 1.
Proof.
  intros Hne. destruct formatted as [|c cs]; [congruence|].
  destruct (row_tail c cs) as [E1 E2].
  unfold result_row, table_line. split.
  - rewrite !every_append, E2. reflexivity.
  - cbn [append bare_bars Ascii.eqb Bool.eqb andb negb backslash].
    rewrite E1. cbn [List.length]. lia.
Qed.

Lemma row_columns_witness :
  [Some ("a|b" ++ nl ++ "c"); None] <> []
  /\ every no_line_feed (result_row [Some ("a|b" ++ nl ++ "c"); None]) = true
  /\ bare_bars false (result_row [Some ("a|b" ++ nl ++ "c"); None])
     = List.length [Some ("a|b" ++ nl ++ "c"); @None string] + 1.
Proof.
  split; [discriminate|].
  apply (row_columns [Some ("a|b" ++ nl ++ "c"); None]). discriminate.
Defined.
